(** * QMapControl: viewport state, coordinate transform, backbuffer and
      line-string hit test

    A shallow embedding of [QMapControl.cpp] and [GeometryLineString.cpp].

    - C++ [int] values are [Z].  The only integer arithmetic in the modelled
      functions is [m_current_zoom++] / [m_current_zoom--],
      [m_animated_steps--] and the loop counters of [setZoom]; every one of
      them is guarded by a comparison against another [int], so no operation
      wraps and no reduction modulo 2^32 is written out.
    - C++ [double] ([qreal]) values are exact rationals extended with a
      not-a-number element (type [double] below): rounding and overflow are
      abstracted away, the not-a-number produced by [0.0 / 0] is kept.
    - The Qt value classes [QPointF], [QSizeF] and [QRectF] follow qpoint.h and
      qrect.h / qrect.cpp of Qt 5.
    - The projection (class [Projection], not part of the two source files) is
      a parameter of the development. *)

From Stdlib Require Import ZArith QArith Qfield Lqa Bool List Lia Arith.
Import ListNotations.

(* ===================================================================== *)
(** ** IEEE doubles, without rounding                                     *)
(* ===================================================================== *)

Module Dbl.

(** A finite value or NaN.  Infinities are left out: with exact finite
    arithmetic they could only come from dividing a non-zero value by zero,
    and the divisors of the modelled code are the literal [2.0], a step count
    tested to be positive, and a container size whose zero case has a zero
    numerator. *)
Inductive double : Type :=
| Fin (q : Q)
| NaN.

Definition zero : double := Fin 0.
Definition two : double := Fin 2.

Definition of_int (z : Z) : double := Fin (inject_Z z).

Definition add (a b : double) : double :=
  match a, b with
  | Fin x, Fin y => Fin (x + y)
  | _, _ => NaN
  end.

Definition sub (a b : double) : double :=
  match a, b with
  | Fin x, Fin y => Fin (x - y)
  | _, _ => NaN
  end.

(** [0.0 / 0.0] is NaN. *)
Definition div (a b : double) : double :=
  match a, b with
  | Fin x, Fin y => if Qeq_bool y 0 then NaN else Fin (x / y)
  | _, _ => NaN
  end.

(** Comparisons: every comparison with a NaN operand is false. *)
Definition ltb (a b : double) : bool :=
  match a, b with
  | Fin x, Fin y => negb (Qle_bool y x)
  | _, _ => false
  end.

Definition gtb (a b : double) : bool := ltb b a.

Definition eqb (a b : double) : bool :=
  match a, b with
  | Fin x, Fin y => Qeq_bool x y
  | _, _ => false
  end.

(** Same number (rationals up to [==]), or both NaN: the equality used to
    compare a computed double with a specified one. *)
Definition same (a b : double) : Prop :=
  match a, b with
  | Fin x, Fin y => x == y
  | NaN, NaN => True
  | _, _ => False
  end.

Definition is_finite (a : double) : bool :=
  match a with Fin _ => true | NaN => false end.

End Dbl.

Import Dbl.

Declare Scope dbl_scope.
Delimit Scope dbl_scope with dbl.
Infix "+" := Dbl.add : dbl_scope.
Infix "-" := Dbl.sub : dbl_scope.
Infix "/" := Dbl.div : dbl_scope.
Infix "<?" := Dbl.ltb : dbl_scope.
Infix ">?" := Dbl.gtb : dbl_scope.
Infix "=?" := Dbl.eqb : dbl_scope.

(* ===================================================================== *)
(** ** Qt value classes                                                   *)
(* ===================================================================== *)

Record QPointF : Type := mkPoint { pt_x : double; pt_y : double }.

Record QSizeF : Type := mkSize { sz_width : double; sz_height : double }.

(** [QRectF] stores its top-left corner and its (signed) width and height. *)
Record QRectF : Type :=
  mkRect { xp : double; yp : double; rw : double; rh : double }.

Module Qt.

(** [operator+], [operator-] and [operator/] of [QPointF]. *)
Definition pt_add (a b : QPointF) : QPointF :=
  mkPoint (pt_x a + pt_x b)%dbl (pt_y a + pt_y b)%dbl.

Definition pt_sub (a b : QPointF) : QPointF :=
  mkPoint (pt_x a - pt_x b)%dbl (pt_y a - pt_y b)%dbl.

Definition pt_div (a : QPointF) (c : double) : QPointF :=
  mkPoint (pt_x a / c)%dbl (pt_y a / c)%dbl.

(** [QRectF(const QPointF &topLeft, const QPointF &bottomRight)]. *)
Definition rect_of_corners (tl br : QPointF) : QRectF :=
  mkRect (pt_x tl) (pt_y tl) (pt_x br - pt_x tl)%dbl (pt_y br - pt_y tl)%dbl.

Definition topLeft (r : QRectF) : QPointF := mkPoint (xp r) (yp r).

(** [isNull]: [w == 0. && h == 0.]; [isValid]: [w > 0. && h > 0.]. *)
Definition isNull (r : QRectF) : bool :=
  (rw r =? zero)%dbl && (rh r =? zero)%dbl.

Definition isValid (r : QRectF) : bool :=
  (rw r >? zero)%dbl && (rh r >? zero)%dbl.

(** The interval [l, r] that a start [p] and a signed extent [w] span:
    [if (w < 0) l += w; else r += w;]. *)
Definition span (p w : double) : double * double :=
  if (w <? zero)%dbl then ((p + w)%dbl, p) else (p, (p + w)%dbl).

(** One axis of [QRectF::contains(const QPointF &)]. *)
Definition axis_contains_value (p w v : double) : bool :=
  let (l, r) := span p w in
  if (l =? r)%dbl then false
  else if (v <? l)%dbl || (v >? r)%dbl then false
  else true.

Definition contains_point (r : QRectF) (p : QPointF) : bool :=
  if axis_contains_value (xp r) (rw r) (pt_x p)
  then axis_contains_value (yp r) (rh r) (pt_y p)
  else false.

(** One axis of [QRectF::contains(const QRectF &)]. *)
Definition axis_contains_span (p1 w1 p2 w2 : double) : bool :=
  let (l1, r1) := span p1 w1 in
  if (l1 =? r1)%dbl then false
  else
    let (l2, r2) := span p2 w2 in
    if (l2 =? r2)%dbl then false
    else if (l2 <? l1)%dbl || (r2 >? r1)%dbl then false
    else true.

Definition contains_rect (r1 r2 : QRectF) : bool :=
  if axis_contains_span (xp r1) (rw r1) (xp r2) (rw r2)
  then axis_contains_span (yp r1) (rh r1) (yp r2) (rh r2)
  else false.

End Qt.

(* ===================================================================== *)
(** ** The map control: fields and observable effects                     *)
(* ===================================================================== *)

(** The data members of [QMapControl] that the modelled member functions read
    or write.  Pixmaps, the layer container and the child widgets are not
    part of the record; what the functions do to them is recorded as an
    [Effect].  A [std::mutex] taken with [try_lock] is a flag: [true] when
    locked. *)
Record QMapControl : Type := mkControl {
  m_viewport_size_px : QSizeF;
  m_viewport_center_px : QPointF;
  m_limited_viewport_rect_coord : QRectF;
  m_map_focus_coord : QPointF;
  m_animated_map_focus_point : QPointF;
  m_animated_steps : Z;
  m_animated_interval : Z;
  m_animated_mutex : bool;
  m_zoom_minimum : Z;
  m_zoom_maximum : Z;
  m_current_zoom : Z;
  m_primary_screen_scaled_enabled : bool;
  m_primary_screen_map_focus_point : QPointF;
  m_primary_screen_backbuffer_rect_px : QRectF
}.

(** Calls that leave the object: to the image manager, the thread pool, the
    widget toolkit, the timer and the debug stream.  Signals that the child
    widgets send back (the slider's [valueChanged], connected to [setZoom]) are
    outside the model. *)
Inductive Effect : Type :=
| AbortLoading
| ScaledPreview (scale : double)
| RunRedrawBackbuffer
| MoveGeometryWidgets (offset : QPointF) (zoom : Z)
| WidgetUpdate
| UpdateControls (slider_min slider_max slider_value : Z)
| SingleShotAnimatedTick (msec : Z)
| DebugAlreadyAnimating.

(** Field updates. *)
Definition set_viewport (sz : QSizeF) (c : QPointF) (s : QMapControl) :=
  mkControl sz c (m_limited_viewport_rect_coord s) (m_map_focus_coord s)
    (m_animated_map_focus_point s) (m_animated_steps s) (m_animated_interval s)
    (m_animated_mutex s) (m_zoom_minimum s) (m_zoom_maximum s) (m_current_zoom s)
    (m_primary_screen_scaled_enabled s) (m_primary_screen_map_focus_point s)
    (m_primary_screen_backbuffer_rect_px s).

Definition set_limited_viewport_rect_coord (r : QRectF) (s : QMapControl) :=
  mkControl (m_viewport_size_px s) (m_viewport_center_px s) r (m_map_focus_coord s)
    (m_animated_map_focus_point s) (m_animated_steps s) (m_animated_interval s)
    (m_animated_mutex s) (m_zoom_minimum s) (m_zoom_maximum s) (m_current_zoom s)
    (m_primary_screen_scaled_enabled s) (m_primary_screen_map_focus_point s)
    (m_primary_screen_backbuffer_rect_px s).

Definition set_map_focus_coord (p : QPointF) (s : QMapControl) :=
  mkControl (m_viewport_size_px s) (m_viewport_center_px s)
    (m_limited_viewport_rect_coord s) p
    (m_animated_map_focus_point s) (m_animated_steps s) (m_animated_interval s)
    (m_animated_mutex s) (m_zoom_minimum s) (m_zoom_maximum s) (m_current_zoom s)
    (m_primary_screen_scaled_enabled s) (m_primary_screen_map_focus_point s)
    (m_primary_screen_backbuffer_rect_px s).

Definition set_animation (target : QPointF) (steps interval : Z) (locked : bool)
    (s : QMapControl) :=
  mkControl (m_viewport_size_px s) (m_viewport_center_px s)
    (m_limited_viewport_rect_coord s) (m_map_focus_coord s)
    target steps interval locked
    (m_zoom_minimum s) (m_zoom_maximum s) (m_current_zoom s)
    (m_primary_screen_scaled_enabled s) (m_primary_screen_map_focus_point s)
    (m_primary_screen_backbuffer_rect_px s).

Definition set_zoom_fields (zmin zmax zcur : Z) (s : QMapControl) :=
  mkControl (m_viewport_size_px s) (m_viewport_center_px s)
    (m_limited_viewport_rect_coord s) (m_map_focus_coord s)
    (m_animated_map_focus_point s) (m_animated_steps s) (m_animated_interval s)
    (m_animated_mutex s) zmin zmax zcur
    (m_primary_screen_scaled_enabled s) (m_primary_screen_map_focus_point s)
    (m_primary_screen_backbuffer_rect_px s).

Definition set_primary_screen (focus_px : QPointF) (rect_px : QRectF)
    (s : QMapControl) :=
  mkControl (m_viewport_size_px s) (m_viewport_center_px s)
    (m_limited_viewport_rect_coord s) (m_map_focus_coord s)
    (m_animated_map_focus_point s) (m_animated_steps s) (m_animated_interval s)
    (m_animated_mutex s) (m_zoom_minimum s) (m_zoom_maximum s) (m_current_zoom s)
    (m_primary_screen_scaled_enabled s) focus_px rect_px.

(* ===================================================================== *)
(** ** State and effect-log monad                                         *)
(* ===================================================================== *)

(** A member function takes the object, returns a value, the updated object
    and the effects it performed, oldest first. *)
Definition M (A : Type) : Type := QMapControl -> A * QMapControl * list Effect.

Definition ret {A} (a : A) : M A := fun s => (a, s, []).

Definition bind {A B} (c : M A) (k : A -> M B) : M B :=
  fun s =>
    let '(a, s1, e1) := c s in
    let '(b, s2, e2) := k a s1 in
    (b, s2, e1 ++ e2).

Definition get : M QMapControl := fun s => (s, s, []).
Definition modify (f : QMapControl -> QMapControl) : M unit :=
  fun s => (tt, f s, []).
Definition emit (e : Effect) : M unit := fun s => (tt, s, [e]).

Declare Scope monad_scope.
Delimit Scope monad_scope with monad.
Notation "x <- c ;; k" := (bind c (fun x => k))
  (at level 61, c at next level, right associativity) : monad_scope.
Notation "c ;; k" := (bind c (fun _ => k))
  (at level 61, right associativity) : monad_scope.
Open Scope monad_scope.

Definition when (b : bool) (c : M unit) : M unit := if b then c else ret tt.

(** State and effects of running a member function. *)
Definition exec {A} (c : M A) (s : QMapControl) : QMapControl := snd (fst (c s)).
Definition effects {A} (c : M A) (s : QMapControl) : list Effect := snd (c s).
Definition result {A} (c : M A) (s : QMapControl) : A := fst (fst (c s)).

(** [for] loop whose trip count is fixed on entry. *)
Fixpoint repeatM (n : nat) (body : M unit) : M unit :=
  match n with
  | O => ret tt
  | S n' => body ;; repeatM n' body
  end.

(** [while (cond) body], with a bound on the number of iterations. *)
Fixpoint whileM (fuel : nat) (cond : QMapControl -> bool) (body : M unit) : M unit :=
  match fuel with
  | O => ret tt
  | S fuel' =>
      s <- get ;;
      if cond s then body ;; whileM fuel' cond body else ret tt
  end.

(* ===================================================================== *)
(** ** Member functions of QMapControl                                    *)
(* ===================================================================== *)

Section MapControl.

(** [projection::get().toPixelPoint] and [projection::get().toCoordinatePoint]. *)
Variable toPixelPoint : QPointF -> Z -> QPointF.
Variable toCoordinatePoint : QPointF -> Z -> QPointF.

(** *** Coordinate transform *)

Definition mapFocusPointPx (s : QMapControl) : QPointF :=
  toPixelPoint (m_map_focus_coord s) (m_current_zoom s).

(** [toPointPx(click_point_px, map_focus_point_px)]. *)
Definition toPointPx_at (s : QMapControl) (click_point_px map_focus_point_px : QPointF)
  : QPointF :=
  Qt.pt_add (Qt.pt_sub click_point_px (m_viewport_center_px s)) map_focus_point_px.

(** [toPointPx(click_point_px)]. *)
Definition toPointPx (s : QMapControl) (click_point_px : QPointF) : QPointF :=
  toPointPx_at s click_point_px (mapFocusPointPx s).

Definition toPointCoord_at (s : QMapControl) (click_point_px map_focus_point_px : QPointF)
  : QPointF :=
  toCoordinatePoint (toPointPx_at s click_point_px map_focus_point_px) (m_current_zoom s).

Definition toPointCoord (s : QMapControl) (click_point_px : QPointF) : QPointF :=
  toCoordinatePoint (toPointPx_at s click_point_px (mapFocusPointPx s)) (m_current_zoom s).

Definition getViewportRect (s : QMapControl) : QRectF :=
  Qt.rect_of_corners
    (toCoordinatePoint (Qt.pt_sub (mapFocusPointPx s) (m_viewport_center_px s))
       (m_current_zoom s))
    (toCoordinatePoint (Qt.pt_add (mapFocusPointPx s) (m_viewport_center_px s))
       (m_current_zoom s)).

(** The loop of [viewportContainsAll]: it runs while the flag is still true. *)
Fixpoint contains_all_loop (rect : QRectF) (return_contains_all : bool)
    (points_coord : list QPointF) : bool :=
  match points_coord with
  | [] => return_contains_all
  | p :: rest =>
      if return_contains_all
      then contains_all_loop rect (Qt.contains_point rect p) rest
      else return_contains_all
  end.

Definition viewportContainsAll (s : QMapControl) (points_coord : list QPointF) : bool :=
  contains_all_loop (getViewportRect s) true points_coord.

(** *** Backbuffer *)

Definition origin : QPointF := mkPoint zero zero.

Definition size_corner (s : QMapControl) : QPointF :=
  mkPoint (sz_width (m_viewport_size_px s)) (sz_height (m_viewport_size_px s)).

(** The rectangle [checkBackbuffer] requires. *)
Definition required_viewport_rect_px (s : QMapControl) : QRectF :=
  Qt.rect_of_corners (toPointPx s origin) (toPointPx s (size_corner s)).

(** [true] when a redraw is required. *)
Definition checkBackbuffer (s : QMapControl) : bool :=
  if negb (Qt.contains_rect (m_primary_screen_backbuffer_rect_px s)
             (required_viewport_rect_px s))
  then true else false.

(** The loop over the layers ([moveGeometryWidgets]) is one effect. *)
Definition redrawPrimaryScreen (force_redraw : bool) : M unit :=
  s <- get ;;
  when (force_redraw || checkBackbuffer s) (emit RunRedrawBackbuffer) ;;
  emit (MoveGeometryWidgets (Qt.pt_sub (mapFocusPointPx s) (m_viewport_center_px s))
          (m_current_zoom s)) ;;
  emit WidgetUpdate.

Definition requestRedraw : M unit := redrawPrimaryScreen true.

(** What [redrawBackbuffer] hands to [updatedBackBuffer] once it holds the
    backbuffer mutex: the rectangle drawn and the focus captured. *)
Definition redrawBackbuffer_result (s : QMapControl) : QRectF * QPointF :=
  let backbuffer_map_focus_px := mapFocusPointPx s in
  let backbuffer_rect_px :=
    Qt.rect_of_corners
      (toPointPx_at s (Qt.pt_sub origin (m_viewport_center_px s))
         backbuffer_map_focus_px)
      (toPointPx_at s (Qt.pt_add (size_corner s) (m_viewport_center_px s))
         backbuffer_map_focus_px) in
  (backbuffer_rect_px, backbuffer_map_focus_px).

(** The slot connected to [updatedBackBuffer]. *)
Definition updatePrimaryScreen (backbuffer_rect_px : QRectF)
    (backbuffer_map_focus_px : QPointF) : M unit :=
  modify (set_primary_screen backbuffer_map_focus_px backbuffer_rect_px) ;;
  emit WidgetUpdate.

(** *** Viewport and pan limit *)

Definition updateControls : M unit :=
  s <- get ;;
  emit (UpdateControls (m_zoom_minimum s) (m_zoom_maximum s) (m_current_zoom s)).

Definition setViewportSize (size_px : QSizeF) : M unit :=
  modify (set_viewport size_px
            (mkPoint (sz_width size_px / two)%dbl (sz_height size_px / two)%dbl)) ;;
  redrawPrimaryScreen true ;;
  updateControls.

Definition resetLimitedViewportRect : M unit :=
  modify (set_limited_viewport_rect_coord (mkRect zero zero zero zero)).

Definition setLimitedViewportRect (top_left_coord bottom_right_coord : QPointF) : M unit :=
  modify (set_limited_viewport_rect_coord
            (Qt.rect_of_corners top_left_coord bottom_right_coord)).

(** *** Focus *)

Definition setMapFocusPoint (point_coord : QPointF) : M unit :=
  modify (set_map_focus_coord point_coord) ;;
  redrawPrimaryScreen false.

(** The accumulation loop of [calculateMapFocusPoint]. *)
Definition sum_step (acc : double * double) (coordinate : QPointF) : double * double :=
  ((fst acc + pt_x coordinate)%dbl, (snd acc + pt_y coordinate)%dbl).

Definition calculateMapFocusPoint (points_coord : list QPointF) : QPointF :=
  let '(sum_x, sum_y) := fold_left sum_step points_coord (zero, zero) in
  let size := of_int (Z.of_nat (length points_coord)) in
  mkPoint (sum_x / size)%dbl (sum_y / size)%dbl.

Definition scrollView (delta_px : QPointF) : M unit :=
  s <- get ;;
  let new_map_focus_coord :=
    toCoordinatePoint (Qt.pt_add (mapFocusPointPx s) delta_px) (m_current_zoom s) in
  if Qt.isNull (m_limited_viewport_rect_coord s)
     || (Qt.isValid (m_limited_viewport_rect_coord s)
         && Qt.contains_point (m_limited_viewport_rect_coord s) new_map_focus_coord)
  then setMapFocusPoint new_map_focus_coord
  else ret tt.

Definition neg (d : double) : double := (zero - d)%dbl.

Definition scrollViewLeft (delta_px : double) : M unit :=
  scrollView (mkPoint (neg delta_px) zero).
Definition scrollViewRight (delta_px : double) : M unit :=
  scrollView (mkPoint delta_px zero).
Definition scrollViewUp (delta_px : double) : M unit :=
  scrollView (mkPoint zero (neg delta_px)).
Definition scrollViewDown (delta_px : double) : M unit :=
  scrollView (mkPoint zero delta_px).

(** *** Zoom *)

Definition set_current_zoom (z : Z) (s : QMapControl) : QMapControl :=
  set_zoom_fields (m_zoom_minimum s) (m_zoom_maximum s) z s.

Definition zoomIn : M unit :=
  s <- get ;;
  if (m_current_zoom s <? m_zoom_maximum s)%Z then
    emit AbortLoading ;;
    when (m_primary_screen_scaled_enabled s) (emit (ScaledPreview two)) ;;
    modify (set_current_zoom (m_current_zoom s + 1)) ;;
    redrawPrimaryScreen true ;;
    updateControls
  else ret tt.

Definition zoomOut : M unit :=
  s <- get ;;
  if (m_current_zoom s >? m_zoom_minimum s)%Z then
    emit AbortLoading ;;
    when (m_primary_screen_scaled_enabled s) (emit (ScaledPreview (Fin (1 # 2)))) ;;
    modify (set_current_zoom (m_current_zoom s - 1)) ;;
    redrawPrimaryScreen true ;;
    updateControls
  else ret tt.

Definition setZoom (zoom : Z) : M unit :=
  s <- get ;;
  let zoom :=
    if (zoom <? m_zoom_minimum s)%Z then m_zoom_minimum s
    else if (zoom >? m_zoom_maximum s)%Z then m_zoom_maximum s
    else zoom in
  if negb (m_current_zoom s =? zoom)%Z then
    if (m_current_zoom s >? zoom)%Z
    then repeatM (Z.to_nat (m_current_zoom s - zoom)) zoomOut
    else repeatM (Z.to_nat (zoom - m_current_zoom s)) zoomIn
  else ret tt.

Definition checkZoom : M unit :=
  s <- get ;;
  when (m_zoom_maximum s >? m_zoom_minimum s)%Z
    (modify (set_zoom_fields (m_zoom_maximum s) (m_zoom_minimum s) (m_current_zoom s))) ;;
  s <- get ;;
  if (m_current_zoom s <? m_zoom_minimum s)%Z then setZoom (m_zoom_minimum s)
  else if (m_current_zoom s >? m_zoom_maximum s)%Z then setZoom (m_zoom_maximum s)
  else ret tt.

Definition setZoomMinimum (zoom : Z) : M unit :=
  modify (fun s => set_zoom_fields zoom (m_zoom_maximum s) (m_current_zoom s) s) ;;
  checkZoom ;;
  updateControls.

Definition setZoomMaximum (zoom : Z) : M unit :=
  modify (fun s => set_zoom_fields (m_zoom_minimum s) zoom (m_current_zoom s) s) ;;
  checkZoom ;;
  updateControls.

(** *** Focus on a list of points, with automatic zoom *)

Definition zoom_out_wanted (points_coord : list QPointF) (s : QMapControl) : bool :=
  negb (viewportContainsAll s points_coord) && (m_current_zoom s >? m_zoom_minimum s)%Z.

Definition zoom_in_wanted (points_coord : list QPointF) (s : QMapControl) : bool :=
  viewportContainsAll s points_coord && (m_current_zoom s <? m_zoom_maximum s)%Z.

(** The two [while] loops get as many iterations as there are zoom levels
    between the current zoom and the bound they stop at;
    [autozoom_loops_complete] shows that neither loop is cut short. *)
Definition setMapFocusPoints (points_coord : list QPointF) (auto_zoom : bool) : M unit :=
  setMapFocusPoint (calculateMapFocusPoint points_coord) ;;
  if auto_zoom then
    s <- get ;;
    whileM (Z.to_nat (m_current_zoom s - m_zoom_minimum s))
      (zoom_out_wanted points_coord) zoomOut ;;
    s <- get ;;
    whileM (Z.to_nat (m_zoom_maximum s - m_current_zoom s))
      (zoom_in_wanted points_coord) zoomIn ;;
    s <- get ;;
    if zoom_out_wanted points_coord s then zoomOut else ret tt
  else ret tt.

(** *** Animated focus *)

Definition setMapFocusPointAnimated (coordinate : QPointF) (steps : Z)
    (step_interval : Z) : M unit :=
  s <- get ;;
  if negb (m_animated_mutex s) then
    modify (set_animation coordinate steps step_interval true) ;;
    emit (SingleShotAnimatedTick step_interval)
  else emit DebugAlreadyAnimating.

Definition animatedTick : M unit :=
  s <- get ;;
  if (m_animated_steps s >? 0)%Z then
    let start_px := toPixelPoint (m_map_focus_coord s) (m_current_zoom s) in
    let dest_px := toPixelPoint (m_animated_map_focus_point s) (m_current_zoom s) in
    let delta_px := Qt.pt_sub dest_px start_px in
    scrollView (Qt.pt_div delta_px (of_int (m_animated_steps s))) ;;
    modify (fun s => set_animation (m_animated_map_focus_point s)
                       (m_animated_steps s - 1) (m_animated_interval s)
                       (m_animated_mutex s) s) ;;
    s <- get ;;
    emit (SingleShotAnimatedTick (m_animated_interval s))
  else
    modify (fun s => set_animation (m_animated_map_focus_point s)
                       (m_animated_steps s) (m_animated_interval s) false s).

(** *** Notions used in statements *)

(** The centre the constructor and [setViewportSize] store. *)
Definition centered (s : QMapControl) : Prop :=
  m_viewport_center_px s
  = mkPoint (sz_width (m_viewport_size_px s) / two)%dbl
            (sz_height (m_viewport_size_px s) / two)%dbl.

(** The focus a scroll by [delta_px] asks for. *)
Definition scroll_target (s : QMapControl) (delta_px : QPointF) : QPointF :=
  toCoordinatePoint (Qt.pt_add (mapFocusPointPx s) delta_px) (m_current_zoom s).

End MapControl.

(** The object as the constructor
    [QMapControl(const QSizeF& size_px, QWidget*, Qt::WindowFlags)] leaves it. *)
Definition constructed (size_px : QSizeF) : QMapControl :=
  mkControl size_px
    (mkPoint (sz_width size_px / two)%dbl (sz_height size_px / two)%dbl)
    (mkRect zero zero zero zero)
    (mkPoint zero zero)
    (mkPoint zero zero) 0 0 false
    0 17 0
    false
    (mkPoint zero zero)
    (mkRect zero zero zero zero).

(** A linear projection, one map pixel per coordinate unit at zoom 0 and twice
    as many at each further level.  It only serves to run the member
    functions on concrete inputs. *)
Module LinearProjection.

Definition scale (zoom : Z) : double := of_int (2 ^ zoom).

Definition toPixelPoint (c : QPointF) (zoom : Z) : QPointF :=
  match pt_x c, pt_y c, scale zoom with
  | Fin x, Fin y, Fin k => mkPoint (Fin (x * k)) (Fin (y * k))
  | _, _, _ => mkPoint NaN NaN
  end.

Definition toCoordinatePoint (p : QPointF) (zoom : Z) : QPointF :=
  Qt.pt_div p (scale zoom).

End LinearProjection.

(* ===================================================================== *)
(** ** GeometryLineString                                                 *)
(* ===================================================================== *)

Set Implicit Arguments.

Section LineString.

(** [GeometryPoint], the [QGraphicsItem] area and the base class part
    ([GeometryCurve] / [Geometry]) with its [isVisible], none of which are in
    the source file, are parameters. *)
Variable GeometryPoint : Type.
Variable QGraphicsItem : Type.
Variable Geometry : Type.
Variable point_touches : GeometryPoint -> QGraphicsItem -> Z -> bool.
Variable isVisible : Geometry -> Z -> bool.

Record GeometryLineString : Type := mkLineString {
  base : Geometry;
  m_points : list GeometryPoint;
  m_touched_points : list GeometryPoint
}.

Inductive Signal : Type :=
| requestRedraw_signal
| geometryClicked_signal.

Definition points (g : GeometryLineString) : list GeometryPoint := m_points g.

Definition setPoints (pts : list GeometryPoint) (g : GeometryLineString)
  : GeometryLineString * list Signal :=
  (mkLineString (base g) pts (m_touched_points g), [requestRedraw_signal]).

Definition addPoint (pt : GeometryPoint) (g : GeometryLineString)
  : GeometryLineString * list Signal :=
  (mkLineString (base g) (m_points g ++ [pt]) (m_touched_points g),
   [requestRedraw_signal]).

Definition touchedPoints (g : GeometryLineString) : list GeometryPoint :=
  m_touched_points g.

(** One iteration of the loop over [m_points]: the state carried is
    [m_touched_points] and [return_touches]. *)
Definition touches_step (area_px : QGraphicsItem) (controller_zoom : Z)
    (acc : list GeometryPoint * bool) (point : GeometryPoint)
  : list GeometryPoint * bool :=
  if point_touches point area_px controller_zoom
  then (fst acc ++ [point], true)
  else acc.

Definition touches (area_px : QGraphicsItem) (controller_zoom : Z)
    (g : GeometryLineString) : bool * GeometryLineString * list Signal :=
  let return_touches := false in
  (* m_touched_points.clear() *)
  let g := mkLineString (base g) (m_points g) [] in
  if isVisible (base g) controller_zoom then
    let '(touched, return_touches) :=
      fold_left (touches_step area_px controller_zoom) (m_points g)
        (m_touched_points g, return_touches) in
    (return_touches,
     mkLineString (base g) (m_points g) touched,
     if return_touches then [geometryClicked_signal] else [])
  else
    (return_touches, g, []).

End LineString.

Unset Implicit Arguments.

(* ===================================================================== *)
(** ** The worker threads of redrawBackbuffer                             *)
(* ===================================================================== *)

(** [redrawPrimaryScreen] starts [redrawBackbuffer] on a pool thread with
    [QtConcurrent::run], which returns at once.  Each pool thread runs the
    function's lock protocol; its position in it is its program counter. *)
Module Worker.

Inductive pc : Type :=
| AtTryLock       (* before m_backbuffer_queued_mutex.try_lock() *)
| AtLockGuard     (* holds the queue mutex; before lock_guard(m_backbuffer_mutex) *)
| AtUnlockQueued  (* holds both; before m_backbuffer_queued_mutex.unlock() *)
| Drawing         (* holds the backbuffer mutex; from image creation to emit *)
| Done            (* lock_guard released, function returned *)
| Skipped.        (* try_lock failed, function returned *)

Definition pc_eqb (a b : pc) : bool :=
  match a, b with
  | AtTryLock, AtTryLock | AtLockGuard, AtLockGuard
  | AtUnlockQueued, AtUnlockQueued | Drawing, Drawing
  | Done, Done | Skipped, Skipped => true
  | _, _ => false
  end.

Record pool : Type := mkPool {
  backbuffer_queued_mutex : bool;
  backbuffer_mutex : bool;
  threads : list pc
}.

Definition idle : pool := mkPool false false [].

(** [QtConcurrent::run(this, &QMapControl::redrawBackbuffer)]. *)
Definition spawn (p : pool) : pool :=
  mkPool (backbuffer_queued_mutex p) (backbuffer_mutex p) (threads p ++ [AtTryLock]).

(** The next atomic action of a thread at [c]; [None] when it cannot move:
    it has returned, or it is blocked on the backbuffer mutex. *)
Definition thread_step (queued backbuffer : bool) (c : pc)
  : option (bool * bool * pc) :=
  match c with
  | AtTryLock =>
      if queued then Some (queued, backbuffer, Skipped)
      else Some (true, backbuffer, AtLockGuard)
  | AtLockGuard =>
      if backbuffer then None else Some (queued, true, AtUnlockQueued)
  | AtUnlockQueued => Some (false, backbuffer, Drawing)
  | Drawing => Some (queued, false, Done)
  | Done | Skipped => None
  end.

Fixpoint replace_nth (i : nat) (c : pc) (l : list pc) : list pc :=
  match l, i with
  | [], _ => []
  | _ :: tl, O => c :: tl
  | x :: tl, S i' => x :: replace_nth i' c tl
  end.

(** Thread [i] takes its next action. *)
Definition fire (i : nat) (p : pool) : option pool :=
  match nth_error (threads p) i with
  | None => None
  | Some c =>
      match thread_step (backbuffer_queued_mutex p) (backbuffer_mutex p) c with
      | None => None
      | Some (q', b', c') => Some (mkPool q' b' (replace_nth i c' (threads p)))
      end
  end.

Inductive action : Type :=
| Request            (* the interactive thread calls QtConcurrent::run *)
| Run (i : nat).     (* pool thread i is scheduled *)

Definition act (a : action) (p : pool) : option pool :=
  match a with
  | Request => Some (spawn p)
  | Run i => fire i p
  end.

(** A schedule is a list of actions; it is feasible when each can be taken. *)
Fixpoint run (schedule : list action) (p : pool) : option pool :=
  match schedule with
  | [] => Some p
  | a :: rest =>
      match act a p with
      | None => None
      | Some p' => run rest p'
      end
  end.

(** Number of threads at position [c]. *)
Definition cnt (c : pc) (l : list pc) : nat := length (filter (pc_eqb c) l).

Definition count (c : pc) (p : pool) : nat := cnt c (threads p).


(** No thread can move. *)
Definition quiescent (p : pool) : Prop := forall i, fire i p = None.

(** One redraw is running and [n] requests have just been issued. *)
Definition one_running (n : nat) : pool :=
  mkPool false true (Drawing :: repeat AtTryLock n).



Definition one_if (b : bool) : nat := if b then 1 else 0.

(** Each mutex is held by exactly the threads whose position says so. *)
Definition locks_consistent (p : pool) : Prop :=
  (count AtLockGuard p + count AtUnlockQueued p = one_if (backbuffer_queued_mutex p))%nat
  /\ (count AtUnlockQueued p + count Drawing p = one_if (backbuffer_mutex p))%nat.

(** Actions the threads past [try_lock] still have to take. *)
Definition remaining (p : pool) : nat :=
  (3 * count AtLockGuard p + 2 * count AtUnlockQueued p + count Drawing p)%nat.


(** After the first redraw's requests have all gone through [try_lock]:
    the locks are consistent, no thread is at [try_lock], [n - 1] threads
    were turned away. *)
Definition draining (n : nat) (p : pool) : Prop :=
  locks_consistent p /\ count AtTryLock p = O
  /\ count Skipped p = (n - 1)%nat /\ length (threads p) = S n.

End Worker.

(* ===================================================================== *)
(** ** The timer driving an animation                                     *)
(* ===================================================================== *)

Section Timer.

Variable toPixelPoint : QPointF -> Z -> QPointF.
Variable toCoordinatePoint : QPointF -> Z -> QPointF.

Definition is_tick (e : Effect) : bool :=
  match e with SingleShotAnimatedTick _ => true | _ => false end.

(** Number of [QTimer::singleShot(..., SLOT(animatedTick()))] calls in a log. *)
Definition scheduled_ticks (es : list Effect) : nat := length (filter is_tick es).

(** The event loop delivers pending timer shots, one call of [animatedTick]
    each; a call may schedule further shots.  Returns the object and the
    number of shots still pending when the fuel is used up. *)
Fixpoint deliver_ticks (fuel pending : nat) (s : QMapControl) : QMapControl * nat :=
  match fuel, pending with
  | S fuel', S pending' =>
      let '(_, s', es) := animatedTick toPixelPoint toCoordinatePoint s in
      deliver_ticks fuel' (pending' + scheduled_ticks es) s'
  | _, _ => (s, pending)
  end.

End Timer.

(* ===================================================================== *)
(** ** Concrete controls for examples                                     *)
(* ===================================================================== *)

Module Scenario.

Module LP := LinearProjection.

Definition viewport_400 : QSizeF := mkSize (Fin 400) (Fin 400).

Definition fresh : QMapControl := constructed viewport_400.

(** A control whose pan is limited to the coordinates (0,0) .. (10,10). *)
Definition limited : QMapControl :=
  exec (setLimitedViewportRect (mkPoint (Fin 0) (Fin 0)) (mkPoint (Fin 10) (Fin 10)))
    fresh.

Definition outside : QPointF := mkPoint (Fin 20) (Fin 20).

(** The control at its maximum zoom. *)
Definition at_maximum : QMapControl := exec (setZoom LP.toPixelPoint 17) fresh.

Definition two_points : list QPointF :=
  [mkPoint (Fin 0) (Fin 0); mkPoint (Fin 10) (Fin 10)].


(** An animation towards (8,8) in five steps of 100 ms. *)
Definition animating : QMapControl :=
  exec (setMapFocusPointAnimated (mkPoint (Fin 8) (Fin 8)) 5 100) fresh.

End Scenario.

(* ===================================================================== *)
(** ** Reference definitions used in statements                           *)
(* ===================================================================== *)



Definition finite_point (p : QPointF) : Prop :=
  is_finite (pt_x p) = true /\ is_finite (pt_y p) = true.

(** The zoom invariant of the viewport state. *)
Definition zoom_in_range (s : QMapControl) : Prop :=
  (m_zoom_minimum s <= m_current_zoom s <= m_zoom_maximum s)%Z.

(** The target [setZoom] clamps its argument to. *)
Definition clamped (zoom : Z) (s : QMapControl) : Z :=
  if (zoom <? m_zoom_minimum s)%Z then m_zoom_minimum s
  else if (zoom >? m_zoom_maximum s)%Z then m_zoom_maximum s
  else zoom.

(** The animation fields of the object. *)
Definition animation_of (s : QMapControl) : QPointF * Z * Z * bool :=
  (m_animated_map_focus_point s, m_animated_steps s, m_animated_interval s,
   m_animated_mutex s).

(* ===================================================================== *)
(** ** Further notions: effect counts, pan limit, operations              *)
(* ===================================================================== *)

Definition is_redraw_request (e : Effect) : bool :=
  match e with RunRedrawBackbuffer => true | _ => false end.

Definition is_abort (e : Effect) : bool :=
  match e with AbortLoading => true | _ => false end.

(** Number of [QtConcurrent::run(this, &QMapControl::redrawBackbuffer)] calls
    and of [abortLoading()] calls in a log. *)
Definition redraw_requests (es : list Effect) : nat :=
  length (filter is_redraw_request es).

Definition aborts (es : list Effect) : nat := length (filter is_abort es).

(** The focus lies in the limited viewport rectangle. *)
Definition focus_inside_limit (s : QMapControl) : Prop :=
  Qt.contains_point (m_limited_viewport_rect_coord s) (m_map_focus_coord s) = true.

(** What a scroll or an animation tick never touches. *)
Definition view_settings (s : QMapControl)
  : QSizeF * QPointF * QRectF * (Z * Z * Z) :=
  (m_viewport_size_px s, m_viewport_center_px s, m_limited_viewport_rect_coord s,
   (m_zoom_minimum s, m_zoom_maximum s, m_current_zoom s)).

Section Operations.

Variable toPixelPoint : QPointF -> Z -> QPointF.
Variable toCoordinatePoint : QPointF -> Z -> QPointF.

(** The member functions that do not set a zoom bound, as requests to the
    control. *)
Inductive Operation : Type :=
| OpZoomIn
| OpZoomOut
| OpSetZoom (zoom : Z)
| OpSetMapFocusPoint (point_coord : QPointF)
| OpSetMapFocusPoints (points_coord : list QPointF) (auto_zoom : bool)
| OpSetMapFocusPointAnimated (coordinate : QPointF) (steps step_interval : Z)
| OpAnimatedTick
| OpScrollView (delta_px : QPointF)
| OpSetViewportSize (size_px : QSizeF)
| OpSetLimitedViewportRect (top_left_coord bottom_right_coord : QPointF)
| OpResetLimitedViewportRect
| OpRequestRedraw
| OpUpdatePrimaryScreen (backbuffer_rect_px : QRectF) (backbuffer_map_focus_px : QPointF).

Definition perform (op : Operation) : M unit :=
  match op with
  | OpZoomIn => zoomIn toPixelPoint
  | OpZoomOut => zoomOut toPixelPoint
  | OpSetZoom zoom => setZoom toPixelPoint zoom
  | OpSetMapFocusPoint p => setMapFocusPoint toPixelPoint p
  | OpSetMapFocusPoints pts auto_zoom =>
      setMapFocusPoints toPixelPoint toCoordinatePoint pts auto_zoom
  | OpSetMapFocusPointAnimated c steps step_interval =>
      setMapFocusPointAnimated c steps step_interval
  | OpAnimatedTick => animatedTick toPixelPoint toCoordinatePoint
  | OpScrollView d => scrollView toPixelPoint toCoordinatePoint d
  | OpSetViewportSize size_px => setViewportSize toPixelPoint size_px
  | OpSetLimitedViewportRect tl br => setLimitedViewportRect tl br
  | OpResetLimitedViewportRect => resetLimitedViewportRect
  | OpRequestRedraw => requestRedraw toPixelPoint
  | OpUpdatePrimaryScreen r f => updatePrimaryScreen r f
  end.

Fixpoint perform_all (ops : list Operation) : M unit :=
  match ops with
  | [] => ret tt
  | op :: rest => perform op ;; perform_all rest
  end.

End Operations.

(** The zoom bounds are those of [s] and the zoom of [s'] lies between the
    zoom of [s] and the bounds. *)
Definition zoom_moves_within (s s' : QMapControl) : Prop :=
  m_zoom_minimum s' = m_zoom_minimum s
  /\ m_zoom_maximum s' = m_zoom_maximum s
  /\ (Z.min (m_current_zoom s) (m_zoom_minimum s) <= m_current_zoom s'
      <= Z.max (m_current_zoom s) (m_zoom_maximum s))%Z.

(* ===================================================================== *)
(** ** Geometry visibility and the bounding box of a line string          *)
(* ===================================================================== *)

(** [>=] on doubles: false when an operand is NaN. *)
Definition dbl_geb (a b : double) : bool :=
  match a, b with
  | Fin x, Fin y => Qle_bool y x
  | _, _ => false
  end.

(** [QRectF::intersects] and [QPolygonF::boundingRect], after qrect.cpp and
    qpolygon.cpp of Qt 5. *)
Module QtGeometry.

(** One axis of [QRectF::intersects(const QRectF &)]. *)
Definition axis_intersects (p1 w1 p2 w2 : double) : bool :=
  let (l1, r1) := Qt.span p1 w1 in
  if (l1 =? r1)%dbl then false
  else
    let (l2, r2) := Qt.span p2 w2 in
    if (l2 =? r2)%dbl then false
    else if dbl_geb l1 r2 || dbl_geb l2 r1 then false
    else true.

Definition intersects (r1 r2 : QRectF) : bool :=
  if axis_intersects (xp r1) (rw r1) (xp r2) (rw r2)
  then axis_intersects (yp r1) (rh r1) (yp r2) (rh r2)
  else false.

(** One coordinate of one iteration of the loop of [boundingRect]:
    [if (v < lo) lo = v; else if (v > hi) hi = v;]. *)
Definition stretch (v : double) (lo_hi : double * double) : double * double :=
  let (lo, hi) := lo_hi in
  if (v <? lo)%dbl then (v, hi)
  else if (v >? hi)%dbl then (lo, v)
  else (lo, hi).

Fixpoint bounds_loop (pts : list QPointF) (bx bys : double * double)
  : (double * double) * (double * double) :=
  match pts with
  | [] => (bx, bys)
  | p :: rest => bounds_loop rest (stretch (pt_x p) bx) (stretch (pt_y p) bys)
  end.

Definition boundingRect (polygon : list QPointF) : QRectF :=
  match polygon with
  | [] => mkRect zero zero zero zero
  | p :: rest =>
      let '((minx, maxx), (miny, maxy)) :=
        bounds_loop rest (pt_x p, pt_x p) (pt_y p, pt_y p) in
      mkRect minx miny (maxx - minx)%dbl (maxy - miny)%dbl
  end.

End QtGeometry.

Section GeometryVisibility.

Variable toPixelPoint : QPointF -> Z -> QPointF.
Variable toCoordinatePoint : QPointF -> Z -> QPointF.

(** A geometry and its virtual [boundingBox(zoom)]. *)
Variable AnyGeometry : Type.
Variable boundingBox : AnyGeometry -> Z -> QRectF.

(** [geometry] is [None] for a null pointer. *)
Definition isGeometryVisible (s : QMapControl) (geometry : option AnyGeometry)
    (partial : bool) : bool :=
  let return_visible := false in
  match geometry with
  | Some g =>
      if Qt.isValid (getViewportRect toPixelPoint toCoordinatePoint s) then
        if partial
        then QtGeometry.intersects (getViewportRect toPixelPoint toCoordinatePoint s)
               (boundingBox g (m_current_zoom s))
        else Qt.contains_rect (getViewportRect toPixelPoint toCoordinatePoint s)
               (boundingBox g (m_current_zoom s))
      else return_visible
  | None => return_visible
  end.

End GeometryVisibility.

Section LineStringBox.

Variable GeometryPoint : Type.
Variable Geometry : Type.

(** [GeometryPoint::coordinate()]. *)
Variable coordinate : GeometryPoint -> QPointF.

(** [GeometryLineString::boundingBox]; the zoom is not used. *)
Definition lineString_boundingBox (g : GeometryLineString GeometryPoint Geometry)
    (controller_zoom : Z) : QRectF :=
  QtGeometry.boundingRect (map coordinate (m_points g)).

End LineStringBox.

(** All four numbers of a rectangle are finite. *)
Definition finite_rect (r : QRectF) : Prop :=
  is_finite (xp r) = true /\ is_finite (yp r) = true
  /\ is_finite (rw r) = true /\ is_finite (rh r) = true.

(** A double that is the number [q]. *)
Definition is_number (q : Q) (d : double) : Prop := Dbl.same d (Fin q).

(* ===================================================================== *)
(** ** The widget: layers, mouse and wheel                                *)
(* ===================================================================== *)

From Stdlib Require String.

(** [QMapControl::MouseButtonMode]. *)
Inductive MouseButtonMode : Type :=
| ModeNone
| Pan
| DrawBox | PanBox | SelectBox
| DrawLine | PanLine | SelectLine
| DrawEllipse | PanEllipse | SelectEllipse.

Definition is_pan_shape (m : MouseButtonMode) : bool :=
  match m with PanBox | PanLine | PanEllipse => true | _ => false end.

Definition is_select_shape (m : MouseButtonMode) : bool :=
  match m with SelectBox | SelectLine | SelectEllipse => true | _ => false end.

(** [Qt::MouseButton] as far as the handlers look at it. *)
Inductive MouseButton : Type := LeftButton | RightButton | OtherButton.

(** The [QGraphicsItem] built for a selection. *)
Inductive SelectionArea : Type :=
| RectItem (rect : QRectF)
| LineItem (x1 y1 x2 y2 : double) (pen_width : double)
| EllipseItem (rect : QRectF).

Section Widget.

Variable toPixelPoint : QPointF -> Z -> QPointF.
Variable toCoordinatePoint : QPointF -> Z -> QPointF.

(** A [Layer] value stands for the address a [std::shared_ptr<Layer>] holds:
    equality of values is equality of pointers.  [Layer::getName],
    [Layer::isVisible], [Layer::getGeometries] and [Geometry::touches] are not
    in the source files. *)
Variable Layer : Type.
Variable Layer_eq_dec : forall a b : Layer, {a = b} + {a <> b}.
Variable getName : Layer -> String.string.
Variable layer_isVisible : Layer -> Z -> bool.
Variable SharedGeometry : Type.
Variable getGeometries : Layer -> QRectF -> list SharedGeometry.
Variable geometry_touches : SharedGeometry -> SelectionArea -> Z -> bool.

(** The viewport state together with the members the layer and input
    handlers use. *)
Record MapWidget : Type := mkWidget {
  control : QMapControl;
  m_layers : list Layer;
  m_mouse_events_enabled : bool;
  m_mouse_left_pressed : bool;
  m_mouse_left_mode : MouseButtonMode;
  m_mouse_left_origin_center : bool;
  m_mouse_right_pressed : bool;
  m_mouse_right_mode : MouseButtonMode;
  m_mouse_right_origin_center : bool;
  m_mouse_position_pressed_px : QPointF;
  m_mouse_position_current_px : QPointF;
  m_primary_screen_scaled_offset : QPointF
}.

(** The signals of a layer the widget connects to. *)
Inductive LayerSignal : Type := LayerGeometryClicked | LayerRequestRedraw.

(** Calls and signals that leave the widget. *)
Inductive WidgetEffect : Type :=
| Core (e : Effect)
| ConnectLayer (layer : Layer) (signal : LayerSignal)
| DisconnectLayer (layer : Layer)
| LayerMouseEvent (layer : Layer) (map_point_px : QPointF) (zoom : Z)
| EmitMouseEventPressCoordinate (coord : QPointF)
| EmitMouseEventMoveCoordinate (coord : QPointF)
| EmitMouseEventReleaseCoordinate (coord : QPointF)
| EmitMouseDragged (rect_coord : QRectF)
| EmitGeometriesSelected (selected : list (String.string * list SharedGeometry))
| WheelAccept
| WheelIgnore
| KeyToQWidget.

Definition W (A : Type) : Type := MapWidget -> A * MapWidget * list WidgetEffect.

Definition wret {A} (a : A) : W A := fun w => (a, w, []).

Definition wbind {A B} (c : W A) (k : A -> W B) : W B :=
  fun w =>
    let '(a, w1, e1) := c w in
    let '(b, w2, e2) := k a w1 in
    (b, w2, e1 ++ e2).

Definition wget : W MapWidget := fun w => (w, w, []).
Definition wmodify (f : MapWidget -> MapWidget) : W unit := fun w => (tt, f w, []).
Definition wemit (e : WidgetEffect) : W unit := fun w => (tt, w, [e]).

Definition set_control (s : QMapControl) (w : MapWidget) : MapWidget :=
  mkWidget s (m_layers w) (m_mouse_events_enabled w) (m_mouse_left_pressed w)
    (m_mouse_left_mode w) (m_mouse_left_origin_center w) (m_mouse_right_pressed w)
    (m_mouse_right_mode w) (m_mouse_right_origin_center w)
    (m_mouse_position_pressed_px w) (m_mouse_position_current_px w)
    (m_primary_screen_scaled_offset w).

Definition set_layers (layers : list Layer) (w : MapWidget) : MapWidget :=
  mkWidget (control w) layers (m_mouse_events_enabled w) (m_mouse_left_pressed w)
    (m_mouse_left_mode w) (m_mouse_left_origin_center w) (m_mouse_right_pressed w)
    (m_mouse_right_mode w) (m_mouse_right_origin_center w)
    (m_mouse_position_pressed_px w) (m_mouse_position_current_px w)
    (m_primary_screen_scaled_offset w).

Definition set_mouse (left_pressed right_pressed : bool) (pressed_px current_px : QPointF)
    (w : MapWidget) : MapWidget :=
  mkWidget (control w) (m_layers w) (m_mouse_events_enabled w) left_pressed
    (m_mouse_left_mode w) (m_mouse_left_origin_center w) right_pressed
    (m_mouse_right_mode w) (m_mouse_right_origin_center w)
    pressed_px current_px (m_primary_screen_scaled_offset w).

Definition set_scaled_offset (offset : QPointF) (w : MapWidget) : MapWidget :=
  mkWidget (control w) (m_layers w) (m_mouse_events_enabled w) (m_mouse_left_pressed w)
    (m_mouse_left_mode w) (m_mouse_left_origin_center w) (m_mouse_right_pressed w)
    (m_mouse_right_mode w) (m_mouse_right_origin_center w)
    (m_mouse_position_pressed_px w) (m_mouse_position_current_px w) offset.

(** A member function of the viewport state, run inside the widget. *)
Definition lift {A} (c : M A) : W A :=
  fun w =>
    let '(a, s, es) := c (control w) in
    (a, set_control s w, map Core es).

Definition wexec {A} (c : W A) (w : MapWidget) : MapWidget := snd (fst (c w)).
Definition weffects {A} (c : W A) (w : MapWidget) : list WidgetEffect := snd (c w).
Definition wresult {A} (c : W A) (w : MapWidget) : A := fst (fst (c w)).

(** *** Layer management *)

Definition getLayers (w : MapWidget) : list Layer := m_layers w.

(** [std::find_if] by name: the first layer with that name, or null. *)
Definition getLayer (name : String.string) (w : MapWidget) : option Layer :=
  find (fun layer => String.eqb (getName layer) name) (getLayers w).

(** [std::find] followed by [erase]: drops the first element equal to
    [layer]; [None] when there is none. *)
Fixpoint erase_first (layer : Layer) (layers : list Layer) : option (list Layer) :=
  match layers with
  | [] => None
  | x :: rest =>
      if Layer_eq_dec x layer then Some rest
      else match erase_first layer rest with
           | Some rest' => Some (x :: rest')
           | None => None
           end
  end.

Definition removeLayer (name : String.string) : W unit :=
  wbind wget (fun w =>
  match getLayer name w with
  | Some layer =>
      match erase_first layer (m_layers w) with
      | Some layers' =>
          wbind (wemit (DisconnectLayer layer)) (fun _ =>
          wbind (wmodify (set_layers layers')) (fun _ =>
          lift (redrawPrimaryScreen toPixelPoint true)))
      | None => wret tt
      end
  | None => wret tt
  end).

(** [m_layers.insert(m_layers.begin() + index, layer)] for [0 <= index]
    within the vector. *)
Fixpoint insert_at (index : nat) (layer : Layer) (layers : list Layer) : list Layer :=
  match index, layers with
  | O, _ => layer :: layers
  | S i, x :: rest => x :: insert_at i layer rest
  | S _, [] => [layer]
  end.

(** [addLayer(layer, index)]; [layer] is [None] for a null pointer.  The
    result is [None] where the C++ code has no defined behaviour: an index
    below -1 makes [begin() + index] point before the vector. *)
Definition addLayer (layer : option Layer) (index : Z) (w : MapWidget)
  : option (unit * MapWidget * list WidgetEffect) :=
  match layer with
  | Some l =>
      let '(_, w1, e1) := removeLayer (getName l) w in
      let e2 := [ConnectLayer l LayerGeometryClicked; ConnectLayer l LayerRequestRedraw] in
      if (index =? -1)%Z || (index >=? Z.of_nat (length (m_layers w1)))%Z then
        let w2 := set_layers (m_layers w1 ++ [l]) w1 in
        let '(_, w3, e3) := lift (redrawPrimaryScreen toPixelPoint true) w2 in
        Some (tt, w3, e1 ++ e2 ++ e3)
      else if (index <? 0)%Z then None
      else
        let w2 := set_layers (insert_at (Z.to_nat index) l (m_layers w1)) w1 in
        let '(_, w3, e3) := lift (redrawPrimaryScreen toPixelPoint true) w2 in
        Some (tt, w3, e1 ++ e2 ++ e3)
  | None => Some (tt, w, [])
  end.

(** *** Selection *)

(** [selected_geometries[name].push_back(geometry)] on a [std::map], kept as
    an association list with one entry per key; the order of the keys is not
    modelled. *)
Fixpoint push_back_at (name : String.string) (g : SharedGeometry)
    (m : list (String.string * list SharedGeometry))
  : list (String.string * list SharedGeometry) :=
  match m with
  | [] => [(name, [g])]
  | (k, v) :: rest =>
      if String.eqb k name then (k, v ++ [g]) :: rest
      else (k, v) :: push_back_at name g rest
  end.

Fixpoint lookup (name : String.string) (m : list (String.string * list SharedGeometry))
  : option (list SharedGeometry) :=
  match m with
  | [] => None
  | (k, v) :: rest => if String.eqb k name then Some v else lookup name rest
  end.

(** The inner loop: the geometries of one layer that touch the area. *)
Definition select_in_layer (area_px : SelectionArea) (zoom : Z) (name : String.string)
    (geometries : list SharedGeometry)
    (selected : list (String.string * list SharedGeometry))
  : list (String.string * list SharedGeometry) :=
  fold_left
    (fun m geometry =>
       if geometry_touches geometry area_px zoom then push_back_at name geometry m else m)
    geometries selected.

(** The loop over the layers of [mouseReleaseEvent] in a select mode. *)
Definition select_geometries (area_px : SelectionArea) (rect_coord : QRectF) (zoom : Z)
    (layers : list Layer) : list (String.string * list SharedGeometry) :=
  fold_left
    (fun m layer =>
       if layer_isVisible layer zoom
       then select_in_layer area_px zoom (getName layer)
              (getGeometries layer rect_coord) m
       else m)
    layers [].

(** *** Mouse, wheel and keyboard *)

Definition toPointPx_w (w : MapWidget) (p : QPointF) : QPointF :=
  toPointPx toPixelPoint (control w) p.

Definition toPointCoord_w (w : MapWidget) (p : QPointF) : QPointF :=
  toPointCoord toPixelPoint toCoordinatePoint (control w) p.

(** [QRectF(toPointCoord(pressed), toPointCoord(current))], the argument of
    [mouseDragged]. *)
Definition dragged_rect (w : MapWidget) : QRectF :=
  Qt.rect_of_corners (toPointCoord_w w (m_mouse_position_pressed_px w))
    (toPointCoord_w w (m_mouse_position_current_px w)).

Definition mousePressEvent (button : MouseButton) (localPos : QPointF) : W unit :=
  fun w =>
    let to_layers :=
      map (fun layer => LayerMouseEvent layer (toPointPx_w w localPos)
                          (m_current_zoom (control w))) (getLayers w) in
    if m_mouse_events_enabled w then
      let w1 :=
        set_mouse
          (match button with LeftButton => true | _ => m_mouse_left_pressed w end)
          (match button with RightButton => true | _ => m_mouse_right_pressed w end)
          localPos localPos w in
      (tt, w1, to_layers ++ [EmitMouseEventPressCoordinate (toPointCoord_w w1 localPos)])
    else (tt, w, to_layers).

(** [left_down] and [right_down]: the bits of [mouse_event->buttons()]. *)
Definition mouseMoveEvent (left_down right_down : bool) (localPos : QPointF) : W unit :=
  wbind wget (fun w =>
  if m_mouse_events_enabled w then
    let mouse_mode :=
      if left_down then m_mouse_left_mode w
      else if right_down then m_mouse_right_mode w
      else ModeNone in
    wbind (wmodify (set_mouse (m_mouse_left_pressed w) (m_mouse_right_pressed w)
                      (m_mouse_position_pressed_px w) localPos)) (fun _ =>
    wbind (match mouse_mode with
           | Pan =>
               wbind (lift (scrollView toPixelPoint toCoordinatePoint
                              (Qt.pt_sub (m_mouse_position_pressed_px w) localPos)))
                 (fun _ =>
               wmodify (fun w => set_mouse (m_mouse_left_pressed w)
                                   (m_mouse_right_pressed w) localPos
                                   (m_mouse_position_current_px w) w))
           | _ => wret tt
           end) (fun _ =>
    wbind (wemit (Core WidgetUpdate)) (fun _ =>
    wbind wget (fun w =>
    wemit (EmitMouseEventMoveCoordinate (toPointCoord_w w localPos))))))
  else wret tt).

(** The selection area for the two corners, by mode; the line gets a pen of
    width 5. *)
Definition selection_area (mouse_mode : MouseButtonMode)
    (top_left_px bottom_right_px : QPointF) : SelectionArea :=
  match mouse_mode with
  | SelectLine =>
      LineItem (pt_x top_left_px) (pt_y top_left_px)
        (pt_x bottom_right_px) (pt_y bottom_right_px) (Fin 5)
  | SelectEllipse => EllipseItem (Qt.rect_of_corners top_left_px bottom_right_px)
  | _ => RectItem (Qt.rect_of_corners top_left_px bottom_right_px)
  end.

(** The two viewport points a released drag spans: pressed and current, or
    pressed minus and plus their difference when the origin is the centre. *)
Definition drag_corners (origin_center : bool) (w : MapWidget) : QPointF * QPointF :=
  if origin_center then
    let mouse_diff :=
      Qt.pt_sub (m_mouse_position_pressed_px w) (m_mouse_position_current_px w) in
    (Qt.pt_sub (m_mouse_position_pressed_px w) mouse_diff,
     Qt.pt_add (m_mouse_position_pressed_px w) mouse_diff)
  else (m_mouse_position_pressed_px w, m_mouse_position_current_px w).

Definition mouseReleaseEvent (button : MouseButton) (localPos : QPointF) : W unit :=
  wbind wget (fun w =>
  if m_mouse_events_enabled w then
    let mouse_mode :=
      match button with
      | LeftButton => m_mouse_left_mode w
      | RightButton => m_mouse_right_mode w
      | OtherButton => ModeNone
      end in
    let origin_center :=
      match button with
      | LeftButton => m_mouse_left_origin_center w
      | RightButton => m_mouse_right_origin_center w
      | OtherButton => false
      end in
    wbind (wmodify (set_mouse
                      (match button with LeftButton => false
                                    | _ => m_mouse_left_pressed w end)
                      (match button with RightButton => false
                                    | _ => m_mouse_right_pressed w end)
                      (m_mouse_position_pressed_px w) (m_mouse_position_current_px w)))
      (fun _ =>
    wbind (if is_pan_shape mouse_mode then
             let '(p1, p2) := drag_corners origin_center w in
             let coords := [toPointCoord_w w p1; toPointCoord_w w p2] in
             wbind (lift (setMapFocusPoints toPixelPoint toCoordinatePoint coords true))
               (fun _ =>
             wbind wget (fun w => wemit (EmitMouseDragged (dragged_rect w))))
           else if is_select_shape mouse_mode then
             let '(p1, p2) := drag_corners origin_center w in
             let top_left_px := toPointPx_w w p1 in
             let bottom_right_px := toPointPx_w w p2 in
             let area_px := selection_area mouse_mode top_left_px bottom_right_px in
             let zoom := m_current_zoom (control w) in
             let selected :=
               select_geometries area_px
                 (Qt.rect_of_corners (toCoordinatePoint top_left_px zoom)
                    (toCoordinatePoint bottom_right_px zoom))
                 zoom (getLayers w) in
             wbind (wemit (EmitGeometriesSelected selected)) (fun _ =>
             wemit (EmitMouseDragged (dragged_rect w)))
           else wret tt) (fun _ =>
    wbind (wemit (Core WidgetUpdate)) (fun _ =>
    wbind wget (fun w =>
    wemit (EmitMouseEventReleaseCoordinate (toPointCoord_w w localPos))))))
  else wret tt).

(** One direction of [wheelEvent], with the zoom step to take. *)
Definition wheel_zoom (step : M unit) (posF : QPointF) : W unit :=
  wbind wget (fun w =>
  let wheel_coord := toPointCoord_w w posF in
  let wheel_delta :=
    Qt.pt_sub (mapFocusPointPx toPixelPoint (control w)) (toPointPx_w w posF) in
  wbind (wmodify (set_scaled_offset wheel_delta)) (fun _ =>
  wbind (lift step) (fun _ =>
  wbind wget (fun w =>
  let zoom := m_current_zoom (control w) in
  wbind (lift (setMapFocusPoint toPixelPoint
                 (toCoordinatePoint
                    (Qt.pt_add (toPixelPoint wheel_coord zoom) wheel_delta) zoom)))
    (fun _ =>
  wemit WheelAccept))))).

(** [angle_delta_y] is [wheel_event->angleDelta().y()]. *)
Definition wheelEvent (angle_delta_y : Z) (posF : QPointF) : W unit :=
  wbind wget (fun w =>
  if m_mouse_events_enabled w then
    if (angle_delta_y >? 0)%Z then
      if (m_current_zoom (control w) <? m_zoom_maximum (control w))%Z
      then wheel_zoom (zoomIn toPixelPoint) posF
      else wemit WheelIgnore
    else if (angle_delta_y <? 0)%Z then
      if (m_current_zoom (control w) >? m_zoom_minimum (control w))%Z
      then wheel_zoom (zoomOut toPixelPoint) posF
      else wemit WheelIgnore
    else wret tt
  else wemit WheelIgnore).

(** [Qt::Key] as far as [keyPressEvent] looks at it. *)
Inductive Key : Type :=
| Key_Up | Key_Down | Key_Left | Key_Right | Key_Plus | Key_Minus | Key_Other.

(** The default argument of the four [scrollView...] functions is declared
    in the header, which is not among the source files. *)
Variable default_delta_px : double.

Definition keyPressEvent (key : Key) : W unit :=
  match key with
  | Key_Up => lift (scrollViewUp toPixelPoint toCoordinatePoint default_delta_px)
  | Key_Down => lift (scrollViewDown toPixelPoint toCoordinatePoint default_delta_px)
  | Key_Left => lift (scrollViewLeft toPixelPoint toCoordinatePoint default_delta_px)
  | Key_Right => lift (scrollViewRight toPixelPoint toCoordinatePoint default_delta_px)
  | Key_Plus => lift (zoomIn toPixelPoint)
  | Key_Minus => lift (zoomOut toPixelPoint)
  | Key_Other => wemit KeyToQWidget
  end.

(** The events Qt delivers to the widget's handlers. *)
Inductive InputEvent : Type :=
| MousePress (button : MouseButton) (localPos : QPointF)
| MouseRelease (button : MouseButton) (localPos : QPointF)
| MouseMove (left_down right_down : bool) (localPos : QPointF)
| Wheel (angle_delta_y : Z) (posF : QPointF)
| KeyPress (key : Key).

Definition handle (event : InputEvent) : W unit :=
  match event with
  | MousePress button localPos => mousePressEvent button localPos
  | MouseRelease button localPos => mouseReleaseEvent button localPos
  | MouseMove left_down right_down localPos => mouseMoveEvent left_down right_down localPos
  | Wheel angle_delta_y posF => wheelEvent angle_delta_y posF
  | KeyPress key => keyPressEvent key
  end.

Fixpoint handle_all (events : list InputEvent) : W unit :=
  match events with
  | [] => wret tt
  | event :: rest => wbind (handle event) (fun _ => handle_all rest)
  end.

End Widget.

Section LayerNotions.

Variable Layer : Type.
Variable getName : Layer -> String.string.

(** The names of the layers, in order. *)
Definition layer_names (layers : list Layer) : list String.string := map getName layers.

(** The layers not called [name]. *)
Definition without (name : String.string) (layers : list Layer) : list Layer :=
  filter (fun layer => negb (String.eqb (getName layer) name)) layers.

(** Where [addLayer] puts a layer in a vector of [n] layers. *)
Definition insert_position (index : Z) (n : nat) : nat :=
  if (index =? -1)%Z || (index >=? Z.of_nat n)%Z then n else Z.to_nat index.

End LayerNotions.

(** The layers are those of [w] and the zoom has moved within the bounds. *)
Definition layers_and_bounds_kept (Layer : Type) (w w' : MapWidget Layer) : Prop :=
  m_layers Layer w' = m_layers Layer w
  /\ zoom_moves_within (control Layer w) (control Layer w').


(** The events whose handlers move the focus through [scrollView] only: a
    wheel event and the release of a pan box call [setMapFocusPoint]. *)
Definition scrolls_only (event : InputEvent) : bool :=
  match event with
  | MousePress _ _ | MouseMove _ _ _ | KeyPress _ => true
  | MouseRelease _ _ | Wheel _ _ => false
  end.

(* ===================================================================== *)
(** ** Further concrete inputs                                            *)
(* ===================================================================== *)

Module Examples.

Import Scenario.
Import String.
Local Open Scope string_scope.

(** The limited control with the focus at (5,5), inside the limit. *)
Definition limited_inside : QMapControl :=
  exec (setMapFocusPoint LP.toPixelPoint (mkPoint (Fin 5) (Fin 5))) limited.

(** The control at zoom 15. *)
Definition at_15 : QMapControl := exec (setZoom LP.toPixelPoint 15) fresh.

Definition one_point : list QPointF := [mkPoint (Fin 0) (Fin 0)].


(** A geometry that is its own bounding box. *)
Definition box_geometry : QRectF := mkRect (Fin 0) (Fin 0) (Fin 10) (Fin 10).

Definition box_boundingBox (g : QRectF) (zoom : Z) : QRectF := g.

(** A vertical line string and a slanted one; a point is its coordinate. *)
Definition vertical_line : GeometryLineString QPointF unit :=
  mkLineString tt [mkPoint (Fin 3) (Fin 0); mkPoint (Fin 3) (Fin 7)] [].


Definition point_coordinate (p : QPointF) : QPointF := p.

(** Layers: an address and a name. *)
Definition SampleLayer : Type := nat * String.string.

Definition sample_layer_eq_dec (a b : SampleLayer) : {a = b} + {a <> b}.
Proof. decide equality; [apply String.string_dec | apply Nat.eq_dec]. Defined.

Definition sample_name (layer : SampleLayer) : String.string := snd layer.

Definition streets : SampleLayer := (1%nat, "streets").
Definition labels : SampleLayer := (2%nat, "labels").
Definition new_labels : SampleLayer := (3%nat, "labels").

(** A widget with two layers, mouse events enabled and the left button in
    [Pan] mode and the right button in [DrawBox] mode, as the constructor
    sets them. *)
Definition sample_widget : MapWidget SampleLayer :=
  mkWidget SampleLayer fresh [streets; labels] true false Pan false false DrawBox false
    (mkPoint zero zero) (mkPoint zero zero) (mkPoint zero zero).

Definition disabled_widget : MapWidget SampleLayer :=
  mkWidget SampleLayer fresh [streets; labels] false false Pan false false DrawBox false
    (mkPoint zero zero) (mkPoint zero zero) (mkPoint zero zero).

Definition limited_widget : MapWidget SampleLayer :=
  set_control SampleLayer limited_inside sample_widget.

(** [addLayer(new_labels, 0)] on the sample widget. *)
Definition relabel_run
  : option (unit * MapWidget SampleLayer * list (WidgetEffect SampleLayer nat)) :=
  addLayer LP.toPixelPoint SampleLayer sample_layer_eq_dec sample_name nat
    (Some new_labels) 0 sample_widget.

Definition relabelled : MapWidget SampleLayer :=
  match relabel_run with
  | Some (_, w, _) => w
  | None => sample_widget
  end.

Definition relabel_effects : list (WidgetEffect SampleLayer nat) :=
  match relabel_run with
  | Some (_, _, e) => e
  | None => []
  end.

(** A press, a drag and an arrow key. *)
Definition drag_and_key : list InputEvent :=
  [MousePress LeftButton (mkPoint (Fin 10) (Fin 10));
   MouseMove true false (mkPoint (Fin 30) (Fin 20));
   KeyPress Key_Up].

End Examples.
(* ===================================================================== *)
(** ** Proof tools                                                        *)
(* ===================================================================== *)

Ltac unfold_monad :=
  unfold exec, effects, result, when, bind, ret, get, modify, emit in *.

Ltac run_monad := unfold_monad; cbn in *.

(** *** Doubles *)

Lemma same_refl (a : double) : Dbl.same a a.
Proof. destruct a; simpl; [reflexivity | exact I]. Qed.



Lemma add_same (a a' b b' : double) :
  Dbl.same a a' -> Dbl.same b b' -> Dbl.same (a + b)%dbl (a' + b')%dbl.
Proof.
  destruct a, a', b, b'; simpl; auto; try contradiction.
  intros H1 H2; rewrite H1, H2; reflexivity.
Qed.




(** *** The accumulation loop of calculateMapFocusPoint *)






(* ===================================================================== *)
(** ** Coordinate transform and focus mean                                *)
(* ===================================================================== *)







Section TransformProofs.

Variable toPixelPoint : QPointF -> Z -> QPointF.
Variable toCoordinatePoint : QPointF -> Z -> QPointF.

(** C6. The viewport-to-map-pixel conversion of a point [p] is
    [p - viewportCenter + focusMapPixel], componentwise and in that order;
    the one-argument overload takes for [focusMapPixel] the current focus
    coordinate projected at the current zoom, the two-argument overload the
    reference focus it is given. *)
Theorem toPointPx_is_offset_from_focus (s : QMapControl) (p ref : QPointF) :
  let center := m_viewport_center_px s in
  let focus_px := toPixelPoint (m_map_focus_coord s) (m_current_zoom s) in
  toPointPx toPixelPoint s p
  = mkPoint (pt_x p - pt_x center + pt_x focus_px)%dbl
            (pt_y p - pt_y center + pt_y focus_px)%dbl
  /\ toPointPx_at s p ref
     = mkPoint (pt_x p - pt_x center + pt_x ref)%dbl
               (pt_y p - pt_y center + pt_y ref)%dbl
  /\ toPointCoord toPixelPoint toCoordinatePoint s p
     = toCoordinatePoint (toPointPx toPixelPoint s p) (m_current_zoom s).
Proof.
  cbv zeta. unfold toPointPx, toPointCoord, toPointPx_at, mapFocusPointPx.
  unfold Qt.pt_add, Qt.pt_sub. cbn [pt_x pt_y]. repeat split.
Qed.

(** With finite coordinates the centre of the viewport is converted to the
    reference focus itself. *)
Lemma toPointPx_center (s : QMapControl) (ref : QPointF) :
  finite_point (m_viewport_center_px s) -> finite_point ref ->
  Dbl.same (pt_x (toPointPx_at s (m_viewport_center_px s) ref)) (pt_x ref)
  /\ Dbl.same (pt_y (toPointPx_at s (m_viewport_center_px s) ref)) (pt_y ref).
Proof.
  intros [Hcx Hcy] [Hrx Hry]. unfold toPointPx_at, Qt.pt_add, Qt.pt_sub.
  cbn [pt_x pt_y].
  destruct (pt_x (m_viewport_center_px s)), (pt_y (m_viewport_center_px s)),
    (pt_x ref), (pt_y ref); try discriminate.
  cbn. split; ring.
Qed.

End TransformProofs.

(* ===================================================================== *)
(** ** Running member functions                                           *)
(* ===================================================================== *)

Lemma exec_bind {A B} (c : M A) (k : A -> M B) (s : QMapControl) :
  exec (bind c k) s = exec (k (result c s)) (exec c s).
Proof.
  unfold exec, result, bind. destruct (c s) as [[a s1] e1]; simpl.
  destruct (k a s1) as [[b s2] e2]; reflexivity.
Qed.

Lemma effects_bind {A B} (c : M A) (k : A -> M B) (s : QMapControl) :
  effects (bind c k) s = effects c s ++ effects (k (result c s)) (exec c s).
Proof.
  unfold effects, exec, result, bind. destruct (c s) as [[a s1] e1]; simpl.
  destruct (k a s1) as [[b s2] e2]; reflexivity.
Qed.

Lemma run_eta {A} (c : M A) (s : QMapControl) :
  c s = (result c s, exec c s, effects c s).
Proof. unfold result, exec, effects. destruct (c s) as [[a s1] e1]; reflexivity. Qed.

Lemma set_current_zoom_same (s : QMapControl) :
  set_current_zoom (m_current_zoom s) s = s.
Proof. destruct s; reflexivity. Qed.

Lemma set_current_zoom_twice (a b : Z) (s : QMapControl) :
  set_current_zoom a (set_current_zoom b s) = set_current_zoom a s.
Proof. reflexivity. Qed.

Section ZoomProofs.

Variable toPixelPoint : QPointF -> Z -> QPointF.

Abbreviation zoomIn' := (zoomIn toPixelPoint).
Abbreviation zoomOut' := (zoomOut toPixelPoint).
Abbreviation setZoom' := (setZoom toPixelPoint).
Abbreviation checkZoom' := (checkZoom toPixelPoint).
Abbreviation setZoomMinimum' := (setZoomMinimum toPixelPoint).
Abbreviation setZoomMaximum' := (setZoomMaximum toPixelPoint).

Lemma redrawPrimaryScreen_exec (force : bool) (s : QMapControl) :
  exec (redrawPrimaryScreen toPixelPoint force) s = s.
Proof.
  unfold redrawPrimaryScreen. run_monad.
  destruct (force || checkBackbuffer toPixelPoint s); reflexivity.
Qed.

Lemma zoomIn_exec (s : QMapControl) :
  exec zoomIn' s
  = if (m_current_zoom s <? m_zoom_maximum s)%Z
    then set_current_zoom (m_current_zoom s + 1) s else s.
Proof.
  unfold zoomIn, redrawPrimaryScreen, updateControls. run_monad.
  destruct (m_current_zoom s <? m_zoom_maximum s)%Z; [|reflexivity].
  destruct (m_primary_screen_scaled_enabled s); reflexivity.
Qed.

Lemma zoomOut_exec (s : QMapControl) :
  exec zoomOut' s
  = if (m_current_zoom s >? m_zoom_minimum s)%Z
    then set_current_zoom (m_current_zoom s - 1) s else s.
Proof.
  unfold zoomOut, redrawPrimaryScreen, updateControls. run_monad.
  destruct (m_current_zoom s >? m_zoom_minimum s)%Z; [|reflexivity].
  destruct (m_primary_screen_scaled_enabled s); reflexivity.
Qed.

(** [n] calls of [zoomIn'] climb to the maximum at most. *)
Lemma repeat_zoomIn_exec (n : nat) (s : QMapControl) :
  exec (repeatM n zoomIn') s
  = set_current_zoom
      (Z.max (m_current_zoom s) (Z.min (m_current_zoom s + Z.of_nat n) (m_zoom_maximum s))) s.
Proof.
  revert s; induction n as [|n IH]; intro s.
  - simpl. unfold exec, ret; simpl.
    replace (Z.max _ _) with (m_current_zoom s) by lia.
    symmetry; apply set_current_zoom_same.
  - cbn [repeatM]. rewrite exec_bind, IH, zoomIn_exec.
    destruct (Z.ltb_spec (m_current_zoom s) (m_zoom_maximum s)).
    + rewrite set_current_zoom_twice. f_equal. simpl. lia.
    + f_equal. lia.
Qed.

Lemma repeat_zoomOut_exec (n : nat) (s : QMapControl) :
  exec (repeatM n zoomOut') s
  = set_current_zoom
      (Z.min (m_current_zoom s) (Z.max (m_current_zoom s - Z.of_nat n) (m_zoom_minimum s))) s.
Proof.
  revert s; induction n as [|n IH]; intro s.
  - simpl. unfold exec, ret; simpl.
    replace (Z.min _ _) with (m_current_zoom s) by lia.
    symmetry; apply set_current_zoom_same.
  - cbn [repeatM]. rewrite exec_bind, IH, zoomOut_exec.
    destruct (Z.gtb_spec (m_current_zoom s) (m_zoom_minimum s)).
    + rewrite set_current_zoom_twice. f_equal. simpl. lia.
    + f_equal. lia.
Qed.

Lemma setZoom_exec (zoom : Z) (s : QMapControl) :
  exec (setZoom' zoom) s
  = let target := clamped zoom s in
    if (m_current_zoom s >? target)%Z
    then set_current_zoom
           (Z.min (m_current_zoom s) (Z.max target (m_zoom_minimum s))) s
    else set_current_zoom
           (Z.max (m_current_zoom s) (Z.min target (m_zoom_maximum s))) s.
Proof.
  unfold setZoom. rewrite exec_bind.
  change (result get s) with s. change (exec get s) with s.
  fold (clamped zoom s). cbv zeta.
  destruct (Z.eqb_spec (m_current_zoom s) (clamped zoom s)) as [E|E]; simpl negb; cbv iota.
  - unfold exec, ret; simpl.
    destruct (Z.gtb_spec (m_current_zoom s) (clamped zoom s)); [lia|].
    rewrite <- E. replace (Z.max _ _) with (m_current_zoom s) by lia.
    symmetry; apply set_current_zoom_same.
  - destruct (Z.gtb_spec (m_current_zoom s) (clamped zoom s)).
    + rewrite repeat_zoomOut_exec. f_equal. lia.
    + rewrite repeat_zoomIn_exec. f_equal. lia.
Qed.


Lemma setZoom_bounds (zoom : Z) (s : QMapControl) :
  m_zoom_minimum (exec (setZoom' zoom) s) = m_zoom_minimum s
  /\ m_zoom_maximum (exec (setZoom' zoom) s) = m_zoom_maximum s.
Proof.
  rewrite setZoom_exec. cbv zeta.
  destruct (m_current_zoom s >? clamped zoom s)%Z; split; reflexivity.
Qed.

Lemma checkZoom_exec (s : QMapControl) :
  exec checkZoom' s
  = let s1 := if (m_zoom_maximum s >? m_zoom_minimum s)%Z
              then set_zoom_fields (m_zoom_maximum s) (m_zoom_minimum s)
                     (m_current_zoom s) s
              else s in
    if (m_current_zoom s1 <? m_zoom_minimum s1)%Z
    then exec (setZoom' (m_zoom_minimum s1)) s1
    else if (m_current_zoom s1 >? m_zoom_maximum s1)%Z
         then exec (setZoom' (m_zoom_maximum s1)) s1
         else s1.
Proof.
  unfold checkZoom. rewrite exec_bind.
  change (result get s) with s. change (exec get s) with s.
  rewrite exec_bind.
  assert (E : exec (when (m_zoom_maximum s >? m_zoom_minimum s)%Z
                      (modify (set_zoom_fields (m_zoom_maximum s) (m_zoom_minimum s)
                                 (m_current_zoom s)))) s
              = if (m_zoom_maximum s >? m_zoom_minimum s)%Z
                then set_zoom_fields (m_zoom_maximum s) (m_zoom_minimum s)
                       (m_current_zoom s) s
                else s).
  { destruct (m_zoom_maximum s >? m_zoom_minimum s)%Z; reflexivity. }
  rewrite E. clear E. cbv zeta.
  set (s1 := if (m_zoom_maximum s >? m_zoom_minimum s)%Z then _ else s).
  rewrite exec_bind.
  change (result get s1) with s1. change (exec get s1) with s1.
  destruct (m_current_zoom s1 <? m_zoom_minimum s1)%Z; [reflexivity|].
  destruct (m_current_zoom s1 >? m_zoom_maximum s1)%Z; reflexivity.
Qed.

(** Whatever the bounds were, [checkZoom'] leaves the maximum at or below
    the minimum: the comparison that guards the swap is the wrong way round. *)
Lemma checkZoom_orders_bounds_backwards (s : QMapControl) :
  (m_zoom_maximum (exec checkZoom' s) <= m_zoom_minimum (exec checkZoom' s))%Z.
Proof.
  rewrite checkZoom_exec. cbv zeta.
  set (s1 := if (m_zoom_maximum s >? m_zoom_minimum s)%Z then _ else s).
  assert (H1 : (m_zoom_maximum s1 <= m_zoom_minimum s1)%Z).
  { subst s1. destruct (Z.gtb_spec (m_zoom_maximum s) (m_zoom_minimum s)); simpl; lia. }
  destruct (m_current_zoom s1 <? m_zoom_minimum s1)%Z.
  - destruct (setZoom_bounds (m_zoom_minimum s1) s1) as [-> ->]. exact H1.
  - destruct (m_current_zoom s1 >? m_zoom_maximum s1)%Z.
    + destruct (setZoom_bounds (m_zoom_maximum s1) s1) as [-> ->]. exact H1.
    + exact H1.
Qed.

Lemma setZoomMaximum_exec (zoom : Z) (s : QMapControl) :
  exec (setZoomMaximum' zoom) s
  = exec checkZoom' (set_zoom_fields (m_zoom_minimum s) zoom (m_current_zoom s) s).
Proof.
  unfold setZoomMaximum. rewrite !exec_bind.
  unfold updateControls. rewrite exec_bind. reflexivity.
Qed.

Lemma setZoomMinimum_exec (zoom : Z) (s : QMapControl) :
  exec (setZoomMinimum' zoom) s
  = exec checkZoom' (set_zoom_fields zoom (m_zoom_maximum s) (m_current_zoom s) s).
Proof.
  unfold setZoomMinimum. rewrite !exec_bind.
  unfold updateControls. rewrite exec_bind. reflexivity.
Qed.

(** [zoomIn], [zoomOut] and [setZoom] keep the zoom inside the range. *)
Lemma zoom_steps_preserve_range (s : QMapControl) (zoom : Z) :
  zoom_in_range s ->
  zoom_in_range (exec zoomIn' s) /\ zoom_in_range (exec zoomOut' s)
  /\ zoom_in_range (exec (setZoom' zoom) s).
Proof.
  unfold zoom_in_range. intros [Hlo Hhi].
  rewrite zoomIn_exec, zoomOut_exec, setZoom_exec. cbv zeta. unfold clamped.
  repeat split;
    repeat match goal with
      | |- context [(?a <? ?b)%Z] => destruct (Z.ltb_spec a b)
      | |- context [(?a >? ?b)%Z] => destruct (Z.gtb_spec a b)
      end; cbn; lia.
Qed.

(** C2. On the object the constructor builds (bounds 0 and 17, zoom 0),
    [setZoomMaximum'(10)] leaves minimum 10, maximum 0 and zoom 0: the bounds
    were in order and [checkZoom'] swapped them, and the zoom is below the
    minimum.  [setZoomMinimum'(20)] leaves minimum 20 above maximum 17 without
    a swap, and the zoom at 17.  The invariant fails after both calls. *)
Theorem checkZoom_breaks_zoom_invariant (size_px : QSizeF) :
  let s := exec (setZoomMaximum' 10) (constructed size_px) in
  let s' := exec (setZoomMinimum' 20) (constructed size_px) in
  (m_zoom_minimum s, m_zoom_maximum s, m_current_zoom s) = (10, 0, 0)%Z
  /\ ~ zoom_in_range s
  /\ (m_zoom_minimum s', m_zoom_maximum s', m_current_zoom s') = (20, 17, 17)%Z
  /\ ~ zoom_in_range s'.
Proof.
  cbv zeta. rewrite setZoomMaximum_exec, setZoomMinimum_exec, !checkZoom_exec.
  cbn -[exec setZoom]. rewrite !setZoom_exec. cbn.
  unfold zoom_in_range; cbn. repeat split; lia.
Qed.

(** C3, amended. When the zoom is inside the range and below the maximum,
    [zoomIn'()] followed by [zoomOut'()] restores the zoom. *)
Theorem zoomIn_then_zoomOut_restores (s : QMapControl) :
  (m_zoom_minimum s <= m_current_zoom s < m_zoom_maximum s)%Z ->
  m_current_zoom (exec (zoomIn' ;; zoomOut') s) = m_current_zoom s.
Proof.
  intros [Hlo Hhi]. rewrite exec_bind, zoomIn_exec.
  destruct (Z.ltb_spec (m_current_zoom s) (m_zoom_maximum s)); [|lia].
  rewrite zoomOut_exec. cbn.
  destruct (Z.gtb_spec (m_current_zoom s + 1) (m_zoom_minimum s)); [|lia].
  cbn. lia.
Qed.

(** At the maximum [zoomIn'()] does nothing and [zoomOut'()] still steps down. *)
Lemma zoomIn_then_zoomOut_at_maximum (s : QMapControl) :
  (m_zoom_minimum s < m_current_zoom s)%Z ->
  (m_zoom_maximum s <= m_current_zoom s)%Z ->
  m_current_zoom (exec (zoomIn' ;; zoomOut') s) = (m_current_zoom s - 1)%Z.
Proof.
  intros Hlo Hhi. rewrite exec_bind, zoomIn_exec.
  destruct (Z.ltb_spec (m_current_zoom s) (m_zoom_maximum s)); [lia|].
  rewrite zoomOut_exec.
  destruct (Z.gtb_spec (m_current_zoom s) (m_zoom_minimum s)); [|lia].
  reflexivity.
Qed.

End ZoomProofs.

(* ===================================================================== *)
(** ** Automatic zoom                                                     *)
(* ===================================================================== *)



Section AutoZoomProofs.

Variable toPixelPoint : QPointF -> Z -> QPointF.
Variable toCoordinatePoint : QPointF -> Z -> QPointF.
Variable points_coord : list QPointF.

Abbreviation zoomIn' := (zoomIn toPixelPoint).
Abbreviation zoomOut' := (zoomOut toPixelPoint).
Abbreviation fits := (fun s => viewportContainsAll toPixelPoint toCoordinatePoint s points_coord).
Abbreviation out_wanted := (zoom_out_wanted toPixelPoint toCoordinatePoint points_coord).
Abbreviation in_wanted := (zoom_in_wanted toPixelPoint toCoordinatePoint points_coord).


Lemma whileM_step (fuel : nat) (cond : QMapControl -> bool) (body : M unit)
    (s : QMapControl) :
  exec (whileM (S fuel) cond body) s
  = if cond s then exec (whileM fuel cond body) (exec body s) else s.
Proof.
  cbn [whileM]. rewrite exec_bind.
  change (result get s) with s. change (exec get s) with s.
  destruct (cond s); [|reflexivity]. rewrite exec_bind. reflexivity.
Qed.

(** The zoom-out loop ends at a level between the minimum and the level it
    started at, and with enough iterations its condition is false there. *)
Lemma zoom_out_loop (fuel : nat) (s : QMapControl) :
  exists z,
    exec (whileM fuel out_wanted zoomOut') s = set_current_zoom z s
    /\ (z <= m_current_zoom s)%Z
    /\ ((m_zoom_minimum s <= m_current_zoom s)%Z -> (m_zoom_minimum s <= z)%Z)
    /\ ((m_current_zoom s - m_zoom_minimum s <= Z.of_nat fuel)%Z ->
        out_wanted (set_current_zoom z s) = false).
Proof.
  revert s; induction fuel as [|fuel IH]; intro s.
  - exists (m_current_zoom s). rewrite set_current_zoom_same.
    repeat split; try lia; try reflexivity.
    intro Hf. unfold zoom_out_wanted.
    destruct (Z.gtb_spec (m_current_zoom s) (m_zoom_minimum s)); [lia|].
    apply andb_false_r.
  - rewrite whileM_step. destruct (out_wanted s) eqn:Hw.
    + assert (Hgt : (m_current_zoom s > m_zoom_minimum s)%Z).
      { unfold zoom_out_wanted in Hw. apply andb_prop in Hw. destruct Hw as [_ Hw].
        destruct (Z.gtb_spec (m_current_zoom s) (m_zoom_minimum s)); [lia|discriminate]. }
      rewrite zoomOut_exec.
      destruct (Z.gtb_spec (m_current_zoom s) (m_zoom_minimum s)); [|lia].
      destruct (IH (set_current_zoom (m_current_zoom s - 1) s)) as (z & E & Hle & Hmin & Hdone).
      cbn in Hle, Hmin, Hdone. exists z. rewrite E.
      repeat split; try lia; try reflexivity.
      intro Hf. apply Hdone. lia.
    + exists (m_current_zoom s). rewrite set_current_zoom_same.
      repeat split; try lia; try reflexivity. intros _. exact Hw.
Qed.

(** The zoom-in loop ends at a level at or above the one it started at; with
    enough iterations its condition is false there; and when it moved, the
    points fitted one level below. *)
Lemma zoom_in_loop (fuel : nat) (s : QMapControl) :
  exists z,
    exec (whileM fuel in_wanted zoomIn') s = set_current_zoom z s
    /\ (m_current_zoom s <= z)%Z
    /\ ((m_zoom_maximum s - m_current_zoom s <= Z.of_nat fuel)%Z ->
        in_wanted (set_current_zoom z s) = false)
    /\ ((m_current_zoom s < z)%Z -> fits (set_current_zoom (z - 1) s) = true).
Proof.
  revert s; induction fuel as [|fuel IH]; intro s.
  - exists (m_current_zoom s). rewrite set_current_zoom_same.
    repeat split; try lia; try reflexivity.
    intro Hf. unfold zoom_in_wanted.
    destruct (Z.ltb_spec (m_current_zoom s) (m_zoom_maximum s)); [lia|].
    apply andb_false_r.
  - rewrite whileM_step. destruct (in_wanted s) eqn:Hw.
    + assert (Hfit : fits s = true /\ (m_current_zoom s < m_zoom_maximum s)%Z).
      { unfold zoom_in_wanted in Hw. apply andb_prop in Hw. destruct Hw as [Hf Hw].
        split; [exact Hf|].
        destruct (Z.ltb_spec (m_current_zoom s) (m_zoom_maximum s)); [lia|discriminate]. }
      destruct Hfit as [Hfit Hlt].
      rewrite zoomIn_exec.
      destruct (Z.ltb_spec (m_current_zoom s) (m_zoom_maximum s)); [|lia].
      destruct (IH (set_current_zoom (m_current_zoom s + 1) s)) as (z & E & Hle & Hdone & Hprev).
      cbn in Hle, Hdone, Hprev. exists z. rewrite E.
      repeat split; try lia; try reflexivity.
      * intro Hf. apply Hdone. lia.
      * intros _. destruct (Z.eq_dec z (m_current_zoom s + 1)) as [->|Hne].
        -- replace (m_current_zoom s + 1 - 1)%Z with (m_current_zoom s) by lia.
           rewrite set_current_zoom_same. exact Hfit.
        -- apply Hprev. lia.
    + exists (m_current_zoom s). rewrite set_current_zoom_same.
      repeat split; try lia; try reflexivity. intros _. exact Hw.
Qed.

Lemma setMapFocusPoint_exec (p : QPointF) (s : QMapControl) :
  exec (setMapFocusPoint toPixelPoint p) s = set_map_focus_coord p s.
Proof.
  unfold setMapFocusPoint. rewrite exec_bind. apply redrawPrimaryScreen_exec.
Qed.

Lemma setMapFocusPoints_exec (s : QMapControl) :
  exec (setMapFocusPoints toPixelPoint toCoordinatePoint points_coord true) s
  = let s0 := set_map_focus_coord (calculateMapFocusPoint points_coord) s in
    let s1 := exec (whileM (Z.to_nat (m_current_zoom s0 - m_zoom_minimum s0))
                      out_wanted zoomOut') s0 in
    let s2 := exec (whileM (Z.to_nat (m_zoom_maximum s1 - m_current_zoom s1))
                      in_wanted zoomIn') s1 in
    if out_wanted s2 then exec zoomOut' s2 else s2.
Proof.
  unfold setMapFocusPoints. rewrite exec_bind, setMapFocusPoint_exec. cbv zeta.
  set (s0 := set_map_focus_coord _ s).
  rewrite exec_bind. change (result get s0) with s0. change (exec get s0) with s0.
  rewrite exec_bind.
  set (s1 := exec (whileM _ out_wanted zoomOut') s0).
  rewrite exec_bind. change (result get s1) with s1. change (exec get s1) with s1.
  rewrite exec_bind.
  set (s2 := exec (whileM _ in_wanted zoomIn') s1).
  rewrite exec_bind. change (result get s2) with s2. change (exec get s2) with s2.
  destruct (out_wanted s2); reflexivity.
Qed.

(** Neither loop of the automatic zoom runs out of iterations: when it
    stops, its condition is false. *)
Lemma autozoom_loops_complete (s0 : QMapControl) :
  let s1 := exec (whileM (Z.to_nat (m_current_zoom s0 - m_zoom_minimum s0))
                    out_wanted zoomOut') s0 in
  let s2 := exec (whileM (Z.to_nat (m_zoom_maximum s1 - m_current_zoom s1))
                    in_wanted zoomIn') s1 in
  out_wanted s1 = false /\ in_wanted s2 = false.
Proof.
  cbv zeta.
  destruct (zoom_out_loop (Z.to_nat (m_current_zoom s0 - m_zoom_minimum s0)) s0)
    as (z1 & E1 & _ & _ & Hdone1).
  rewrite E1. split; [apply Hdone1; lia|].
  destruct (zoom_in_loop
              (Z.to_nat (m_zoom_maximum (set_current_zoom z1 s0)
                         - m_current_zoom (set_current_zoom z1 s0)))
              (set_current_zoom z1 s0)) as (z2 & E2 & _ & Hdone2 & _).
  rewrite E2. apply Hdone2. lia.
Qed.


End AutoZoomProofs.

(* ===================================================================== *)
(** ** Backbuffer coverage                                                *)
(* ===================================================================== *)

Lemma ltb_Fin_true (x y : Q) : (Fin x <? Fin y)%dbl = true <-> x < y.
Proof.
  unfold Dbl.ltb. rewrite negb_true_iff. split.
  - intro H. apply Qnot_le_lt. intro Hle. apply Qle_bool_iff in Hle. congruence.
  - intro H. destruct (Qle_bool y x) eqn:E; [|reflexivity].
    apply Qle_bool_iff in E. exfalso. eapply Qlt_not_le; eauto.
Qed.

Lemma ltb_Fin_false (x y : Q) : (Fin x <? Fin y)%dbl = false <-> y <= x.
Proof.
  unfold Dbl.ltb. rewrite negb_false_iff. apply Qle_bool_iff.
Qed.

Lemma eqb_Fin_true (x y : Q) : (Fin x =? Fin y)%dbl = true <-> x == y.
Proof. unfold Dbl.eqb. apply Qeq_bool_iff. Qed.

Lemma eqb_Fin_false (x y : Q) : (Fin x =? Fin y)%dbl = false <-> ~ x == y.
Proof.
  unfold Dbl.eqb. split.
  - intros H E. apply Qeq_bool_iff in E. congruence.
  - intro H. destruct (Qeq_bool x y) eqn:E; [|reflexivity].
    apply Qeq_bool_iff in E. contradiction.
Qed.

Ltac to_Q :=
  repeat match goal with
    | H : (Fin _ <? Fin _)%dbl = true |- _ => apply ltb_Fin_true in H
    | H : (Fin _ <? Fin _)%dbl = false |- _ => apply ltb_Fin_false in H
    | H : (Fin _ >? Fin _)%dbl = true |- _ => unfold Dbl.gtb in H
    | H : (Fin _ >? Fin _)%dbl = false |- _ => unfold Dbl.gtb in H
    | H : (Fin _ =? Fin _)%dbl = true |- _ => apply eqb_Fin_true in H
    | H : (Fin _ =? Fin _)%dbl = false |- _ => apply eqb_Fin_false in H
    end.


(** The same axis when the viewport extent is zero and the focus is a
    number: the backbuffer interval is empty and contains nothing. *)
Lemma backbuffer_axis_empty (w f : Q) :
  w == 0 ->
  let c := (Fin w / two)%dbl in
  let tl_b := (zero - c - c + Fin f)%dbl in
  let br_b := (Fin w + c - c + Fin f)%dbl in
  let tl_r := (zero - c + Fin f)%dbl in
  let br_r := (Fin w - c + Fin f)%dbl in
  Qt.axis_contains_span tl_b (br_b - tl_b)%dbl tl_r (br_r - tl_r)%dbl = false.
Proof.
  intros Hw.
  cbn [Dbl.div two zero Dbl.add Dbl.sub]. change (Qeq_bool 2 0) with false. cbv iota.
  cbn [Dbl.add Dbl.sub]. cbv zeta.
  assert (E : 2 * (w / 2) == w) by field.
  generalize dependent (w / 2). intros h E.
  unfold Qt.axis_contains_span, Qt.span, zero.
  cbn [Dbl.add Dbl.sub].
  repeat match goal with
    | |- context [if (?a <? ?b)%dbl then _ else _] =>
        let H := fresh "C" in destruct (a <? b)%dbl eqn:H; cbn [Dbl.add orb]
    | |- context [if (?a =? ?b)%dbl then _ else _] =>
        let H := fresh "C" in destruct (a =? b)%dbl eqn:H; cbn [Dbl.add orb]
    | |- context [(?a <? ?b)%dbl || _] =>
        let H := fresh "C" in destruct (a <? b)%dbl eqn:H; cbn [Dbl.add orb]
    | |- context [if (?a >? ?b)%dbl then _ else _] =>
        let H := fresh "C" in destruct (a >? b)%dbl eqn:H; cbn [Dbl.add orb]
    end;
  to_Q; try reflexivity; exfalso;
    repeat match goal with H : ~ _ == _ |- _ => apply H; clear H end; lra.
Qed.

Section BackbufferProofs.

Variable toPixelPoint : QPointF -> Z -> QPointF.

Lemma setViewportSize_centered (size_px : QSizeF) (s : QMapControl) :
  centered (exec (setViewportSize toPixelPoint size_px) s).
Proof.
  unfold setViewportSize. rewrite !exec_bind.
  unfold updateControls. rewrite exec_bind, redrawPrimaryScreen_exec. reflexivity.
Qed.

(** A forced request starts a redraw whatever the backbuffer covers. *)
Lemma forced_redraw_is_scheduled (s : QMapControl) :
  effects (redrawPrimaryScreen toPixelPoint true) s
  = [RunRedrawBackbuffer;
     MoveGeometryWidgets
       (Qt.pt_sub (mapFocusPointPx toPixelPoint s) (m_viewport_center_px s))
       (m_current_zoom s);
     WidgetUpdate].
Proof. reflexivity. Qed.


(** With a viewport of width zero and a focus pixel that is a number, the
    published backbuffer is never sufficient, whatever the projection. *)
Lemma zero_width_viewport_not_covered (s : QMapControl) (w fx : Q) :
  centered s ->
  sz_width (m_viewport_size_px s) = Fin w -> w == 0 ->
  pt_x (mapFocusPointPx toPixelPoint s) = Fin fx ->
  let '(backbuffer_rect_px, backbuffer_map_focus_px) :=
    redrawBackbuffer_result toPixelPoint s in
  checkBackbuffer toPixelPoint
    (exec (updatePrimaryScreen backbuffer_rect_px backbuffer_map_focus_px) s) = true.
Proof.
  intros Hc Hw Hz Hf. unfold redrawBackbuffer_result. cbv zeta.
  unfold updatePrimaryScreen. rewrite exec_bind.
  change (exec (emit WidgetUpdate) ?x) with x.
  change (exec (modify ?f) s) with (f s).
  unfold checkBackbuffer.
  change (m_primary_screen_backbuffer_rect_px (set_primary_screen ?f ?r s)) with r.
  change (required_viewport_rect_px toPixelPoint (set_primary_screen ?f ?r s))
    with (required_viewport_rect_px toPixelPoint s).
  unfold required_viewport_rect_px, toPointPx, toPointPx_at, size_corner, origin.
  rewrite Hc.
  unfold Qt.contains_rect, Qt.rect_of_corners, Qt.pt_add, Qt.pt_sub.
  cbn [xp yp rw rh pt_x pt_y]. rewrite Hw, Hf.
  rewrite (backbuffer_axis_empty w fx Hz). reflexivity.
Qed.

End BackbufferProofs.

(* ===================================================================== *)
(** ** Pan limit                                                          *)
(* ===================================================================== *)

Section PanLimitProofs.

Variable toPixelPoint : QPointF -> Z -> QPointF.
Variable toCoordinatePoint : QPointF -> Z -> QPointF.

(** C1, amended. With a limited viewport rectangle that is set and valid, a
    scroll whose target focus is outside the rectangle changes nothing and
    has no effect.  [setMapFocusPoint] itself does not look at the
    rectangle: it stores the coordinate it is given. *)
Theorem scroll_outside_pan_limit_is_rejected (s : QMapControl) (delta_px : QPointF) :
  Qt.isNull (m_limited_viewport_rect_coord s) = false ->
  Qt.isValid (m_limited_viewport_rect_coord s) = true ->
  Qt.contains_point (m_limited_viewport_rect_coord s)
    (scroll_target toPixelPoint toCoordinatePoint s delta_px) = false ->
  scrollView toPixelPoint toCoordinatePoint delta_px s = (tt, s, [])
  /\ forall point_coord,
       m_map_focus_coord (exec (setMapFocusPoint toPixelPoint point_coord) s)
       = point_coord.
Proof.
  intros Hnull Hvalid Hout. split.
  - unfold scrollView, bind, get. cbn beta iota zeta.
    unfold scroll_target in Hout. rewrite Hnull, Hvalid, Hout. reflexivity.
  - intro p. rewrite setMapFocusPoint_exec. reflexivity.
Qed.

(** A scroll the limit allows moves the focus to its target. *)
Lemma scroll_inside_pan_limit_moves (s : QMapControl) (delta_px : QPointF) :
  Qt.isValid (m_limited_viewport_rect_coord s) = true ->
  Qt.contains_point (m_limited_viewport_rect_coord s)
    (scroll_target toPixelPoint toCoordinatePoint s delta_px) = true ->
  exec (scrollView toPixelPoint toCoordinatePoint delta_px) s
  = set_map_focus_coord (scroll_target toPixelPoint toCoordinatePoint s delta_px) s.
Proof.
  intros Hvalid Hin. unfold scrollView. rewrite exec_bind.
  change (result get s) with s. change (exec get s) with s.
  unfold scroll_target in Hin. rewrite Hvalid, Hin, orb_true_r.
  apply setMapFocusPoint_exec.
Qed.

End PanLimitProofs.

(* ===================================================================== *)
(** ** Touched points of a line string                                    *)
(* ===================================================================== *)

Section LineStringProofs.

Variable GeometryPoint : Type.
Variable QGraphicsItem : Type.
Variable Geometry : Type.
Variable point_touches : GeometryPoint -> QGraphicsItem -> Z -> bool.
Variable isVisible : Geometry -> Z -> bool.

Lemma touches_loop (area_px : QGraphicsItem) (zoom : Z)
    (pts acc : list GeometryPoint) (flag : bool) :
  fold_left (touches_step point_touches area_px zoom) pts (acc, flag)
  = (acc ++ filter (fun p => point_touches p area_px zoom) pts,
     flag || existsb (fun p => point_touches p area_px zoom) pts).
Proof.
  revert acc flag; induction pts as [|p pts IH]; intros acc flag; simpl.
  - rewrite app_nil_r, orb_false_r. reflexivity.
  - unfold touches_step at 2. destruct (point_touches p area_px zoom); simpl.
    + rewrite IH, <- app_assoc, orb_true_r. reflexivity.
    + apply IH.
Qed.

Lemma filter_nonempty_existsb {A} (f : A -> bool) (l : list A) :
  existsb f l = true <-> filter f l <> [].
Proof.
  induction l as [|a l IH]; simpl.
  - split; [discriminate | congruence].
  - destruct (f a); simpl; [split; [discriminate | reflexivity] | exact IH].
Qed.

(** C7. Whatever the touched-point list was before, after
    [touches(area, zoom)] it holds exactly the points of the line string
    that touch the area at that zoom, in the order of the line string, and
    it is empty when the line string is not visible at that zoom; the call
    returns [true] exactly when the list is not empty.  The points of the
    line string are unchanged. *)
Theorem touches_replaces_touched_points
    (g : GeometryLineString GeometryPoint Geometry)
    (area_px : QGraphicsItem) (zoom : Z) :
  let '(return_touches, g', _) := touches point_touches isVisible area_px zoom g in
  touchedPoints g'
  = (if isVisible (base g) zoom
     then filter (fun p => point_touches p area_px zoom) (points g)
     else [])
  /\ (return_touches = true <-> touchedPoints g' <> [])
  /\ points g' = points g.
Proof.
  unfold touches. cbn [base m_points m_touched_points].
  destruct (isVisible (base g) zoom).
  - rewrite touches_loop. cbn -[filter existsb].
    split; [reflexivity|]. split; [apply filter_nonempty_existsb | reflexivity].
  - cbn. split; [reflexivity|]. split; [|reflexivity].
    split; [discriminate | congruence].
Qed.

(** Two calls in a row: the second result does not contain the first. *)
Lemma touches_twice (g : GeometryLineString GeometryPoint Geometry)
    (area1 area2 : QGraphicsItem) (zoom1 zoom2 : Z) :
  let g1 := snd (fst (touches point_touches isVisible area1 zoom1 g)) in
  snd (fst (touches point_touches isVisible area2 zoom2 g1))
  = snd (fst (touches point_touches isVisible area2 zoom2 g)).
Proof.
  unfold touches. cbn [base m_points m_touched_points].
  destruct (isVisible (base g) zoom1); [rewrite touches_loop|];
    cbn [fst snd base m_points m_touched_points]; reflexivity.
Qed.

End LineStringProofs.

(* ===================================================================== *)
(** ** Animated focus                                                     *)
(* ===================================================================== *)

Section AnimationProofs.

Variable toPixelPoint : QPointF -> Z -> QPointF.
Variable toCoordinatePoint : QPointF -> Z -> QPointF.

Abbreviation scrollView' := (scrollView toPixelPoint toCoordinatePoint).
Abbreviation animatedTick' := (animatedTick toPixelPoint toCoordinatePoint).
Abbreviation deliver' := (deliver_ticks toPixelPoint toCoordinatePoint).

Lemma redrawPrimaryScreen_no_tick (force : bool) (s : QMapControl) :
  scheduled_ticks (effects (redrawPrimaryScreen toPixelPoint force) s) = O.
Proof.
  unfold redrawPrimaryScreen. run_monad.
  destruct (force || checkBackbuffer toPixelPoint s); reflexivity.
Qed.

(** A scroll leaves the animation fields alone and starts no timer. *)
Lemma scrollView_animation (delta_px : QPointF) (s : QMapControl) :
  animation_of (exec (scrollView' delta_px) s) = animation_of s
  /\ scheduled_ticks (effects (scrollView' delta_px) s) = O.
Proof.
  unfold scrollView. rewrite exec_bind, effects_bind.
  change (result get s) with s. change (exec get s) with s.
  change (effects get s) with (@nil Effect). cbn [app].
  match goal with |- context [if ?c then _ else _] => destruct c end.
  - rewrite setMapFocusPoint_exec. split; [reflexivity|].
    unfold setMapFocusPoint. rewrite effects_bind. cbn [app].
    change (effects (modify ?f) s) with (@nil Effect). cbn [app].
    apply redrawPrimaryScreen_no_tick.
  - split; reflexivity.
Qed.

Lemma scheduled_ticks_app (e1 e2 : list Effect) :
  scheduled_ticks (e1 ++ e2) = (scheduled_ticks e1 + scheduled_ticks e2)%nat.
Proof. unfold scheduled_ticks. rewrite filter_app, length_app. reflexivity. Qed.

(** A tick with steps left takes one step and schedules the next tick. *)
Lemma animatedTick_stepping (s : QMapControl) :
  (m_animated_steps s > 0)%Z ->
  animation_of (exec animatedTick' s)
  = (m_animated_map_focus_point s, (m_animated_steps s - 1)%Z,
     m_animated_interval s, m_animated_mutex s)
  /\ scheduled_ticks (effects animatedTick' s) = 1%nat.
Proof.
  intro Hpos. unfold animatedTick. rewrite exec_bind, effects_bind.
  change (result get s) with s. change (exec get s) with s.
  change (effects get s) with (@nil Effect). cbn [app].
  destruct (Z.gtb_spec (m_animated_steps s) 0); [|lia].
  cbv zeta. rewrite exec_bind, effects_bind.
  match goal with |- context [scrollView' ?d] =>
    destruct (scrollView_animation d s) as [Ha Hn]; set (s1 := exec (scrollView' d) s) in *
  end.
  rewrite scheduled_ticks_app, Hn.
  unfold animation_of in Ha. injection Ha as H1 H2 H3 H4.
  run_monad. unfold animation_of; cbn. rewrite H1, H2, H3, H4. split; reflexivity.
Qed.

(** A tick with no step left unlocks the animation mutex and schedules
    nothing. *)
Lemma animatedTick_finishing (s : QMapControl) :
  (m_animated_steps s <= 0)%Z ->
  animation_of (exec animatedTick' s)
  = (m_animated_map_focus_point s, m_animated_steps s, m_animated_interval s, false)
  /\ scheduled_ticks (effects animatedTick' s) = O.
Proof.
  intro Hle. unfold animatedTick. rewrite exec_bind, effects_bind.
  change (result get s) with s. change (exec get s) with s.
  change (effects get s) with (@nil Effect). cbn [app].
  destruct (Z.gtb_spec (m_animated_steps s) 0); [lia|].
  split; reflexivity.
Qed.

Lemma deliver_step (fuel : nat) (s : QMapControl) :
  deliver' (S fuel) 1 s
  = deliver' fuel (scheduled_ticks (effects animatedTick' s)) (exec animatedTick' s).
Proof.
  cbn [deliver_ticks]. rewrite (run_eta animatedTick' s). reflexivity.
Qed.

(** With one tick pending, as many ticks are delivered as steps are left,
    plus one; then nothing is pending, the mutex is unlocked, no positive
    step count is left and the target and interval are those the animation
    had. *)
Lemma animation_runs_to_completion (n : nat) (s : QMapControl) :
  Z.to_nat (m_animated_steps s) = n ->
  exists s_end,
    deliver' (S n) 1 s = (s_end, O)
    /\ animation_of s_end
       = (m_animated_map_focus_point s, Z.min (m_animated_steps s) 0,
          m_animated_interval s, false).
Proof.
  revert s; induction n as [|n IH]; intros s Hn.
  - rewrite deliver_step.
    destruct (animatedTick_finishing s) as [Ha Ht]; [lia|]. rewrite Ht.
    eexists; split; [reflexivity|]. rewrite Ha.
    replace (Z.min (m_animated_steps s) 0) with (m_animated_steps s) by lia.
    reflexivity.
  - rewrite deliver_step.
    destruct (animatedTick_stepping s) as [Ha Ht]; [lia|]. rewrite Ht.
    unfold animation_of in Ha. injection Ha as H1 H2 H3 H4.
    destruct (IH (exec animatedTick' s)) as (s_end & E & Hend); [lia|].
    exists s_end. split; [exact E|]. rewrite Hend, H1, H2, H3.
    replace (Z.min (m_animated_steps s - 1) 0) with (Z.min (m_animated_steps s) 0) by lia.
    reflexivity.
Qed.

(** A request made with the mutex free is accepted: it stores its
    arguments, locks the mutex and schedules the first tick. *)
Lemma animation_request_accepted (s : QMapControl) (coordinate : QPointF)
    (steps step_interval : Z) :
  m_animated_mutex s = false ->
  animation_of (exec (setMapFocusPointAnimated coordinate steps step_interval) s)
  = (coordinate, steps, step_interval, true)
  /\ effects (setMapFocusPointAnimated coordinate steps step_interval) s
     = [SingleShotAnimatedTick step_interval].
Proof.
  intro Hfree. unfold setMapFocusPointAnimated. run_monad. rewrite Hfree.
  split; reflexivity.
Qed.

(** C8. While an animation is in progress (its mutex is locked) a call of
    [setMapFocusPointAnimated] changes no field of the object and schedules
    no tick; it only reports that an animation is running.  The animation in
    progress, with its one pending tick and its remaining steps, then runs
    to its end: after as many ticks as steps remain plus one, no tick is
    pending, the mutex is unlocked, no step remains, and target and interval
    are still those of that animation. *)
Theorem animation_request_rejected_while_animating
    (s : QMapControl) (coordinate : QPointF) (steps step_interval : Z) :
  m_animated_mutex s = true ->
  setMapFocusPointAnimated coordinate steps step_interval s
  = (tt, s, [DebugAlreadyAnimating])
  /\ exists s_end,
       deliver' (S (Z.to_nat (m_animated_steps s))) 1
         (exec (setMapFocusPointAnimated coordinate steps step_interval) s)
       = (s_end, O)
       /\ animation_of s_end
          = (m_animated_map_focus_point s, Z.min (m_animated_steps s) 0,
             m_animated_interval s, false).
Proof.
  intros Hlocked.
  assert (E : setMapFocusPointAnimated coordinate steps step_interval s
              = (tt, s, [DebugAlreadyAnimating])).
  { unfold setMapFocusPointAnimated. run_monad. rewrite Hlocked. reflexivity. }
  split; [exact E|].
  unfold exec at 1. rewrite E. cbn [fst snd].
  apply animation_runs_to_completion. reflexivity.
Qed.

End AnimationProofs.

(* ===================================================================== *)
(** ** Redraw scheduling                                                  *)
(* ===================================================================== *)

Module WorkerProofs.

Import Worker.


Lemma cnt_cons (c x : pc) (l : list pc) :
  cnt c (x :: l) = (one_if (pc_eqb c x) + cnt c l)%nat.
Proof. unfold cnt. simpl. destruct (pc_eqb c x); reflexivity. Qed.


Lemma cnt_total (l : list pc) :
  (cnt AtTryLock l + cnt AtLockGuard l + cnt AtUnlockQueued l
   + cnt Drawing l + cnt Done l + cnt Skipped l)%nat = length l.
Proof.
  induction l as [|x l IH]; [reflexivity|].
  rewrite !cnt_cons. simpl length. destruct x; simpl; lia.
Qed.

Lemma cnt_positive_nth (c : pc) (l : list pc) :
  (0 < cnt c l)%nat -> exists i, nth_error l i = Some c.
Proof.
  induction l as [|x l IH]; [unfold cnt; simpl; lia|].
  rewrite cnt_cons. destruct (pc_eqb c x) eqn:E.
  - intros _. exists O. destruct c, x; try discriminate; reflexivity.
  - simpl. intro H. destruct (IH H) as [i Hi]. exists (S i). exact Hi.
Qed.



Lemma count_is_cnt (c : pc) (p : pool) : count c p = cnt c (threads p).
Proof. reflexivity. Qed.






(** The initial situation of the coalescing argument can arise: one request
    runs up to the drawing phase, then [n] more requests are made. *)
Lemma run_app (s1 s2 : list action) (p : pool) :
  run (s1 ++ s2) p
  = match run s1 p with Some p1 => run s2 p1 | None => None end.
Proof.
  revert p; induction s1 as [|a s1 IH]; intro p; simpl; [reflexivity|].
  destruct (act a p); [apply IH | reflexivity].
Qed.

Lemma run_requests (n : nat) (q b : bool) (l : list pc) :
  run (repeat Request n) (mkPool q b l) = Some (mkPool q b (l ++ repeat AtTryLock n)).
Proof.
  revert l; induction n as [|n IH]; intro l; simpl.
  - rewrite app_nil_r. reflexivity.
  - unfold spawn; simpl. rewrite IH, <- app_assoc. reflexivity.
Qed.

Lemma one_running_reachable (n : nat) :
  run ([Request; Run 0; Run 0; Run 0] ++ repeat Request n) idle = Some (one_running n).
Proof. rewrite run_app. simpl run at 2. cbn. apply run_requests. Qed.







Lemma fire_enabled (i : nat) (p : pool) (c : pc) :
  nth_error (threads p) i = Some c ->
  thread_step (backbuffer_queued_mutex p) (backbuffer_mutex p) c <> None ->
  fire i p <> None.
Proof.
  intros Hn Hs. unfold fire. rewrite Hn.
  destruct (thread_step _ _ c) as [[[q' b'] c']|]; [discriminate | contradiction].
Qed.

(** No deadlock: while an action remains, some thread can take one. *)
Lemma draining_progress (n : nat) (p : pool) :
  draining n p -> (0 < remaining p)%nat -> exists i, fire i p <> None.
Proof.
  intros ([Hq Hb] & _) Hrem. unfold remaining in Hrem.
  destruct (Nat.eq_dec (count AtUnlockQueued p) 0) as [Huq|Huq].
  - destruct (Nat.eq_dec (count Drawing p) 0) as [Hd|Hd].
    + assert (Hlg : (0 < count AtLockGuard p)%nat) by lia.
      destruct (cnt_positive_nth _ _ Hlg) as [i Hi]. exists i.
      apply (fire_enabled _ _ _ Hi). cbn.
      destruct (backbuffer_mutex p); [cbn in Hb; lia | discriminate].
    + assert (Hpos : (0 < count Drawing p)%nat) by lia.
      destruct (cnt_positive_nth _ _ Hpos) as [i Hi]. exists i.
      apply (fire_enabled _ _ _ Hi). discriminate.
  - assert (Hpos : (0 < count AtUnlockQueued p)%nat) by lia.
    destruct (cnt_positive_nth _ _ Hpos) as [i Hi]. exists i.
    apply (fire_enabled _ _ _ Hi). discriminate.
Qed.

Lemma draining_finished (n : nat) (p : pool) :
  (1 <= n)%nat -> draining n p -> remaining p = O -> count Done p = 2%nat.
Proof.
  intros Hn (_ & Htry & Hsk & Hlen) Hrem.
  pose proof (cnt_total (threads p)) as Htot.
  unfold remaining in Hrem. rewrite !count_is_cnt in *. lia.
Qed.

(** When no thread can act any more, two redraws have completed. *)
Lemma quiescent_means_done (n : nat) (p : pool) :
  (1 <= n)%nat -> draining n p -> quiescent p -> count Done p = 2%nat.
Proof.
  intros Hn Hd Hq. destruct (Nat.eq_dec (remaining p) 0) as [E|E].
  - apply (draining_finished n p Hn Hd E).
  - exfalso. destruct (draining_progress n p Hd) as [i Hi]; [lia|].
    apply Hi, Hq.
Qed.




End WorkerProofs.

(* ===================================================================== *)
(** ** Concrete runs                                                      *)
(* ===================================================================== *)

Module Runs.

Import Scenario.

(** C1, counterexample.  The limit rectangle (0,0) .. (10,10) is set and
    valid and does not contain (20,20), and [setMapFocusPoint((20,20))]
    moves the focus there. *)
Lemma setMapFocusPoint_ignores_pan_limit :
  Qt.isNull (m_limited_viewport_rect_coord limited) = false
  /\ Qt.isValid (m_limited_viewport_rect_coord limited) = true
  /\ Qt.contains_point (m_limited_viewport_rect_coord limited) outside = false
  /\ m_map_focus_coord (exec (setMapFocusPoint LP.toPixelPoint outside) limited)
     <> m_map_focus_coord limited.
Proof.
  repeat split; try (vm_compute; reflexivity).
  vm_compute. intro H. discriminate H.
Qed.

Lemma scroll_outside_pan_limit_is_rejected_witness :
  Qt.isNull (m_limited_viewport_rect_coord limited) = false
  /\ Qt.isValid (m_limited_viewport_rect_coord limited) = true
  /\ Qt.contains_point (m_limited_viewport_rect_coord limited)
       (scroll_target LP.toPixelPoint LP.toCoordinatePoint limited outside) = false
  /\ scrollView LP.toPixelPoint LP.toCoordinatePoint outside limited = (tt, limited, []).
Proof.
  assert (H1 : Qt.isNull (m_limited_viewport_rect_coord limited) = false)
    by (vm_compute; reflexivity).
  assert (H2 : Qt.isValid (m_limited_viewport_rect_coord limited) = true)
    by (vm_compute; reflexivity).
  assert (H3 : Qt.contains_point (m_limited_viewport_rect_coord limited)
                 (scroll_target LP.toPixelPoint LP.toCoordinatePoint limited outside)
               = false)
    by (vm_compute; reflexivity).
  split; [exact H1|]. split; [exact H2|]. split; [exact H3|].
  exact (proj1 (scroll_outside_pan_limit_is_rejected
                  LP.toPixelPoint LP.toCoordinatePoint limited outside H1 H2 H3)).
Defined.

(** C3, counterexample.  At zoom 17 with bounds 0 and 17, [zoomIn()] then
    [zoomOut()] leaves the zoom at 16. *)
Lemma zoomIn_then_zoomOut_lowers_zoom_at_maximum :
  m_current_zoom at_maximum = 17%Z
  /\ m_current_zoom
       (exec (zoomIn LP.toPixelPoint ;; zoomOut LP.toPixelPoint) at_maximum)
     <> m_current_zoom at_maximum.
Proof.
  split; [vm_compute; reflexivity|]. vm_compute. intro H. discriminate H.
Qed.

Lemma zoomIn_then_zoomOut_restores_witness :
  (m_zoom_minimum fresh <= m_current_zoom fresh < m_zoom_maximum fresh)%Z
  /\ m_current_zoom (exec (zoomIn LP.toPixelPoint ;; zoomOut LP.toPixelPoint) fresh)
     = m_current_zoom fresh.
Proof.
  assert (H : (m_zoom_minimum fresh <= m_current_zoom fresh < m_zoom_maximum fresh)%Z)
    by (vm_compute; split; [discriminate | reflexivity]).
  split; [exact H|].
  exact (zoomIn_then_zoomOut_restores LP.toPixelPoint fresh H).
Defined.


(** The two points end up inside the viewport at zoom 5, focus (5,5). *)
Lemma autozoom_two_points :
  let s' := exec (setMapFocusPoints LP.toPixelPoint LP.toCoordinatePoint
                    two_points true) fresh in
  m_current_zoom s' = 5%Z
  /\ viewportContainsAll LP.toPixelPoint LP.toCoordinatePoint s' two_points = true.
Proof. vm_compute. split; reflexivity. Qed.

(** Why C4 asks for a zoom at or above the minimum: after
    [setZoomMaximum(10)] has left minimum 10, maximum 0 and zoom 0 (C2), the
    automatic zoom on two points 1000 units apart moves nothing; the points
    do not fit and the zoom is not the minimum. *)
Lemma autozoom_after_reversed_bounds :
  let s := exec (setZoomMaximum LP.toPixelPoint 10) fresh in
  let far := [mkPoint (Fin 0) (Fin 0); mkPoint (Fin 1000) (Fin 1000)] in
  let s' := exec (setMapFocusPoints LP.toPixelPoint LP.toCoordinatePoint far true) s in
  viewportContainsAll LP.toPixelPoint LP.toCoordinatePoint s' far = false
  /\ m_current_zoom s' = 0%Z /\ m_zoom_minimum s' = 10%Z.
Proof. vm_compute. repeat split; reflexivity. Qed.



Lemma animation_request_rejected_while_animating_witness :
  m_animated_mutex animating = true
  /\ setMapFocusPointAnimated (mkPoint (Fin 3) (Fin 3)) 2 50 animating
     = (tt, animating, [DebugAlreadyAnimating])
  /\ exists s_end,
       deliver_ticks LP.toPixelPoint LP.toCoordinatePoint 6 1
         (exec (setMapFocusPointAnimated (mkPoint (Fin 3) (Fin 3)) 2 50) animating)
       = (s_end, O)
       /\ animation_of s_end = (mkPoint (Fin 8) (Fin 8), 0%Z, 100%Z, false).
Proof.
  assert (H : m_animated_mutex animating = true) by reflexivity.
  split; [exact H|].
  exact (animation_request_rejected_while_animating
           LP.toPixelPoint LP.toCoordinatePoint animating
           (mkPoint (Fin 3) (Fin 3)) 2 50 H).
Defined.

End Runs.

(* ===================================================================== *)
(** ** Zoom: range, target and side effects                               *)
(* ===================================================================== *)

Lemma redraw_requests_app (e1 e2 : list Effect) :
  redraw_requests (e1 ++ e2) = (redraw_requests e1 + redraw_requests e2)%nat.
Proof. unfold redraw_requests. rewrite filter_app, length_app. reflexivity. Qed.

Lemma aborts_app (e1 e2 : list Effect) :
  aborts (e1 ++ e2) = (aborts e1 + aborts e2)%nat.
Proof. unfold aborts. rewrite filter_app, length_app. reflexivity. Qed.

Lemma whileM_stops (fuel : nat) (cond : QMapControl -> bool) (body : M unit)
    (s : QMapControl) :
  cond s = false -> exec (whileM fuel cond body) s = s.
Proof.
  intro H. destruct fuel as [|fuel]; [reflexivity|].
  rewrite whileM_step, H. reflexivity.
Qed.

Section ZoomEffects.

Variable toPixelPoint : QPointF -> Z -> QPointF.

Abbreviation zoomIn'' := (zoomIn toPixelPoint).
Abbreviation zoomOut'' := (zoomOut toPixelPoint).
Abbreviation setZoom'' := (setZoom toPixelPoint).

Lemma zoomIn_effects (s : QMapControl) :
  redraw_requests (effects zoomIn'' s) = (if (m_current_zoom s <? m_zoom_maximum s)%Z
                                          then 1 else 0)%nat
  /\ aborts (effects zoomIn'' s) = (if (m_current_zoom s <? m_zoom_maximum s)%Z
                                    then 1 else 0)%nat.
Proof.
  unfold zoomIn, redrawPrimaryScreen, updateControls. run_monad.
  destruct (m_current_zoom s <? m_zoom_maximum s)%Z; [|split; reflexivity].
  destruct (m_primary_screen_scaled_enabled s); split; reflexivity.
Qed.

Lemma zoomOut_effects (s : QMapControl) :
  redraw_requests (effects zoomOut'' s) = (if (m_current_zoom s >? m_zoom_minimum s)%Z
                                           then 1 else 0)%nat
  /\ aborts (effects zoomOut'' s) = (if (m_current_zoom s >? m_zoom_minimum s)%Z
                                     then 1 else 0)%nat.
Proof.
  unfold zoomOut, redrawPrimaryScreen, updateControls. run_monad.
  destruct (m_current_zoom s >? m_zoom_minimum s)%Z; [|split; reflexivity].
  destruct (m_primary_screen_scaled_enabled s); split; reflexivity.
Qed.

Lemma repeat_zoomIn_effects (n : nat) (s : QMapControl) :
  redraw_requests (effects (repeatM n zoomIn'') s)
  = Z.to_nat (m_current_zoom (exec (repeatM n zoomIn'') s) - m_current_zoom s)
  /\ aborts (effects (repeatM n zoomIn'') s)
     = Z.to_nat (m_current_zoom (exec (repeatM n zoomIn'') s) - m_current_zoom s).
Proof.
  revert s; induction n as [|n IH]; intro s.
  - cbn. rewrite Z.sub_diag. split; reflexivity.
  - cbn [repeatM]. rewrite effects_bind, exec_bind, redraw_requests_app, aborts_app.
    destruct (IH (exec zoomIn'' s)) as [IHr IHa]. rewrite IHr, IHa.
    destruct (zoomIn_effects s) as [Hr Ha]. rewrite Hr, Ha.
    rewrite repeat_zoomIn_exec, zoomIn_exec.
    destruct (Z.ltb_spec (m_current_zoom s) (m_zoom_maximum s)); cbn; split; lia.
Qed.

Lemma repeat_zoomOut_effects (n : nat) (s : QMapControl) :
  redraw_requests (effects (repeatM n zoomOut'') s)
  = Z.to_nat (m_current_zoom s - m_current_zoom (exec (repeatM n zoomOut'') s))
  /\ aborts (effects (repeatM n zoomOut'') s)
     = Z.to_nat (m_current_zoom s - m_current_zoom (exec (repeatM n zoomOut'') s)).
Proof.
  revert s; induction n as [|n IH]; intro s.
  - cbn. rewrite Z.sub_diag. split; reflexivity.
  - cbn [repeatM]. rewrite effects_bind, exec_bind, redraw_requests_app, aborts_app.
    destruct (IH (exec zoomOut'' s)) as [IHr IHa]. rewrite IHr, IHa.
    destruct (zoomOut_effects s) as [Hr Ha]. rewrite Hr, Ha.
    rewrite repeat_zoomOut_exec, zoomOut_exec.
    destruct (Z.gtb_spec (m_current_zoom s) (m_zoom_minimum s)); cbn; split; lia.
Qed.

(** X1. Whatever the state and the argument, [setZoomMinimum] and
    [setZoomMaximum] leave the zoom maximum at or below the zoom minimum. *)
Theorem zoom_bound_update_reverses_range (s : QMapControl) (zoom : Z) :
  (m_zoom_maximum (exec (setZoomMaximum toPixelPoint zoom) s)
   <= m_zoom_minimum (exec (setZoomMaximum toPixelPoint zoom) s))%Z
  /\ (m_zoom_maximum (exec (setZoomMinimum toPixelPoint zoom) s)
      <= m_zoom_minimum (exec (setZoomMinimum toPixelPoint zoom) s))%Z.
Proof.
  rewrite setZoomMaximum_exec, setZoomMinimum_exec.
  split; apply checkZoom_orders_bounds_backwards.
Qed.

(** X2. From a state with zoomMin <= zoomCurrent <= zoomMax, [setZoom(zoom)]
    ends with the zoom at [zoom] clamped into the range; the bounds are
    unchanged. *)
Theorem setZoom_reaches_clamped_target (s : QMapControl) (zoom : Z) :
  zoom_in_range s ->
  let s' := exec (setZoom'' zoom) s in
  m_current_zoom s' = Z.max (m_zoom_minimum s) (Z.min zoom (m_zoom_maximum s))
  /\ m_zoom_minimum s' = m_zoom_minimum s
  /\ m_zoom_maximum s' = m_zoom_maximum s.
Proof.
  unfold zoom_in_range. intros [Hlo Hhi]. cbv zeta.
  rewrite setZoom_exec. cbv zeta. unfold clamped.
  repeat match goal with
    | |- context [(?a <? ?b)%Z] => destruct (Z.ltb_spec a b)
    | |- context [(?a >? ?b)%Z] => destruct (Z.gtb_spec a b)
    end; cbn; repeat split; lia.
Qed.

(** X3. [setZoom] goes through single steps: it aborts the image loading
    and requests a redraw once per zoom level it moves, whatever the state. *)
Theorem setZoom_redraws_once_per_level (s : QMapControl) (zoom : Z) :
  let moved := Z.abs_nat (m_current_zoom (exec (setZoom'' zoom) s) - m_current_zoom s) in
  redraw_requests (effects (setZoom'' zoom) s) = moved
  /\ aborts (effects (setZoom'' zoom) s) = moved.
Proof.
  cbv zeta.
  assert (Hrun : setZoom'' zoom s
                 = (if negb (m_current_zoom s =? clamped zoom s)%Z
                    then if (m_current_zoom s >? clamped zoom s)%Z
                         then repeatM (Z.to_nat (m_current_zoom s - clamped zoom s)) zoomOut''
                         else repeatM (Z.to_nat (clamped zoom s - m_current_zoom s)) zoomIn''
                    else ret tt) s).
  { unfold setZoom, bind, get. fold (clamped zoom s).
    destruct ((if negb (m_current_zoom s =? clamped zoom s)%Z
               then if (m_current_zoom s >? clamped zoom s)%Z
                    then repeatM (Z.to_nat (m_current_zoom s - clamped zoom s)) zoomOut''
                    else repeatM (Z.to_nat (clamped zoom s - m_current_zoom s)) zoomIn''
               else ret tt) s) as [[u s1] e1]. destruct u. reflexivity. }
  unfold effects, exec. rewrite Hrun.
  destruct (negb (m_current_zoom s =? clamped zoom s)%Z).
  - destruct (m_current_zoom s >? clamped zoom s)%Z.
    + destruct (repeat_zoomOut_effects
                  (Z.to_nat (m_current_zoom s - clamped zoom s)) s) as [Hr Ha].
      unfold effects, exec in Hr, Ha. rewrite Hr, Ha.
      pose proof (repeat_zoomOut_exec toPixelPoint
                    (Z.to_nat (m_current_zoom s - clamped zoom s)) s) as He.
      unfold exec in He. rewrite He. cbn. split; lia.
    + destruct (repeat_zoomIn_effects
                  (Z.to_nat (clamped zoom s - m_current_zoom s)) s) as [Hr Ha].
      unfold effects, exec in Hr, Ha. rewrite Hr, Ha.
      pose proof (repeat_zoomIn_exec toPixelPoint
                    (Z.to_nat (clamped zoom s - m_current_zoom s)) s) as He.
      unfold exec in He. rewrite He. cbn. split; lia.
  - cbn. rewrite Z.sub_diag. split; reflexivity.
Qed.

End ZoomEffects.

(* ===================================================================== *)
(** ** What the operations leave alone                                    *)
(* ===================================================================== *)

Lemma zoom_moves_within_refl (s : QMapControl) : zoom_moves_within s s.
Proof. unfold zoom_moves_within. repeat split; lia. Qed.

Lemma zoom_moves_within_trans (s1 s2 s3 : QMapControl) :
  zoom_moves_within s1 s2 -> zoom_moves_within s2 s3 -> zoom_moves_within s1 s3.
Proof.
  unfold zoom_moves_within. intros (A1 & A2 & A3) (B1 & B2 & B3).
  rewrite A1, A2 in *. repeat split; try congruence; lia.
Qed.

Ltac same_zoom := unfold zoom_moves_within; cbn; repeat split; lia.

Lemma whileM_preserves (R : QMapControl -> QMapControl -> Prop)
    (cond : QMapControl -> bool) (body : M unit) :
  (forall s, R s s) ->
  (forall s1 s2 s3, R s1 s2 -> R s2 s3 -> R s1 s3) ->
  (forall s, R s (exec body s)) ->
  forall fuel s, R s (exec (whileM fuel cond body) s).
Proof.
  intros Hrefl Htrans Hbody fuel. induction fuel as [|fuel IH]; intro s.
  - apply Hrefl.
  - rewrite whileM_step. destruct (cond s); [|apply Hrefl].
    eapply Htrans; [apply Hbody | apply IH].
Qed.

Section OperationFrames.

Variable toPixelPoint : QPointF -> Z -> QPointF.
Variable toCoordinatePoint : QPointF -> Z -> QPointF.

Abbreviation scroll := (scrollView toPixelPoint toCoordinatePoint).
Abbreviation tick := (animatedTick toPixelPoint toCoordinatePoint).
Abbreviation focusOn := (setMapFocusPoints toPixelPoint toCoordinatePoint).
Abbreviation target_of := (scroll_target toPixelPoint toCoordinatePoint).

Lemma zoomIn_moves_within (s : QMapControl) :
  zoom_moves_within s (exec (zoomIn toPixelPoint) s).
Proof.
  rewrite zoomIn_exec. unfold zoom_moves_within.
  destruct (Z.ltb_spec (m_current_zoom s) (m_zoom_maximum s)); cbn; repeat split; lia.
Qed.

Lemma zoomOut_moves_within (s : QMapControl) :
  zoom_moves_within s (exec (zoomOut toPixelPoint) s).
Proof.
  rewrite zoomOut_exec. unfold zoom_moves_within.
  destruct (Z.gtb_spec (m_current_zoom s) (m_zoom_minimum s)); cbn; repeat split; lia.
Qed.

Lemma setZoom_moves_within (zoom : Z) (s : QMapControl) :
  zoom_moves_within s (exec (setZoom toPixelPoint zoom) s).
Proof.
  rewrite setZoom_exec. cbv zeta. unfold zoom_moves_within.
  destruct (m_current_zoom s >? clamped zoom s)%Z; cbn; repeat split; lia.
Qed.

(** The scroll either changes nothing or stores its target as the focus, and
    it stores it only when the limit rectangle is null or valid and
    containing the target. *)
Lemma scrollView_exec (delta_px : QPointF) (s : QMapControl) :
  exec (scroll delta_px) s
  = if Qt.isNull (m_limited_viewport_rect_coord s)
       || (Qt.isValid (m_limited_viewport_rect_coord s)
           && Qt.contains_point (m_limited_viewport_rect_coord s) (target_of s delta_px))
    then set_map_focus_coord (target_of s delta_px) s
    else s.
Proof.
  unfold scrollView. rewrite exec_bind.
  change (result get s) with s. change (exec get s) with s.
  unfold scroll_target.
  match goal with |- context [if ?c then _ else _] => destruct c end;
    [apply setMapFocusPoint_exec | reflexivity].
Qed.

Lemma animatedTick_exec (s : QMapControl) :
  exec tick s
  = if (m_animated_steps s >? 0)%Z
    then
      let delta_px :=
        Qt.pt_div
          (Qt.pt_sub (toPixelPoint (m_animated_map_focus_point s) (m_current_zoom s))
             (toPixelPoint (m_map_focus_coord s) (m_current_zoom s)))
          (of_int (m_animated_steps s)) in
      let s1 := exec (scroll delta_px) s in
      set_animation (m_animated_map_focus_point s1) (m_animated_steps s1 - 1)
        (m_animated_interval s1) (m_animated_mutex s1) s1
    else set_animation (m_animated_map_focus_point s) (m_animated_steps s)
           (m_animated_interval s) false s.
Proof.
  unfold animatedTick. rewrite exec_bind.
  change (result get s) with s. change (exec get s) with s.
  destruct (m_animated_steps s >? 0)%Z; [|reflexivity].
  cbv zeta. rewrite exec_bind, exec_bind, exec_bind. reflexivity.
Qed.

Lemma scrollView_settings (delta_px : QPointF) (s : QMapControl) :
  view_settings (exec (scroll delta_px) s) = view_settings s.
Proof.
  rewrite scrollView_exec.
  match goal with |- context [if ?c then _ else _] => destruct c end; reflexivity.
Qed.

Lemma animatedTick_settings (s : QMapControl) :
  view_settings (exec tick s) = view_settings s.
Proof.
  rewrite animatedTick_exec. destruct (m_animated_steps s >? 0)%Z; [|reflexivity].
  cbv zeta. match goal with |- context [exec (scroll ?d) s] =>
    pose proof (scrollView_settings d s) as H; set (s1 := exec (scroll d) s) in *
  end.
  rewrite <- H. reflexivity.
Qed.

Lemma settings_zoom_moves_within (s s' : QMapControl) :
  view_settings s' = view_settings s -> zoom_moves_within s s'.
Proof.
  unfold view_settings, zoom_moves_within. intro H. injection H as _ _ _ H1 H2 H3.
  rewrite H1, H2, H3. repeat split; lia.
Qed.

(** The automatic zoom leaves the object as [setMapFocusPoint] of the mean
    left it, up to the zoom. *)
Lemma setMapFocusPoints_form (points_coord : list QPointF) (auto_zoom : bool)
    (s : QMapControl) :
  let s0 := set_map_focus_coord (calculateMapFocusPoint points_coord) s in
  exists z, exec (focusOn points_coord auto_zoom) s = set_current_zoom z s0
            /\ zoom_moves_within s (set_current_zoom z s0).
Proof.
  cbv zeta. set (s0 := set_map_focus_coord _ s).
  assert (H0 : zoom_moves_within s s0) by (subst s0; same_zoom).
  destruct auto_zoom.
  - rewrite setMapFocusPoints_exec. cbv zeta. fold s0.
    destruct (zoom_out_loop toPixelPoint toCoordinatePoint points_coord
                (Z.to_nat (m_current_zoom s0 - m_zoom_minimum s0)) s0)
      as (z1 & E1 & _).
    pose proof (whileM_preserves zoom_moves_within
                  (zoom_out_wanted toPixelPoint toCoordinatePoint points_coord)
                  (zoomOut toPixelPoint)
                  zoom_moves_within_refl zoom_moves_within_trans zoomOut_moves_within
                  (Z.to_nat (m_current_zoom s0 - m_zoom_minimum s0)) s0) as W1.
    rewrite E1 in *.
    destruct (zoom_in_loop toPixelPoint toCoordinatePoint points_coord
                (Z.to_nat (m_zoom_maximum (set_current_zoom z1 s0)
                           - m_current_zoom (set_current_zoom z1 s0)))
                (set_current_zoom z1 s0)) as (z2 & E2 & _).
    pose proof (whileM_preserves zoom_moves_within
                  (zoom_in_wanted toPixelPoint toCoordinatePoint points_coord)
                  (zoomIn toPixelPoint)
                  zoom_moves_within_refl zoom_moves_within_trans zoomIn_moves_within
                  (Z.to_nat (m_zoom_maximum (set_current_zoom z1 s0)
                             - m_current_zoom (set_current_zoom z1 s0)))
                  (set_current_zoom z1 s0)) as W2.
    rewrite E2 in *. rewrite set_current_zoom_twice in *.
    assert (W : zoom_moves_within s (set_current_zoom z2 s0)).
    { eapply zoom_moves_within_trans; [exact H0|].
      eapply zoom_moves_within_trans; [exact W1 | exact W2]. }
    destruct (zoom_out_wanted toPixelPoint toCoordinatePoint points_coord
                (set_current_zoom z2 s0)).
    + pose proof (zoomOut_moves_within (set_current_zoom z2 s0)) as W3.
      rewrite zoomOut_exec in *.
      destruct (m_current_zoom (set_current_zoom z2 s0)
                >? m_zoom_minimum (set_current_zoom z2 s0))%Z.
      * rewrite set_current_zoom_twice in *. eexists. split; [reflexivity|].
        eapply zoom_moves_within_trans; [exact W | exact W3].
      * exists z2. split; [reflexivity | exact W].
    + exists z2. split; [reflexivity | exact W].
  - exists (m_current_zoom s0).
    rewrite set_current_zoom_same. split; [|exact H0].
    unfold setMapFocusPoints. rewrite exec_bind, setMapFocusPoint_exec. reflexivity.
Qed.

Lemma perform_moves_within (op : Operation) (s : QMapControl) :
  zoom_moves_within s (exec (perform toPixelPoint toCoordinatePoint op) s).
Proof.
  destruct op; cbn [perform].
  - apply zoomIn_moves_within.
  - apply zoomOut_moves_within.
  - apply setZoom_moves_within.
  - rewrite setMapFocusPoint_exec. same_zoom.
  - destruct (setMapFocusPoints_form points_coord auto_zoom s) as (z & E & W).
    rewrite E. exact W.
  - unfold setMapFocusPointAnimated. run_monad.
    destruct (m_animated_mutex s); same_zoom.
  - apply settings_zoom_moves_within, animatedTick_settings.
  - apply settings_zoom_moves_within, scrollView_settings.
  - unfold setViewportSize. rewrite !exec_bind. unfold updateControls.
    rewrite exec_bind, redrawPrimaryScreen_exec. same_zoom.
  - same_zoom.
  - same_zoom.
  - unfold requestRedraw. rewrite redrawPrimaryScreen_exec. same_zoom.
  - same_zoom.
Qed.

(** X4. No sequence of operations other than the two bound setters changes
    the zoom bounds, and from a state with zoomMin <= zoomCurrent <= zoomMax
    every such sequence ends in a state with the zoom in that range. *)
Theorem operations_keep_zoom_in_range (ops : list Operation) (s : QMapControl) :
  let s' := exec (perform_all toPixelPoint toCoordinatePoint ops) s in
  m_zoom_minimum s' = m_zoom_minimum s
  /\ m_zoom_maximum s' = m_zoom_maximum s
  /\ (zoom_in_range s -> zoom_in_range s').
Proof.
  cbv zeta.
  assert (W : zoom_moves_within s
                (exec (perform_all toPixelPoint toCoordinatePoint ops) s)).
  { revert s. induction ops as [|op ops IH]; intro s.
    - apply zoom_moves_within_refl.
    - cbn [perform_all]. rewrite exec_bind.
      eapply zoom_moves_within_trans; [apply perform_moves_within | apply IH]. }
  destruct W as (H1 & H2 & H3). split; [exact H1|]. split; [exact H2|].
  unfold zoom_in_range. rewrite H1, H2. lia.
Qed.


End OperationFrames.

(* ===================================================================== *)
(** ** The pan limit under scrolls and animations                         *)
(* ===================================================================== *)

Lemma valid_rect_not_null (r : QRectF) : Qt.isValid r = true -> Qt.isNull r = false.
Proof.
  unfold Qt.isValid, Qt.isNull. intro H. apply andb_prop in H. destruct H as [Hw _].
  destruct (rw r) as [w|]; [|discriminate]. unfold zero in *. to_Q.
  assert (E : (Fin w =? Fin 0)%dbl = false) by (apply eqb_Fin_false; lra).
  rewrite E. reflexivity.
Qed.

Section PanLimitInvariant.

Variable toPixelPoint : QPointF -> Z -> QPointF.
Variable toCoordinatePoint : QPointF -> Z -> QPointF.

Abbreviation scroll' := (scrollView toPixelPoint toCoordinatePoint).
Abbreviation tick' := (animatedTick toPixelPoint toCoordinatePoint).
Abbreviation deliver'' := (deliver_ticks toPixelPoint toCoordinatePoint).
Abbreviation target_of' := (scroll_target toPixelPoint toCoordinatePoint).

Lemma scrollView_inside (delta_px : QPointF) (s : QMapControl) :
  Qt.isValid (m_limited_viewport_rect_coord s) = true ->
  focus_inside_limit s ->
  focus_inside_limit (exec (scroll' delta_px) s).
Proof.
  intros Hv Hin. rewrite scrollView_exec, (valid_rect_not_null _ Hv), Hv. cbn [orb andb].
  destruct (Qt.contains_point (m_limited_viewport_rect_coord s) (target_of' s delta_px))
    eqn:E; [exact E | exact Hin].
Qed.

Lemma animatedTick_inside (s : QMapControl) :
  Qt.isValid (m_limited_viewport_rect_coord s) = true ->
  focus_inside_limit s ->
  focus_inside_limit (exec tick' s).
Proof.
  intros Hv Hin. rewrite animatedTick_exec.
  destruct (m_animated_steps s >? 0)%Z; [|exact Hin].
  cbv zeta. match goal with |- context [exec (scroll' ?d) s] =>
    pose proof (scrollView_inside d s Hv Hin) as H
  end. exact H.
Qed.

(** X6. With a valid limit rectangle that contains the focus, a scroll
    leaves the focus inside the rectangle, whatever the delta. *)
Theorem scrollView_keeps_focus_inside_limit (delta_px : QPointF) (s : QMapControl) :
  Qt.isValid (m_limited_viewport_rect_coord s) = true ->
  focus_inside_limit s ->
  let s' := exec (scroll' delta_px) s in
  focus_inside_limit s'
  /\ m_limited_viewport_rect_coord s' = m_limited_viewport_rect_coord s.
Proof.
  intros Hv Hin. cbv zeta. split; [apply scrollView_inside; assumption|].
  pose proof (scrollView_settings toPixelPoint toCoordinatePoint delta_px s) as H.
  unfold view_settings in H. injection H as _ _ H _ _ _. exact H.
Qed.

(** X7. With a valid limit rectangle that contains the focus, the ticks of
    an animation never take the focus out of the rectangle, whatever the
    target, and they change neither the zoom, nor the bounds, nor the
    viewport, nor the rectangle. *)
Theorem animation_keeps_focus_inside_limit (fuel pending : nat) (s : QMapControl) :
  Qt.isValid (m_limited_viewport_rect_coord s) = true ->
  focus_inside_limit s ->
  let s' := fst (deliver'' fuel pending s) in
  focus_inside_limit s' /\ view_settings s' = view_settings s.
Proof.
  revert pending s. induction fuel as [|fuel IH]; intros pending s Hv Hin.
  - cbn. split; [exact Hin | reflexivity].
  - destruct pending as [|pending]; [cbn; split; [exact Hin | reflexivity]|].
    cbn [deliver_ticks]. rewrite (run_eta tick' s).
    pose proof (animatedTick_settings toPixelPoint toCoordinatePoint s) as Hs.
    assert (Hv' : Qt.isValid (m_limited_viewport_rect_coord (exec tick' s)) = true).
    { unfold view_settings in Hs. injection Hs as _ _ Hs _ _ _. rewrite Hs. exact Hv. }
    destruct (IH (pending + scheduled_ticks (effects tick' s))%nat (exec tick' s) Hv'
                (animatedTick_inside s Hv Hin)) as [H1 H2].
    split; [exact H1 | congruence].
Qed.

(** X8. After [setLimitedViewportRect] with finite corners of which the
    second is not strictly below and to the right of the first, and which are
    not the same point, every scroll is rejected: the object is unchanged and
    nothing happens. *)
Theorem misordered_limit_blocks_every_scroll
    (a b c d : Q) (delta_px : QPointF) (s : QMapControl) :
  c <= a \/ d <= b ->
  ~ (c == a /\ d == b) ->
  let s' := exec (setLimitedViewportRect (mkPoint (Fin a) (Fin b))
                    (mkPoint (Fin c) (Fin d))) s in
  scroll' delta_px s' = (tt, s', []).
Proof.
  intros Hord Hne. cbv zeta.
  set (s' := exec _ s).
  assert (Hr : m_limited_viewport_rect_coord s'
               = mkRect (Fin a) (Fin b) (Fin (c - a)) (Fin (d - b))) by reflexivity.
  assert (Hnull : Qt.isNull (m_limited_viewport_rect_coord s') = false).
  { rewrite Hr. unfold Qt.isNull, zero. cbn [rw rh].
    destruct (Fin (c - a) =? Fin 0)%dbl eqn:E1; [|reflexivity].
    destruct (Fin (d - b) =? Fin 0)%dbl eqn:E2; [|reflexivity].
    to_Q. exfalso. apply Hne. split; lra. }
  assert (Hvalid : Qt.isValid (m_limited_viewport_rect_coord s') = false).
  { rewrite Hr. unfold Qt.isValid, zero. cbn [rw rh].
    destruct (Fin (c - a) >? Fin 0)%dbl eqn:E1; [|reflexivity].
    destruct (Fin (d - b) >? Fin 0)%dbl eqn:E2; [|reflexivity].
    to_Q. exfalso. destruct Hord; lra. }
  unfold scrollView, bind, get. cbn beta iota zeta.
  rewrite Hnull, Hvalid. reflexivity.
Qed.

(** X9. After [resetLimitedViewportRect], and after [setLimitedViewportRect]
    with twice the same finite corner, every scroll is applied: the focus
    becomes the coordinate the scroll asks for. *)
Theorem null_limit_lets_every_scroll_through
    (a b a' b' : Q) (delta_px : QPointF) (s : QMapControl) :
  a' == a -> b' == b ->
  m_map_focus_coord (exec (resetLimitedViewportRect ;; scroll' delta_px) s)
  = target_of' s delta_px
  /\ m_map_focus_coord
       (exec (setLimitedViewportRect (mkPoint (Fin a) (Fin b))
                (mkPoint (Fin a') (Fin b')) ;; scroll' delta_px) s)
     = target_of' s delta_px.
Proof.
  intros Ha Hb. split.
  - rewrite exec_bind, scrollView_exec. reflexivity.
  - rewrite exec_bind, scrollView_exec.
    set (s1 := exec _ s).
    assert (Hnull : Qt.isNull (m_limited_viewport_rect_coord s1) = true).
    { subst s1. unfold Qt.isNull, zero. cbn [exec setLimitedViewportRect modify fst snd
        m_limited_viewport_rect_coord set_limited_viewport_rect_coord
        Qt.rect_of_corners rw rh pt_x pt_y Dbl.sub].
      assert (E1 : (Fin (a' - a) =? Fin 0)%dbl = true) by (apply eqb_Fin_true; lra).
      assert (E2 : (Fin (b' - b) =? Fin 0)%dbl = true) by (apply eqb_Fin_true; lra).
      rewrite E1, E2. reflexivity. }
    rewrite Hnull. reflexivity.
Qed.

End PanLimitInvariant.

(* ===================================================================== *)
(** ** More on the automatic zoom                                         *)
(* ===================================================================== *)

Section AutoZoomExtra.

Variable toPixelPoint : QPointF -> Z -> QPointF.
Variable toCoordinatePoint : QPointF -> Z -> QPointF.
Variable points_coord : list QPointF.

Abbreviation fits' :=
  (fun s => viewportContainsAll toPixelPoint toCoordinatePoint s points_coord).
Abbreviation out_wanted' := (zoom_out_wanted toPixelPoint toCoordinatePoint points_coord).
Abbreviation in_wanted' := (zoom_in_wanted toPixelPoint toCoordinatePoint points_coord).
Abbreviation autozoom := (setMapFocusPoints toPixelPoint toCoordinatePoint points_coord true).

(** The state after the two loops, and what is known there. *)
Lemma autozoom_after_loops (s : QMapControl) :
  let s0 := set_map_focus_coord (calculateMapFocusPoint points_coord) s in
  exists z1 z2,
    exec autozoom s
    = (if out_wanted' (set_current_zoom z2 s0)
       then exec (zoomOut toPixelPoint) (set_current_zoom z2 s0)
       else set_current_zoom z2 s0)
    /\ exec (whileM (Z.to_nat (m_current_zoom s0 - m_zoom_minimum s0))
               out_wanted' (zoomOut toPixelPoint)) s0 = set_current_zoom z1 s0
    /\ out_wanted' (set_current_zoom z1 s0) = false
    /\ in_wanted' (set_current_zoom z2 s0) = false
    /\ (z1 <= z2)%Z
    /\ zoom_moves_within (set_current_zoom z1 s0) (set_current_zoom z2 s0).
Proof.
  cbv zeta. set (s0 := set_map_focus_coord _ s).
  rewrite setMapFocusPoints_exec. cbv zeta. fold s0.
  destruct (zoom_out_loop toPixelPoint toCoordinatePoint points_coord
              (Z.to_nat (m_current_zoom s0 - m_zoom_minimum s0)) s0)
    as (z1 & E1 & _ & _ & Hdone1).
  rewrite E1.
  destruct (zoom_in_loop toPixelPoint toCoordinatePoint points_coord
              (Z.to_nat (m_zoom_maximum (set_current_zoom z1 s0)
                         - m_current_zoom (set_current_zoom z1 s0)))
              (set_current_zoom z1 s0)) as (z2 & E2 & Hle2 & Hdone2 & _).
  pose proof (whileM_preserves zoom_moves_within in_wanted' (zoomIn toPixelPoint)
                zoom_moves_within_refl zoom_moves_within_trans
                (zoomIn_moves_within toPixelPoint)
                (Z.to_nat (m_zoom_maximum (set_current_zoom z1 s0)
                           - m_current_zoom (set_current_zoom z1 s0)))
                (set_current_zoom z1 s0)) as W2.
  rewrite E2 in *. rewrite set_current_zoom_twice in *.
  exists z1, z2. split; [reflexivity|]. split; [reflexivity|].
  split; [apply Hdone1; lia|]. split; [apply Hdone2; lia|].
  split; [exact Hle2 | exact W2].
Qed.

(** X10. When the automatic zoom ends with all points inside the viewport
    and below the maximum zoom, the points do not all fit one level further
    in: the result is the deepest fitting level of the climb. *)
Theorem autozoom_stops_at_deepest_fit (s : QMapControl) :
  let s' := exec autozoom s in
  fits' s' = true ->
  (m_current_zoom s' < m_zoom_maximum s')%Z ->
  fits' (set_current_zoom (m_current_zoom s' + 1) s') = false.
Proof.
  cbv zeta. destruct (autozoom_after_loops s) as (z1 & z2 & E & _ & _ & Hin & _ & _).
  rewrite E. clear E. set (s0 := set_map_focus_coord _ s) in *.
  destruct (out_wanted' (set_current_zoom z2 s0)) eqn:Hw.
  - unfold zoom_out_wanted in Hw. apply andb_prop in Hw. destruct Hw as [Hnfit Hgt].
    rewrite zoomOut_exec, Hgt. rewrite set_current_zoom_twice. intros _ _.
    cbn [m_current_zoom set_current_zoom set_zoom_fields].
    replace (z2 - 1 + 1)%Z with z2 by lia.
    apply negb_true_iff in Hnfit. exact Hnfit.
  - intros Hfit Hlt. exfalso. unfold zoom_in_wanted in Hin.
    rewrite Hfit in Hin. cbn in Hin, Hlt.
    destruct (Z.ltb_spec z2 (m_zoom_maximum s)); [discriminate | lia].
Qed.

(** When the points fit at every zoom level from the current one up to the
    maximum, the automatic zoom ends at the maximum zoom, or stays where it
    was when it started above the maximum. *)
Lemma autozoom_always_fitting (s : QMapControl) :
  (forall z, (m_current_zoom s <= z <= Z.max (m_current_zoom s) (m_zoom_maximum s))%Z ->
             fits' (set_current_zoom z
                      (set_map_focus_coord (calculateMapFocusPoint points_coord) s))
             = true) ->
  exec autozoom s
  = set_current_zoom (Z.max (m_current_zoom s) (m_zoom_maximum s))
      (set_map_focus_coord (calculateMapFocusPoint points_coord) s).
Proof.
  intro Hfit. destruct (autozoom_after_loops s) as (z1 & z2 & E & E1 & _ & Hin & Hle & W).
  rewrite E. clear E. set (s0 := set_map_focus_coord _ s) in *.
  assert (Hz1 : z1 = m_current_zoom s).
  { rewrite whileM_stops in E1.
    - apply (f_equal m_current_zoom) in E1. cbn in E1. congruence.
    - unfold zoom_out_wanted. rewrite <- (set_current_zoom_same s0), Hfit by (cbn; lia).
      reflexivity. }
  destruct W as (_ & _ & W). cbn in W.
  assert (Hfit2 : fits' (set_current_zoom z2 s0) = true) by (apply Hfit; lia).
  unfold zoom_out_wanted. rewrite Hfit2. cbn [negb andb].
  f_equal. unfold zoom_in_wanted in Hin. rewrite Hfit2 in Hin. cbn in Hin.
  destruct (Z.ltb_spec z2 (m_zoom_maximum s)); [discriminate | lia].
Qed.

(** X11. When all points fit the viewport, centred on their mean, at every
    zoom level from the current one up to the maximum,
    [setMapFocusPoint(points, true)] ends at the maximum zoom with the mean as
    the focus. *)
Theorem autozoom_reaches_maximum_when_always_fitting (s : QMapControl) :
  (m_current_zoom s <= m_zoom_maximum s)%Z ->
  (forall z, (m_current_zoom s <= z <= m_zoom_maximum s)%Z ->
             fits' (set_current_zoom z
                      (set_map_focus_coord (calculateMapFocusPoint points_coord) s))
             = true) ->
  m_current_zoom (exec autozoom s) = m_zoom_maximum s
  /\ m_map_focus_coord (exec autozoom s) = calculateMapFocusPoint points_coord.
Proof.
  intros Hle Hfit. rewrite (autozoom_always_fitting s).
  - cbn. split; [lia | reflexivity].
  - intros z Hz. apply Hfit. lia.
Qed.

End AutoZoomExtra.

Section AutoZoomEmpty.

Variable toPixelPoint : QPointF -> Z -> QPointF.
Variable toCoordinatePoint : QPointF -> Z -> QPointF.

(** X12. With an empty list of points, [setMapFocusPoint(points, true)] sets
    the focus to (NaN, NaN) and zooms in to the maximum zoom (it stays where
    it is when the zoom is already at or above the maximum); without
    automatic zoom it sets the focus to (NaN, NaN) and leaves the zoom. *)
Theorem focus_on_no_points (s : QMapControl) :
  let s' := exec (setMapFocusPoints toPixelPoint toCoordinatePoint [] true) s in
  let s'' := exec (setMapFocusPoints toPixelPoint toCoordinatePoint [] false) s in
  m_map_focus_coord s' = mkPoint NaN NaN
  /\ m_current_zoom s' = Z.max (m_current_zoom s) (m_zoom_maximum s)
  /\ m_map_focus_coord s'' = mkPoint NaN NaN
  /\ m_current_zoom s'' = m_current_zoom s.
Proof.
  cbv zeta.
  rewrite (autozoom_always_fitting toPixelPoint toCoordinatePoint [] s)
    by (intros z _; reflexivity).
  unfold setMapFocusPoints. rewrite exec_bind, setMapFocusPoint_exec.
  repeat split.
Qed.

End AutoZoomEmpty.

(* ===================================================================== *)
(** ** Animations from start to end                                       *)
(* ===================================================================== *)

Section AnimationExtra.

Variable toPixelPoint : QPointF -> Z -> QPointF.
Variable toCoordinatePoint : QPointF -> Z -> QPointF.

Abbreviation deliver3 := (deliver_ticks toPixelPoint toCoordinatePoint).

(** X13. An animation requested with no step or a negative number of steps
    moves nothing: its only tick unlocks the mutex again; focus, zoom and
    limit are as before the request and no tick is pending. *)
Theorem animation_without_steps_moves_nothing
    (s : QMapControl) (coordinate : QPointF) (steps step_interval : Z) :
  m_animated_mutex s = false ->
  (steps <= 0)%Z ->
  deliver3 1 1 (exec (setMapFocusPointAnimated coordinate steps step_interval) s)
  = (set_animation coordinate steps step_interval false s, O).
Proof.
  intros Hfree Hsteps.
  assert (E : exec (setMapFocusPointAnimated coordinate steps step_interval) s
              = set_animation coordinate steps step_interval true s).
  { unfold setMapFocusPointAnimated. run_monad. rewrite Hfree. reflexivity. }
  rewrite E. cbn [deliver_ticks].
  rewrite (run_eta (animatedTick toPixelPoint toCoordinatePoint) _).
  rewrite animatedTick_exec.
  assert (Ht : effects (animatedTick toPixelPoint toCoordinatePoint)
                 (set_animation coordinate steps step_interval true s) = []).
  { unfold animatedTick. rewrite effects_bind.
    change (result get ?x) with x. change (exec get ?x) with x.
    cbn [m_animated_steps set_animation].
    destruct (Z.gtb_spec steps 0); [lia | reflexivity]. }
  rewrite Ht. cbn [m_animated_steps set_animation].
  destruct (Z.gtb_spec steps 0); [lia | reflexivity].
Qed.

(** X14. Once an animation has run its ticks the mutex is free again: a new
    request made then is accepted, stores its target, steps and interval and
    schedules its first tick. *)
Theorem animation_can_restart_after_completion
    (s : QMapControl) (c1 c2 : QPointF) (n1 i1 n2 i2 : Z) :
  m_animated_mutex s = false ->
  exists s_end,
    deliver3 (S (Z.to_nat n1)) 1 (exec (setMapFocusPointAnimated c1 n1 i1) s) = (s_end, O)
    /\ animation_of (exec (setMapFocusPointAnimated c2 n2 i2) s_end) = (c2, n2, i2, true)
    /\ effects (setMapFocusPointAnimated c2 n2 i2) s_end = [SingleShotAnimatedTick i2].
Proof.
  intro Hfree.
  destruct (animation_request_accepted s c1 n1 i1 Hfree) as [Ha _].
  unfold animation_of in Ha. injection Ha as H1 H2 H3 H4.
  destruct (animation_runs_to_completion toPixelPoint toCoordinatePoint (Z.to_nat n1)
              (exec (setMapFocusPointAnimated c1 n1 i1) s)) as (s_end & E & Hend).
  { rewrite H2. reflexivity. }
  exists s_end. split; [exact E|].
  apply animation_request_accepted.
  unfold animation_of in Hend. injection Hend as _ _ _ Hm. exact Hm.
Qed.

End AnimationExtra.

(* ===================================================================== *)
(** ** How far a pan can go before the backbuffer is stale                *)
(* ===================================================================== *)


Section PanTolerance.

Variable toPixelPoint : QPointF -> Z -> QPointF.


End PanTolerance.

(* ===================================================================== *)
(** ** Visibility of geometries                                           *)
(* ===================================================================== *)

Lemma geb_Fin_true (x y : Q) : dbl_geb (Fin x) (Fin y) = true <-> y <= x.
Proof. unfold dbl_geb. apply Qle_bool_iff. Qed.

Lemma geb_Fin_false (x y : Q) : dbl_geb (Fin x) (Fin y) = false <-> x < y.
Proof.
  unfold dbl_geb. split.
  - intro H. apply Qnot_le_lt. intro Hle. apply Qle_bool_iff in Hle. congruence.
  - intro H. destruct (Qle_bool y x) eqn:E; [|reflexivity].
    apply Qle_bool_iff in E. exfalso. eapply Qlt_not_le; eauto.
Qed.

Ltac to_Q' :=
  repeat match goal with
    | H : dbl_geb (Fin _) (Fin _) = true |- _ => apply geb_Fin_true in H
    | H : dbl_geb (Fin _) (Fin _) = false |- _ => apply geb_Fin_false in H
    end; to_Q.

Ltac split_comparisons :=
  repeat match goal with
    | |- context [if (?a <? ?b)%dbl then _ else _] =>
        let H := fresh "C" in destruct (a <? b)%dbl eqn:H; cbn [Dbl.add orb] in *
    | |- context [if (?a =? ?b)%dbl then _ else _] =>
        let H := fresh "C" in destruct (a =? b)%dbl eqn:H; cbn [Dbl.add orb] in *
    | |- context [(?a <? ?b)%dbl || _] =>
        let H := fresh "C" in destruct (a <? b)%dbl eqn:H; cbn [Dbl.add orb] in *
    | |- context [if (?a >? ?b)%dbl then _ else _] =>
        let H := fresh "C" in destruct (a >? b)%dbl eqn:H; cbn [Dbl.add orb] in *
    | |- context [dbl_geb ?a ?b || _] =>
        let H := fresh "C" in destruct (dbl_geb a b) eqn:H; cbn [Dbl.add orb] in *
    | |- context [if dbl_geb ?a ?b then _ else _] =>
        let H := fresh "C" in destruct (dbl_geb a b) eqn:H; cbn [Dbl.add orb] in *
    end.

(** On one axis, with finite numbers, an interval that contains another
    intersects it. *)
Lemma axis_contains_intersects (p1 w1 p2 w2 : Q) :
  Qt.axis_contains_span (Fin p1) (Fin w1) (Fin p2) (Fin w2) = true ->
  QtGeometry.axis_intersects (Fin p1) (Fin w1) (Fin p2) (Fin w2) = true.
Proof.
  unfold Qt.axis_contains_span, QtGeometry.axis_intersects, Qt.span, zero.
  destruct (Fin w1 <? Fin 0)%dbl eqn:W1; destruct (Fin w2 <? Fin 0)%dbl eqn:W2;
    cbn [Dbl.add];
    destruct (Fin _ =? Fin _)%dbl eqn:N1; try discriminate;
    destruct (Fin _ =? Fin _)%dbl eqn:N2 in |- *; try discriminate;
    split_comparisons; intro Hc; try discriminate Hc; try reflexivity;
    to_Q'; exfalso;
    repeat match goal with H : ~ _ == _ |- _ => revert H end; intros; lra.
Qed.

Lemma contains_rect_intersects (r1 r2 : QRectF) :
  finite_rect r1 -> finite_rect r2 ->
  Qt.contains_rect r1 r2 = true -> QtGeometry.intersects r1 r2 = true.
Proof.
  intros (A1 & A2 & A3 & A4) (B1 & B2 & B3 & B4).
  unfold Qt.contains_rect, QtGeometry.intersects.
  destruct (xp r1), (yp r1), (rw r1), (rh r1); try discriminate.
  destruct (xp r2), (yp r2), (rw r2), (rh r2); try discriminate.
  destruct (Qt.axis_contains_span (Fin q) (Fin q1) (Fin q3) (Fin q5)) eqn:Ex;
    [|discriminate].
  intro Ey. rewrite (axis_contains_intersects _ _ _ _ Ex).
  apply axis_contains_intersects, Ey.
Qed.

Section VisibilityProofs.

Variable toPixelPoint : QPointF -> Z -> QPointF.
Variable toCoordinatePoint : QPointF -> Z -> QPointF.
Variable AnyGeometry : Type.
Variable boundingBox : AnyGeometry -> Z -> QRectF.

Abbreviation visible :=
  (isGeometryVisible toPixelPoint toCoordinatePoint AnyGeometry boundingBox).

(** X16. A geometry that [isGeometryVisible] reports as totally visible is
    also reported as partially visible, when the viewport rectangle and the
    bounding box consist of finite numbers; a null geometry is never visible. *)
Theorem totally_visible_is_partially_visible (s : QMapControl) (g : AnyGeometry) :
  finite_rect (getViewportRect toPixelPoint toCoordinatePoint s) ->
  finite_rect (boundingBox g (m_current_zoom s)) ->
  visible s (Some g) false = true ->
  visible s (Some g) true = true
  /\ visible s None false = false /\ visible s None true = false.
Proof.
  intros Hv Hb. unfold isGeometryVisible.
  destruct (Qt.isValid (getViewportRect toPixelPoint toCoordinatePoint s));
    [|discriminate].
  intro H. split; [|split; reflexivity].
  apply contains_rect_intersects; assumption.
Qed.

End VisibilityProofs.

(** The loop of [boundingRect] on one coordinate: when every value is the
    number [x0], so are both bounds. *)
Lemma stretch_same (x0 : Q) (v lo hi : double) :
  is_number x0 v -> is_number x0 lo -> is_number x0 hi ->
  is_number x0 (fst (QtGeometry.stretch v (lo, hi)))
  /\ is_number x0 (snd (QtGeometry.stretch v (lo, hi))).
Proof.
  unfold is_number, QtGeometry.stretch. intros Hv Hlo Hhi.
  destruct (v <? lo)%dbl; [split; assumption|].
  destruct (v >? hi)%dbl; split; assumption.
Qed.

Lemma bounds_loop_x (pts : list QPointF) (bx bys : double * double) :
  fst (QtGeometry.bounds_loop pts bx bys)
  = fold_left (fun b p => QtGeometry.stretch (pt_x p) b) pts bx.
Proof.
  revert bx bys; induction pts as [|p pts IH]; intros bx bys; [reflexivity|].
  cbn [QtGeometry.bounds_loop fold_left]. apply IH.
Qed.

Lemma bounds_loop_y (pts : list QPointF) (bx bys : double * double) :
  snd (QtGeometry.bounds_loop pts bx bys)
  = fold_left (fun b p => QtGeometry.stretch (pt_y p) b) pts bys.
Proof.
  revert bx bys; induction pts as [|p pts IH]; intros bx bys; [reflexivity|].
  cbn [QtGeometry.bounds_loop fold_left]. apply IH.
Qed.

Lemma fold_stretch_same (coord : QPointF -> double) (x0 : Q) (pts : list QPointF)
    (lo hi : double) :
  Forall (fun p => is_number x0 (coord p)) pts ->
  is_number x0 lo -> is_number x0 hi ->
  is_number x0 (fst (fold_left (fun b p => QtGeometry.stretch (coord p) b) pts (lo, hi)))
  /\ is_number x0 (snd (fold_left (fun b p => QtGeometry.stretch (coord p) b) pts (lo, hi))).
Proof.
  intro Hall. revert lo hi. induction Hall as [|p pts Hp _ IH]; intros lo hi Hlo Hhi.
  - split; assumption.
  - cbn [fold_left].
    destruct (stretch_same x0 (coord p) lo hi Hp Hlo Hhi) as [H1 H2].
    destruct (QtGeometry.stretch (coord p) (lo, hi)) as [lo' hi'].
    apply IH; assumption.
Qed.

(** An extent between two doubles that are the same number is an empty
    interval for [contains] and [intersects]. *)
Lemma empty_extent (x0 : Q) (lo hi : double) :
  is_number x0 lo -> is_number x0 hi ->
  exists a b, lo = Fin a /\ (hi - lo)%dbl = Fin b /\ b == 0.
Proof.
  unfold is_number. destruct lo as [a|], hi as [b|]; cbn; try contradiction.
  intros Ha Hb. exists a, (b - a). repeat split. lra.
Qed.

Lemma empty_second_span_not_contained (p1 w1 : double) (a b : Q) :
  b == 0 -> Qt.axis_contains_span p1 w1 (Fin a) (Fin b) = false.
Proof.
  intro Hb. unfold Qt.axis_contains_span.
  destruct (Qt.span p1 w1) as [l1 r1]. destruct (l1 =? r1)%dbl; [reflexivity|].
  unfold Qt.span, zero.
  assert (E1 : (Fin b <? Fin 0)%dbl = false) by (apply ltb_Fin_false; lra).
  rewrite E1. cbn [Dbl.add].
  assert (E2 : (Fin a =? Fin (a + b))%dbl = true) by (apply eqb_Fin_true; lra).
  rewrite E2. reflexivity.
Qed.

Lemma empty_second_span_not_intersected (p1 w1 : double) (a b : Q) :
  b == 0 -> QtGeometry.axis_intersects p1 w1 (Fin a) (Fin b) = false.
Proof.
  intro Hb. unfold QtGeometry.axis_intersects.
  destruct (Qt.span p1 w1) as [l1 r1]. destruct (l1 =? r1)%dbl; [reflexivity|].
  unfold Qt.span, zero.
  assert (E1 : (Fin b <? Fin 0)%dbl = false) by (apply ltb_Fin_false; lra).
  rewrite E1. cbn [Dbl.add].
  assert (E2 : (Fin a =? Fin (a + b))%dbl = true) by (apply eqb_Fin_true; lra).
  rewrite E2. reflexivity.
Qed.

Section LineStringVisibility.

Variable toPixelPoint : QPointF -> Z -> QPointF.
Variable toCoordinatePoint : QPointF -> Z -> QPointF.
Variable GeometryPoint : Type.
Variable Geometry : Type.
Variable coordinate : GeometryPoint -> QPointF.

Abbreviation box := (lineString_boundingBox GeometryPoint Geometry coordinate).
Abbreviation lineVisible :=
  (isGeometryVisible toPixelPoint toCoordinatePoint
     (GeometryLineString GeometryPoint Geometry) box).

(** The bounding box of a line string whose points share one x has no width,
    and likewise for y and the height. *)
Lemma flat_line_string_box (g : GeometryLineString GeometryPoint Geometry) (zoom : Z)
    (x0 : Q) :
  Forall (fun p => is_number x0 (pt_x (coordinate p))) (m_points g) ->
  exists a b, xp (box g zoom) = Fin a /\ rw (box g zoom) = Fin b /\ b == 0.
Proof.
  unfold lineString_boundingBox, QtGeometry.boundingRect. intro Hall.
  destruct (m_points g) as [|p pts]; cbn [map].
  - exists 0, 0. repeat split; reflexivity.
  - pose proof (bounds_loop_x (map coordinate pts) (pt_x (coordinate p), pt_x (coordinate p))
                  (pt_y (coordinate p), pt_y (coordinate p))) as Hx.
    inversion Hall as [|? ? Hp Hrest]; subst.
    assert (Hrest' : Forall (fun q => is_number x0 (pt_x q)) (map coordinate pts))
      by (apply Forall_map; exact Hrest).
    destruct (fold_stretch_same pt_x x0 (map coordinate pts)
                (pt_x (coordinate p)) (pt_x (coordinate p)) Hrest' Hp Hp) as [Hlo Hhi].
    rewrite <- Hx in Hlo, Hhi.
    destruct (QtGeometry.bounds_loop _ _ _) as [[minx maxx] [miny maxy]].
    cbn [fst snd xp rw] in *. apply (empty_extent x0); assumption.
Qed.

Lemma tall_line_string_box (g : GeometryLineString GeometryPoint Geometry) (zoom : Z)
    (y0 : Q) :
  Forall (fun p => is_number y0 (pt_y (coordinate p))) (m_points g) ->
  exists a b, yp (box g zoom) = Fin a /\ rh (box g zoom) = Fin b /\ b == 0.
Proof.
  unfold lineString_boundingBox, QtGeometry.boundingRect. intro Hall.
  destruct (m_points g) as [|p pts]; cbn [map].
  - exists 0, 0. repeat split; reflexivity.
  - pose proof (bounds_loop_y (map coordinate pts) (pt_x (coordinate p), pt_x (coordinate p))
                  (pt_y (coordinate p), pt_y (coordinate p))) as Hy.
    inversion Hall as [|? ? Hp Hrest]; subst.
    assert (Hrest' : Forall (fun q => is_number y0 (pt_y q)) (map coordinate pts))
      by (apply Forall_map; exact Hrest).
    destruct (fold_stretch_same pt_y y0 (map coordinate pts)
                (pt_y (coordinate p)) (pt_y (coordinate p)) Hrest' Hp Hp) as [Hlo Hhi].
    rewrite <- Hy in Hlo, Hhi.
    destruct (QtGeometry.bounds_loop _ _ _) as [[minx maxx] [miny maxy]].
    cbn [fst snd yp rh] in *. apply (empty_extent y0); assumption.
Qed.

(** X17. A line string whose points all have the same finite x coordinate,
    or all the same finite y coordinate (so also one with a single point or
    with no point), is never reported visible by [isGeometryVisible], neither
    partially nor totally, whatever the viewport. *)
Theorem flat_line_string_is_never_visible
    (s : QMapControl) (g : GeometryLineString GeometryPoint Geometry)
    (partial : bool) (c0 : Q) :
  Forall (fun p => is_number c0 (pt_x (coordinate p))) (m_points g)
  \/ Forall (fun p => is_number c0 (pt_y (coordinate p))) (m_points g) ->
  lineVisible s (Some g) partial = false.
Proof.
  intro Hflat. unfold isGeometryVisible.
  destruct (Qt.isValid (getViewportRect toPixelPoint toCoordinatePoint s));
    [|reflexivity].
  unfold QtGeometry.intersects, Qt.contains_rect.
  destruct Hflat as [Hx|Hy].
  - destruct (flat_line_string_box g (m_current_zoom s) c0 Hx) as (a & b & Ea & Eb & Hb).
    rewrite Ea, Eb.
    rewrite (empty_second_span_not_contained _ _ a b Hb),
      (empty_second_span_not_intersected _ _ a b Hb).
    destruct partial; reflexivity.
  - destruct (tall_line_string_box g (m_current_zoom s) c0 Hy) as (a & b & Ea & Eb & Hb).
    rewrite Ea, Eb.
    rewrite (empty_second_span_not_contained _ _ a b Hb),
      (empty_second_span_not_intersected _ _ a b Hb).
    destruct partial;
      match goal with |- (if ?c then false else false) = false => destruct c end;
      reflexivity.
Qed.

End LineStringVisibility.

(* ===================================================================== *)
(** ** The bounding box of a line string bounds its points                *)
(* ===================================================================== *)


Section LineStringBoxProofs.

Variable GeometryPoint : Type.
Variable Geometry : Type.
Variable coordinate : GeometryPoint -> QPointF.

Abbreviation box' := (lineString_boundingBox GeometryPoint Geometry coordinate).


End LineStringBoxProofs.

(* ===================================================================== *)
(** ** Layers: add, remove, look up                                       *)
(* ===================================================================== *)

Lemma set_control_same {Layer : Type} (w : MapWidget Layer) :
  set_control Layer (control Layer w) w = w.
Proof. destruct w; reflexivity. Qed.

(** A forced redraw: the backbuffer is redrawn, the geometry widgets are
    moved, the widget is updated. *)
Lemma forced_redraw_effects (toPixelPoint : QPointF -> Z -> QPointF) (s : QMapControl) :
  effects (redrawPrimaryScreen toPixelPoint true) s
  = [RunRedrawBackbuffer;
     MoveGeometryWidgets
       (Qt.pt_sub (mapFocusPointPx toPixelPoint s) (m_viewport_center_px s))
       (m_current_zoom s);
     WidgetUpdate].
Proof. reflexivity. Qed.

Section LayerProofs.

Variable toPixelPoint : QPointF -> Z -> QPointF.
Variable Layer : Type.
Variable Layer_eq_dec : forall a b : Layer, {a = b} + {a <> b}.
Variable getName : Layer -> String.string.
Variable SharedGeometry : Type.

Abbreviation Widget := (MapWidget Layer).
Abbreviation layers_of := (m_layers Layer).
Abbreviation names := (layer_names Layer getName).
Abbreviation lookupLayer := (getLayer Layer getName).
Abbreviation remove := (removeLayer toPixelPoint Layer Layer_eq_dec getName SharedGeometry).
Abbreviation add := (addLayer toPixelPoint Layer Layer_eq_dec getName SharedGeometry).
Abbreviation named := (fun (n : String.string) (x : Layer) => String.eqb (getName x) n).
Abbreviation others := (without Layer getName).

Lemma without_absent (n : String.string) (layers : list Layer) :
  ~ In n (names layers) -> others n layers = layers.
Proof.
  unfold without, layer_names in *.
  induction layers as [|x rest IH]; intro Hn; [reflexivity|].
  cbn in Hn |- *. destruct (String.eqb_spec (getName x) n) as [E|E].
  - exfalso. apply Hn. left. exact E.
  - cbn. rewrite IH; [reflexivity|]. intro H. apply Hn. right. exact H.
Qed.

Lemma without_names (n : String.string) (layers : list Layer) :
  ~ In n (names (others n layers)).
Proof.
  unfold without, layer_names in *.
  induction layers as [|x rest IH]; [intros []|].
  cbn. destruct (String.eqb_spec (getName x) n) as [E|E]; cbn; [exact IH|].
  intros [H|H]; [contradiction | apply IH, H].
Qed.

Lemma without_names_incl (n m : String.string) (layers : list Layer) :
  In m (names (others n layers)) -> In m (names layers).
Proof.
  unfold without, layer_names in *.
  induction layers as [|x rest IH]; [intros []|].
  cbn. destruct (String.eqb (getName x) n); cbn; intros H.
  - right. apply IH, H.
  - destruct H as [H|H]; [left; exact H | right; apply IH, H].
Qed.

Lemma without_NoDup (n : String.string) (layers : list Layer) :
  NoDup (names layers) -> NoDup (names (others n layers)).
Proof.
  unfold without, layer_names in *.
  induction layers as [|x rest IH]; intro Hnd; [constructor|].
  cbn in Hnd |- *. inversion Hnd as [|? ? Hx Hrest]; subst.
  destruct (String.eqb (getName x) n); cbn; [apply IH, Hrest|].
  constructor; [|apply IH, Hrest].
  intro H. apply Hx. eapply without_names_incl, H.
Qed.

Lemma find_without (n m : String.string) (layers : list Layer) :
  m <> n -> find (named m) (others n layers) = find (named m) layers.
Proof.
  unfold without, layer_names in *.
  intro Hne. induction layers as [|x rest IH]; [reflexivity|].
  cbn. destruct (String.eqb_spec (getName x) n) as [E|E]; cbn.
  - destruct (String.eqb_spec (getName x) m) as [E'|E']; [congruence | exact IH].
  - destruct (String.eqb (getName x) m); [reflexivity | exact IH].
Qed.

Lemma find_absent (n : String.string) (layers : list Layer) :
  ~ In n (names layers) -> find (named n) layers = None.
Proof.
  unfold without, layer_names in *.
  induction layers as [|x rest IH]; intro Hn; [reflexivity|].
  cbn in Hn |- *. destruct (String.eqb_spec (getName x) n) as [E|E].
  - exfalso. apply Hn. left. exact E.
  - apply IH. intro H. apply Hn. right. exact H.
Qed.

Lemma find_present (n : String.string) (layers : list Layer) :
  In n (names layers) -> exists l, find (named n) layers = Some l /\ getName l = n.
Proof.
  unfold without, layer_names in *.
  induction layers as [|x rest IH]; [intros []|].
  cbn. destruct (String.eqb_spec (getName x) n) as [E|E].
  - intros _. exists x. split; [reflexivity | exact E].
  - intros [H|H]; [contradiction | apply IH, H].
Qed.

(** With unique names, erasing the layer found under a name leaves the
    layers with another name. *)
Lemma erase_found (n : String.string) (layers : list Layer) (l : Layer) :
  NoDup (names layers) ->
  find (named n) layers = Some l ->
  erase_first Layer Layer_eq_dec l layers = Some (others n layers).
Proof.
  induction layers as [|x rest IH]; intros Hnd Hf; [discriminate|].
  inversion Hnd as [|? ? Hx Hrest]; subst.
  cbn [find] in Hf. cbn [erase_first]. unfold without. cbn [filter]. fold (others n rest).
  destruct (String.eqb_spec (getName x) n) as [E|E].
  - injection Hf as ->. destruct (Layer_eq_dec l l) as [_|C]; [|contradiction].
    cbn [negb]. rewrite without_absent; [reflexivity|]. rewrite <- E. exact Hx.
  - destruct (Layer_eq_dec x l) as [->|C].
    + apply find_some in Hf. destruct Hf as [_ Hf].
      destruct (String.eqb_spec (getName l) n); [contradiction | discriminate].
    + cbn [negb]. rewrite (IH Hrest Hf). reflexivity.
Qed.

(** A member function of the viewport state leaves the layers alone. *)
Lemma lift_layers {A : Type} (c : M A) (w : Widget) :
  layers_of (wexec Layer SharedGeometry (lift Layer SharedGeometry c) w) = layers_of w.
Proof.
  unfold wexec, lift. destruct (c (control Layer w)) as [[a s] es]. reflexivity.
Qed.

Lemma lift_redraw_effects (w : Widget) :
  weffects Layer SharedGeometry
    (lift Layer SharedGeometry (redrawPrimaryScreen toPixelPoint true)) w <> [].
Proof.
  unfold weffects, lift.
  rewrite (run_eta (redrawPrimaryScreen toPixelPoint true) (control Layer w)).
  cbn [snd]. rewrite forced_redraw_effects. cbn. discriminate.
Qed.

(** What [removeLayer] does for a name no layer has. *)
Lemma removeLayer_absent (n : String.string) (w : Widget) :
  lookupLayer n w = None -> remove n w = (tt, w, []).
Proof.
  intro Hf. unfold removeLayer, wbind, wget. cbn beta iota zeta.
  rewrite Hf. reflexivity.
Qed.

(** The layers [removeLayer] leaves, with unique names. *)
Lemma removeLayer_layers (n : String.string) (w : Widget) :
  NoDup (names (layers_of w)) ->
  layers_of (wexec Layer SharedGeometry (remove n) w) = others n (layers_of w).
Proof.
  intro Hnd. unfold removeLayer, wexec, wbind, wget. cbn beta iota zeta.
  unfold getLayer, getLayers.
  destruct (find (named n) (layers_of w)) as [l|] eqn:Hf.
  - rewrite (erase_found n _ l Hnd Hf).
    unfold wemit, wmodify. cbn beta iota zeta.
    match goal with
    | |- context [lift Layer SharedGeometry ?c ?w1] =>
        pose proof (lift_layers c w1) as Hl; unfold wexec in Hl;
        destruct (lift Layer SharedGeometry c w1) as [[u w2] e2]
    end.
    cbn [fst snd] in Hl |- *. rewrite Hl. reflexivity.
  - cbn. rewrite without_absent; [reflexivity|].
    intro Hin. destruct (find_present n _ Hin) as (l & Hl & _). congruence.
Qed.

Lemma insert_at_names (i : nat) (l : Layer) (layers : list Layer) (m : String.string) :
  In m (names (insert_at Layer i l layers)) <-> m = getName l \/ In m (names layers).
Proof.
  unfold without, layer_names in *.
  revert layers; induction i as [|i IH]; intros layers.
  - cbn. split; intros [H|H]; auto.
  - destruct layers as [|x rest]; cbn.
    + split; intros [H|H]; auto.
    + rewrite IH. split; intros H; repeat destruct H as [H|H]; auto.
Qed.

Lemma insert_at_NoDup (i : nat) (l : Layer) (layers : list Layer) :
  ~ In (getName l) (names layers) -> NoDup (names layers) ->
  NoDup (names (insert_at Layer i l layers)).
Proof.
  revert layers; induction i as [|i IH]; intros layers Hn Hnd.
  - cbn. constructor; assumption.
  - destruct layers as [|x rest]; cbn.
    + constructor; [intros [] | constructor].
    + cbn in Hn, Hnd. inversion Hnd as [|? ? Hx Hrest]; subst.
      constructor.
      * intro H. apply (proj1 (insert_at_names i l rest _)) in H.
        destruct H as [H|H]; [|contradiction].
        apply Hn. left. exact H.
      * apply IH; [|exact Hrest]. intro H. apply Hn. right. exact H.
Qed.

Lemma insert_at_end (l : Layer) (layers : list Layer) :
  insert_at Layer (length layers) l layers = layers ++ [l].
Proof. induction layers as [|x rest IH]; cbn; [reflexivity | rewrite IH; reflexivity]. Qed.

Lemma insert_at_find (i : nat) (l : Layer) (layers : list Layer) (m : String.string) :
  find (named m) (insert_at Layer i l layers)
  = if String.eqb (getName l) m
    then (match find (named m) (firstn i layers) with
          | Some x => Some x
          | None => Some l
          end)
    else find (named m) layers.
Proof.
  revert layers; induction i as [|i IH]; intros layers.
  - cbn. destruct (String.eqb (getName l) m); reflexivity.
  - destruct layers as [|x rest]; cbn.
    + destruct (String.eqb (getName l) m); reflexivity.
    + rewrite IH. destruct (String.eqb (getName x) m);
        destruct (String.eqb (getName l) m); reflexivity.
Qed.

Lemma insert_at_nth (i : nat) (l : Layer) (layers : list Layer) :
  (i <= length layers)%nat ->
  nth_error (insert_at Layer i l layers) i = Some l
  /\ length (insert_at Layer i l layers) = S (length layers).
Proof.
  revert layers; induction i as [|i IH]; intros layers Hi.
  - split; reflexivity.
  - destruct layers as [|x rest]; cbn in Hi; [lia|].
    cbn. destruct (IH rest) as [H1 H2]; [lia|]. rewrite H2. split; [exact H1 | reflexivity].
Qed.

(** What [addLayer] leaves, with unique names and an index of at least -1:
    the layers with another name, with the new layer put in at its position. *)
Lemma addLayer_layers (l : Layer) (index : Z) (w : Widget) :
  NoDup (names (layers_of w)) ->
  (-1 <= index)%Z ->
  exists w' e,
    add (Some l) index w = Some (tt, w', e)
    /\ layers_of w'
       = insert_at Layer
           (insert_position index (length (others (getName l) (layers_of w)))) l
           (others (getName l) (layers_of w)).
Proof.
  intros Hnd Hidx. unfold addLayer.
  pose proof (removeLayer_layers (getName l) w Hnd) as Hr. unfold wexec in Hr.
  destruct (remove (getName l) w) as [[u w1] e1]. cbn [fst snd] in Hr.
  rewrite Hr. unfold insert_position.
  destruct ((index =? -1)%Z || (index >=? Z.of_nat (length (others (getName l) (layers_of w))))%Z)
    eqn:Hc.
  - match goal with
    | |- context [lift Layer SharedGeometry ?c ?w2] =>
        pose proof (lift_layers c w2) as Hl; unfold wexec in Hl;
        destruct (lift Layer SharedGeometry c w2) as [[u3 w3] e3]
    end.
    cbn [fst snd] in Hl. eexists _, _. split; [destruct u3; reflexivity|].
    rewrite Hl. cbn. rewrite insert_at_end. reflexivity.
  - apply orb_false_iff in Hc. destruct Hc as [Hc1 Hc2].
    apply Z.eqb_neq in Hc1.
    assert (Hneg : (index <? 0)%Z = false) by (apply Z.ltb_ge; lia).
    rewrite Hneg.
    match goal with
    | |- context [lift Layer SharedGeometry ?c ?w2] =>
        pose proof (lift_layers c w2) as Hl; unfold wexec in Hl;
        destruct (lift Layer SharedGeometry c w2) as [[u3 w3] e3]
    end.
    cbn [fst snd] in Hl. eexists _, _. split; [destruct u3; reflexivity|].
    rewrite Hl. reflexivity.
Qed.

Lemma addLayer_defined_index (l : Layer) (index : Z) (w : Widget)
    (r : unit * Widget * list (WidgetEffect Layer SharedGeometry)) :
  add (Some l) index w = Some r -> (-1 <= index)%Z.
Proof.
  unfold addLayer. destruct (remove (getName l) w) as [[u w1] e1].
  destruct ((index =? -1)%Z || (index >=? Z.of_nat (length (layers_of w1)))%Z) eqn:Hc.
  - intros _. apply orb_true_iff in Hc. destruct Hc as [Hc|Hc].
    + apply Z.eqb_eq in Hc. lia.
    + apply Z.geb_le in Hc. lia.
  - destruct (index <? 0)%Z eqn:Hneg; [discriminate|].
    intros _. apply Z.ltb_ge in Hneg. lia.
Qed.

Lemma addLayer_layers_of (l : Layer) (index : Z) (w w' : Widget)
    (e : list (WidgetEffect Layer SharedGeometry)) :
  NoDup (names (layers_of w)) ->
  add (Some l) index w = Some (tt, w', e) ->
  layers_of w'
  = insert_at Layer
      (insert_position index (length (others (getName l) (layers_of w)))) l
      (others (getName l) (layers_of w)).
Proof.
  intros Hnd Hadd.
  destruct (addLayer_layers l index w Hnd (addLayer_defined_index _ _ _ _ Hadd))
    as (w2 & e2 & Hadd2 & Hl).
  rewrite Hadd in Hadd2. injection Hadd2 as -> _. exact Hl.
Qed.

Lemma without_insert_at (i : nat) (l : Layer) (layers : list Layer) :
  others (getName l) (insert_at Layer i l layers) = others (getName l) layers.
Proof.
  unfold without.
  revert layers; induction i as [|i IH]; intros layers.
  - cbn. rewrite String.eqb_refl. reflexivity.
  - destruct layers as [|x rest]; cbn.
    + rewrite String.eqb_refl. reflexivity.
    + rewrite IH. reflexivity.
Qed.

Lemma without_idem (n : String.string) (layers : list Layer) :
  others n (others n layers) = others n layers.
Proof. apply without_absent, without_names. Qed.

Lemma find_In (n : String.string) (layers : list Layer) (l : Layer) :
  find (named n) layers = Some l -> In l layers.
Proof. intro H. apply find_some in H. exact (proj1 H). Qed.

Lemma erase_first_In (l : Layer) (layers : list Layer) :
  In l layers -> exists rest, erase_first Layer Layer_eq_dec l layers = Some rest.
Proof.
  induction layers as [|x xs IH]; [intros []|].
  intro Hin. cbn. destruct (Layer_eq_dec x l) as [E|E]; [eexists; reflexivity|].
  destruct Hin as [Hin|Hin]; [contradiction|].
  destruct (IH Hin) as (rest & ->). eexists; reflexivity.
Qed.

(** X19.  Layer names stay unique: when no two layers of the widget share a
    name, [addLayer] with an index of at least -1 is defined, and afterwards
    no two layers share a name either, also when the new layer's name was
    taken. *)
Theorem addLayer_keeps_layer_names_unique (l : Layer) (index : Z) (w : Widget) :
  NoDup (names (layers_of w)) ->
  (-1 <= index)%Z ->
  exists w' e,
    add (Some l) index w = Some (tt, w', e)
    /\ NoDup (names (layers_of w')).
Proof.
  intros Hnd Hidx.
  destruct (addLayer_layers l index w Hnd Hidx) as (w' & e & Hadd & Hl).
  exists w', e. split; [exact Hadd|]. rewrite Hl.
  apply insert_at_NoDup; [apply without_names | apply without_NoDup, Hnd].
Qed.

(** X20.  After [addLayer], [getLayer] finds the added layer under its name,
    and every other name leads to the layer it led to before. *)
Theorem added_layer_is_found_by_its_name (l : Layer) (index : Z) (w w' : Widget)
    (e : list (WidgetEffect Layer SharedGeometry)) :
  NoDup (names (layers_of w)) ->
  add (Some l) index w = Some (tt, w', e) ->
  lookupLayer (getName l) w' = Some l
  /\ forall m, m <> getName l -> lookupLayer m w' = lookupLayer m w.
Proof.
  intros Hnd Hadd. unfold getLayer, getLayers.
  rewrite (addLayer_layers_of l index w w' e Hnd Hadd). split.
  - rewrite insert_at_find, String.eqb_refl.
    destruct (find (named (getName l)) (firstn _ _)) as [x|] eqn:Hf; [|reflexivity].
    exfalso. apply find_some in Hf. destruct Hf as [Hin Hname].
    assert (Hin' : In x (others (getName l) (layers_of w)))
      by (rewrite <- (firstn_skipn
                        (insert_position index
                           (length (others (getName l) (layers_of w)))) _);
          apply in_or_app; left; exact Hin).
    apply (without_names (getName l) (layers_of w)).
    apply String.eqb_eq in Hname. rewrite <- Hname at 1.
    unfold layer_names. apply in_map. exact Hin'.
  - intros m Hm. rewrite insert_at_find.
    destruct (String.eqb_spec (getName l) m) as [E|E]; [congruence|].
    apply find_without. exact Hm.
Qed.

(** X21.  After [removeLayer], [getLayer] finds no layer under the removed
    name, and every other name leads to the layer it led to before. *)
Theorem removed_layer_is_not_found (n : String.string) (w : Widget) :
  NoDup (names (layers_of w)) ->
  lookupLayer n (wexec Layer SharedGeometry (remove n) w) = None
  /\ forall m, m <> n ->
       lookupLayer m (wexec Layer SharedGeometry (remove n) w) = lookupLayer m w.
Proof.
  intro Hnd. unfold getLayer, getLayers. rewrite (removeLayer_layers n w Hnd). split.
  - apply find_absent, without_names.
  - intros m Hm. apply find_without, Hm.
Qed.

(** X22.  [removeLayer] for a name that no layer has changes nothing and
    sends nothing.  For a name that a layer has, the erase always succeeds:
    the layer is disconnected and the primary screen is redrawn with force,
    once. *)
Theorem removeLayer_acts_iff_name_is_known (n : String.string) (w : Widget) :
  (lookupLayer n w = None -> remove n w = (tt, w, []))
  /\ (forall l, lookupLayer n w = Some l ->
       weffects Layer SharedGeometry (remove n) w
       = DisconnectLayer Layer SharedGeometry l
         :: map (Core Layer SharedGeometry)
              (effects (redrawPrimaryScreen toPixelPoint true) (control Layer w))).
Proof.
  split; [apply removeLayer_absent|].
  intros l Hf. unfold removeLayer, weffects, wbind, wget. cbn beta iota zeta.
  rewrite Hf.
  destruct (erase_first_In l (layers_of w)) as (rest & ->);
    [exact (find_In n _ l Hf)|].
  unfold wemit, wmodify, lift. cbn beta iota zeta. cbn [control set_layers].
  rewrite (run_eta (redrawPrimaryScreen toPixelPoint true) (control Layer w)).
  cbn [snd app]. reflexivity.
Qed.

(** X23.  Where [addLayer] puts the layer: the other layers keep their
    order, the widget has one layer more than it has layers of another name,
    an index of -1 or beyond the end appends, and an index inside the vector
    is the position of the new layer. *)
Theorem added_layer_position (l : Layer) (index : Z) (w w' : Widget)
    (e : list (WidgetEffect Layer SharedGeometry)) :
  NoDup (names (layers_of w)) ->
  add (Some l) index w = Some (tt, w', e) ->
  let rest := others (getName l) (layers_of w) in
  others (getName l) (layers_of w') = rest
  /\ length (layers_of w') = S (length rest)
  /\ ((index = -1 \/ Z.of_nat (length rest) <= index)%Z -> layers_of w' = rest ++ [l])
  /\ ((0 <= index < Z.of_nat (length rest))%Z ->
      nth_error (layers_of w') (Z.to_nat index) = Some l).
Proof.
  intros Hnd Hadd rest.
  rewrite (addLayer_layers_of l index w w' e Hnd Hadd). fold rest.
  assert (Hpos : (insert_position index (length rest) <= length rest)%nat).
  { unfold insert_position.
    destruct ((index =? -1)%Z || (index >=? Z.of_nat (length rest))%Z) eqn:Hc; [lia|].
    apply orb_false_iff in Hc. destruct Hc as [_ Hc].
    assert (index < Z.of_nat (length rest))%Z
      by (destruct (Z.geb_spec index (Z.of_nat (length rest))); [discriminate | lia]).
    lia. }
  split; [|split; [|split]].
  - rewrite without_insert_at. apply without_idem.
  - apply insert_at_nth, Hpos.
  - intro Hc. unfold insert_position.
    replace ((index =? -1)%Z || (index >=? Z.of_nat (length rest))%Z) with true.
    + apply insert_at_end.
    + symmetry. apply orb_true_iff. destruct Hc as [Hc|Hc].
      * left. apply Z.eqb_eq, Hc.
      * right. apply Z.geb_le, Hc.
  - intro Hc. unfold insert_position.
    replace ((index =? -1)%Z || (index >=? Z.of_nat (length rest))%Z) with false.
    + apply insert_at_nth. lia.
    + symmetry. apply orb_false_iff. split.
      * apply Z.eqb_neq. lia.
      * destruct (Z.geb_spec index (Z.of_nat (length rest))); [lia | reflexivity].
Qed.

End LayerProofs.

(* ===================================================================== *)
(** ** Input events                                                       *)
(* ===================================================================== *)

Section InputProofs.

Variable toPixelPoint : QPointF -> Z -> QPointF.
Variable toCoordinatePoint : QPointF -> Z -> QPointF.
Variable Layer : Type.
Variable getName : Layer -> String.string.
Variable layer_isVisible : Layer -> Z -> bool.
Variable SharedGeometry : Type.
Variable getGeometries : Layer -> QRectF -> list SharedGeometry.
Variable geometry_touches : SharedGeometry -> SelectionArea -> Z -> bool.
Variable default_delta_px : double.

Abbreviation on_press := (mousePressEvent toPixelPoint toCoordinatePoint Layer SharedGeometry).
Abbreviation on_release :=
  (mouseReleaseEvent toPixelPoint toCoordinatePoint Layer getName layer_isVisible
     SharedGeometry getGeometries geometry_touches).
Abbreviation on_move := (mouseMoveEvent toPixelPoint toCoordinatePoint Layer SharedGeometry).
Abbreviation on_wheel := (wheelEvent toPixelPoint toCoordinatePoint Layer SharedGeometry).
Abbreviation on_key :=
  (keyPressEvent toPixelPoint toCoordinatePoint Layer SharedGeometry default_delta_px).
Abbreviation on_event :=
  (handle toPixelPoint toCoordinatePoint Layer getName layer_isVisible
     SharedGeometry getGeometries geometry_touches default_delta_px).
Abbreviation on_events :=
  (handle_all toPixelPoint toCoordinatePoint Layer getName layer_isVisible
     SharedGeometry getGeometries geometry_touches default_delta_px).
Abbreviation after := (wexec Layer SharedGeometry).
Abbreviation sent := (weffects Layer SharedGeometry).
Abbreviation lifted := (lift Layer SharedGeometry).
Abbreviation keeps := (layers_and_bounds_kept Layer).

Lemma lift_run {A : Type} (c : M A) (w : MapWidget Layer) :
  lifted c w
  = (result c (control Layer w),
     set_control Layer (exec c (control Layer w)) w,
     map (Core Layer SharedGeometry) (effects c (control Layer w))).
Proof.
  unfold lift, result, exec, effects.
  destruct (c (control Layer w)) as [[a s] es]. reflexivity.
Qed.

Lemma wexec_wbind {A B : Type} (c : W Layer SharedGeometry A)
    (k : A -> W Layer SharedGeometry B) (w : MapWidget Layer) :
  after (wbind Layer SharedGeometry c k) w
  = after (k (wresult Layer SharedGeometry c w)) (after c w).
Proof.
  unfold wexec, wresult, wbind. destruct (c w) as [[a w1] e1]. cbn.
  destruct (k a w1) as [[b w2] e2]. reflexivity.
Qed.

Lemma keeps_refl (w : MapWidget Layer) : keeps w w.
Proof. split; [reflexivity | apply zoom_moves_within_refl]. Qed.

Lemma keeps_trans (w1 w2 w3 : MapWidget Layer) :
  keeps w1 w2 -> keeps w2 w3 -> keeps w1 w3.
Proof.
  intros [A1 A2] [B1 B2]. split; [congruence|].
  eapply zoom_moves_within_trans; eassumption.
Qed.

Lemma keeps_bind {A B : Type} (c : W Layer SharedGeometry A)
    (k : A -> W Layer SharedGeometry B) (w : MapWidget Layer) :
  keeps w (after c w) ->
  (forall a w1, keeps w1 (after (k a) w1)) ->
  keeps w (after (wbind Layer SharedGeometry c k) w).
Proof.
  intros Hc Hk. rewrite wexec_wbind. eapply keeps_trans; [exact Hc | apply Hk].
Qed.

Lemma keeps_lift {A : Type} (c : M A) (w : MapWidget Layer) :
  zoom_moves_within (control Layer w) (exec c (control Layer w)) ->
  keeps w (after (lifted c) w).
Proof.
  intro H. unfold wexec. rewrite lift_run. cbn [fst snd]. split; [reflexivity | exact H].
Qed.

Lemma keeps_perform (op : Operation) (w : MapWidget Layer) :
  keeps w (after (lifted (perform toPixelPoint toCoordinatePoint op)) w).
Proof. apply keeps_lift, perform_moves_within. Qed.

Ltac keeps_step :=
  match goal with
  | |- keeps _ (after (wbind _ _ _ _) _) => apply keeps_bind; [|intros ? ?]
  | |- keeps _ (after (if ?b then _ else _) _) => destruct b
  | |- keeps _ (after (match ?m with ModeNone => _ | _ => _ end) _) => destruct m
  | |- keeps _ (after (let '(_, _) := ?p in _) _) => destruct p
  | |- keeps ?w (after (wget _ _) ?w) => apply keeps_refl
  | |- keeps ?w (after (wret _ _ _) ?w) => apply keeps_refl
  | |- keeps ?w (after (wemit _ _ _) ?w) => apply keeps_refl
  | |- keeps ?w (after (wmodify _ _ _) ?w) => split; [reflexivity | apply zoom_moves_within_refl]
  end.

Lemma on_event_keeps (event : InputEvent) (w : MapWidget Layer) :
  keeps w (after (on_event event) w).
Proof.
  destruct event as [button p|button p|l r p|dy p|key]; cbn [handle].
  - unfold mousePressEvent, wexec.
    destruct (m_mouse_events_enabled Layer w); cbn [fst snd];
      (split; [reflexivity | apply zoom_moves_within_refl]).
  - unfold mouseReleaseEvent. repeat keeps_step;
      try exact (keeps_perform (OpSetMapFocusPoints _ true) _).
  - unfold mouseMoveEvent. repeat keeps_step;
      exact (keeps_perform (OpScrollView _) _).
  - unfold wheelEvent, wheel_zoom. repeat keeps_step;
      first [ exact (keeps_perform OpZoomIn _)
            | exact (keeps_perform OpZoomOut _)
            | exact (keeps_perform (OpSetMapFocusPoint _) _) ].
  - destruct key; cbn [keyPressEvent];
      first [ exact (keeps_perform (OpScrollView _) _)
            | exact (keeps_perform OpZoomIn _)
            | exact (keeps_perform OpZoomOut _)
            | apply keeps_refl ].
Qed.

(** X24.  No sequence of mouse, wheel and key events changes the layers or
    the zoom bounds, and from a state with zoomMin <= zoomCurrent <= zoomMax
    every such sequence ends in a state with the zoom in that range. *)
Theorem input_events_keep_layers_and_zoom_range
    (events : list InputEvent) (w : MapWidget Layer) :
  let w' := after (on_events events) w in
  m_layers Layer w' = m_layers Layer w
  /\ m_zoom_minimum (control Layer w') = m_zoom_minimum (control Layer w)
  /\ m_zoom_maximum (control Layer w') = m_zoom_maximum (control Layer w)
  /\ (zoom_in_range (control Layer w) -> zoom_in_range (control Layer w')).
Proof.
  cbv zeta.
  assert (K : keeps w (after (on_events events) w)).
  { revert w. induction events as [|event events IH]; intro w.
    - apply keeps_refl.
    - cbn [handle_all]. apply keeps_bind; [apply on_event_keeps|].
      intros _ w1. apply IH. }
  destruct K as (HL & H1 & H2 & H3).
  split; [exact HL|]. split; [exact H1|]. split; [exact H2|].
  unfold zoom_in_range. rewrite H1, H2. lia.
Qed.

(** X25.  With mouse events disabled, a mouse press still reaches every
    layer, with the pressed point in world pixels and the zoom, but stores
    nothing; a move and a release do nothing at all; a wheel event is ignored
    and does nothing else. *)
Theorem disabled_mouse_events_reach_only_the_layers
    (button : MouseButton) (left_down right_down : bool) (angle_delta_y : Z)
    (p : QPointF) (w : MapWidget Layer) :
  m_mouse_events_enabled Layer w = false ->
  on_press button p w
  = (tt, w,
     map (fun layer =>
            LayerMouseEvent Layer SharedGeometry layer
              (toPointPx toPixelPoint (control Layer w) p)
              (m_current_zoom (control Layer w)))
         (m_layers Layer w))
  /\ on_move left_down right_down p w = (tt, w, [])
  /\ on_release button p w = (tt, w, [])
  /\ on_wheel angle_delta_y p w = (tt, w, [WheelIgnore Layer SharedGeometry]).
Proof.
  intro Hoff. repeat split.
  - unfold mousePressEvent. rewrite Hoff. reflexivity.
  - unfold mouseMoveEvent, wbind, wget. cbn beta iota zeta. rewrite Hoff. reflexivity.
  - unfold mouseReleaseEvent, wbind, wget. cbn beta iota zeta. rewrite Hoff. reflexivity.
  - unfold wheelEvent, wbind, wget. cbn beta iota zeta. rewrite Hoff. reflexivity.
Qed.





(** The pan limit is that of [s], and holds the focus if it is valid and
    held the focus in [s]. *)
Abbreviation limit_kept :=
  (fun s s' : QMapControl =>
     m_limited_viewport_rect_coord s' = m_limited_viewport_rect_coord s
     /\ (Qt.isValid (m_limited_viewport_rect_coord s) = true ->
         focus_inside_limit s -> focus_inside_limit s')).

Lemma scrollView_limit_kept (delta_px : QPointF) (s : QMapControl) :
  limit_kept s (exec (scrollView toPixelPoint toCoordinatePoint delta_px) s).
Proof.
  split.
  - pose proof (scrollView_settings toPixelPoint toCoordinatePoint delta_px s) as H.
    unfold view_settings in H. injection H as _ _ H _ _ _. exact H.
  - apply scrollView_inside.
Qed.

Lemma zoom_step_limit_kept (s : QMapControl) :
  limit_kept s (exec (zoomIn toPixelPoint) s)
  /\ limit_kept s (exec (zoomOut toPixelPoint) s).
Proof.
  rewrite zoomIn_exec, zoomOut_exec.
  destruct (m_current_zoom s <? m_zoom_maximum s)%Z,
           (m_current_zoom s >? m_zoom_minimum s)%Z;
    repeat split; auto.
Qed.

Lemma scrolls_only_limit_kept (event : InputEvent) (w : MapWidget Layer) :
  scrolls_only event = true ->
  limit_kept (control Layer w) (control Layer (after (on_event event) w)).
Proof.
  destruct event as [button p|button p|l r p|dy p|key]; cbn [scrolls_only handle];
    intro H; try discriminate.
  - unfold mousePressEvent, wexec.
    destruct (m_mouse_events_enabled Layer w); cbn [fst snd]; split; auto.
  - unfold mouseMoveEvent, wexec, wbind, wget, wmodify, wemit, wret.
    cbn beta iota zeta.
    destruct (m_mouse_events_enabled Layer w); [|split; auto].
    destruct (if l then m_mouse_left_mode Layer w
              else if r then m_mouse_right_mode Layer w else ModeNone);
      cbn beta iota zeta; rewrite ?lift_run; cbn [fst snd control set_mouse set_control];
      try (split; auto; fail).
    apply scrollView_limit_kept.
  - unfold wexec.
    destruct key; cbn [keyPressEvent]; rewrite ?lift_run; cbn [fst snd control set_control];
      unfold scrollViewUp, scrollViewDown, scrollViewLeft, scrollViewRight;
      first [ apply scrollView_limit_kept
            | apply (proj1 (zoom_step_limit_kept _))
            | apply (proj2 (zoom_step_limit_kept _))
            | split; auto ].
Qed.

(** X27.  Dragging the map and the arrow keys respect the pan limit: with a
    valid limit rectangle that holds the focus, no sequence of mouse presses,
    mouse moves and key presses takes the focus out of the rectangle or
    changes the rectangle. *)
Theorem drags_and_keys_keep_focus_inside_limit
    (events : list InputEvent) (w : MapWidget Layer) :
  Forall (fun event => scrolls_only event = true) events ->
  Qt.isValid (m_limited_viewport_rect_coord (control Layer w)) = true ->
  focus_inside_limit (control Layer w) ->
  let s' := control Layer (after (on_events events) w) in
  focus_inside_limit s'
  /\ m_limited_viewport_rect_coord s' = m_limited_viewport_rect_coord (control Layer w).
Proof.
  cbv zeta. intro Hall. revert w.
  induction Hall as [|event events Hev _ IH]; intros w Hv Hin.
  - split; [exact Hin | reflexivity].
  - cbn [handle_all]. rewrite wexec_wbind.
    destruct (scrolls_only_limit_kept event w Hev) as [HL HI].
    destruct (IH (after (on_event event) w)) as [IH1 IH2].
    + rewrite HL. exact Hv.
    + apply HI; assumption.
    + split; [exact IH1 | congruence].
Qed.

End InputProofs.

(* ===================================================================== *)
(** ** Selection of geometries                                            *)
(* ===================================================================== *)

Section SelectionProofs.

Variable Layer : Type.
Variable getName : Layer -> String.string.
Variable layer_isVisible : Layer -> Z -> bool.
Variable SharedGeometry : Type.
Variable getGeometries : Layer -> QRectF -> list SharedGeometry.
Variable geometry_touches : SharedGeometry -> SelectionArea -> Z -> bool.

Variable area_px : SelectionArea.
Variable rect_coord : QRectF.
Variable zoom : Z.

Abbreviation Selection := (list (String.string * list SharedGeometry)).
Abbreviation entry_of :=
  (fun (n : String.string) (m : Selection) =>
     match lookup SharedGeometry n m with Some v => v | None => [] end).
Abbreviation touching :=
  (filter (fun geometry => geometry_touches geometry area_px zoom)).
Abbreviation in_layer := (select_in_layer SharedGeometry geometry_touches area_px zoom).
Abbreviation layer_step :=
  (fun (m : Selection) (layer : Layer) =>
     if layer_isVisible layer zoom
     then in_layer (getName layer) (getGeometries layer rect_coord) m
     else m).

Lemma lookup_push_back_at (name n : String.string) (g : SharedGeometry) (m : Selection) :
  lookup SharedGeometry n (push_back_at SharedGeometry name g m)
  = if String.eqb name n then Some (entry_of n m ++ [g])
    else lookup SharedGeometry n m.
Proof.
  induction m as [|[k v] rest IH]; cbn [push_back_at lookup].
  - destruct (String.eqb_spec name n); reflexivity.
  - destruct (String.eqb_spec k name) as [E|E]; cbn [lookup].
    + subst k. destruct (String.eqb_spec name n); reflexivity.
    + destruct (String.eqb_spec k n) as [E'|E'].
      * subst k. destruct (String.eqb_spec name n); [congruence | reflexivity].
      * exact IH.
Qed.

Lemma lookup_select_in_layer (name n : String.string) (geometries : list SharedGeometry)
    (m : Selection) :
  lookup SharedGeometry n (in_layer name geometries m)
  = if String.eqb name n
    then match touching geometries with
         | [] => lookup SharedGeometry n m
         | touched => Some (entry_of n m ++ touched)
         end
    else lookup SharedGeometry n m.
Proof.
  unfold select_in_layer. revert m.
  induction geometries as [|g gs IH]; intro m; cbn [fold_left filter].
  - destruct (String.eqb name n); reflexivity.
  - rewrite IH. destruct (String.eqb_spec name n) as [E|E].
    + destruct (geometry_touches g area_px zoom).
      * rewrite lookup_push_back_at.
        destruct (String.eqb_spec name n); [|contradiction].
        destruct (touching gs) as [|t ts].
        -- reflexivity.
        -- rewrite <- app_assoc. reflexivity.
      * reflexivity.
    + destruct (geometry_touches g area_px zoom); [|reflexivity].
      rewrite lookup_push_back_at.
      destruct (String.eqb_spec name n); [contradiction | reflexivity].
Qed.

Lemma lookup_fold_layers (n : String.string) (layers : list Layer) (m : Selection) :
  lookup SharedGeometry n (fold_left layer_step layers m)
  = match flat_map (fun layer => touching (getGeometries layer rect_coord))
            (filter (fun layer => layer_isVisible layer zoom
                                  && String.eqb (getName layer) n) layers) with
    | [] => lookup SharedGeometry n m
    | touched => Some (entry_of n m ++ touched)
    end.
Proof.
  revert m. induction layers as [|x rest IH]; intro m; cbn [fold_left filter].
  - reflexivity.
  - rewrite IH. destruct (layer_isVisible x zoom); cbn [andb]; [|reflexivity].
    rewrite lookup_select_in_layer.
    destruct (String.eqb (getName x) n); [|reflexivity].
    cbn [flat_map].
    destruct (touching (getGeometries x rect_coord)) as [|t ts]; [reflexivity|].
    cbn [app].
    destruct (flat_map _ _) as [|u us].
    + rewrite app_nil_r. reflexivity.
    + rewrite <- app_assoc. reflexivity.
Qed.

(** X28.  What a select mode reports under a layer name: the geometries of
    the visible layers of that name that touch the area, in the order of the
    layers and of their geometries; a name without such a geometry has no
    entry. *)
Theorem selection_lists_touched_geometries_by_layer_name
    (n : String.string) (layers : list Layer) :
  lookup SharedGeometry n
    (select_geometries Layer getName layer_isVisible SharedGeometry getGeometries
       geometry_touches area_px rect_coord zoom layers)
  = match flat_map (fun layer =>
                      filter (fun geometry => geometry_touches geometry area_px zoom)
                        (getGeometries layer rect_coord))
            (filter (fun layer => layer_isVisible layer zoom
                                  && String.eqb (getName layer) n) layers) with
    | [] => None
    | touched => Some touched
    end.
Proof.
  unfold select_geometries. rewrite lookup_fold_layers. reflexivity.
Qed.

End SelectionProofs.

(* ===================================================================== *)
(** ** The further properties on concrete inputs                          *)
(* ===================================================================== *)

Module MoreRuns.

Import Scenario.
Import Examples.

Lemma setZoom_reaches_clamped_target_witness :
  zoom_in_range fresh
  /\ m_current_zoom (exec (setZoom LP.toPixelPoint 40) fresh) = 17%Z.
Proof.
  assert (H : zoom_in_range fresh) by (vm_compute; split; discriminate).
  split; [exact H|].
  exact (proj1 (setZoom_reaches_clamped_target LP.toPixelPoint fresh 40 H)).
Defined.

Lemma limited_inside_valid :
  Qt.isValid (m_limited_viewport_rect_coord limited_inside) = true.
Proof. vm_compute. reflexivity. Qed.

Lemma limited_inside_focus : focus_inside_limit limited_inside.
Proof. vm_compute. reflexivity. Qed.

Lemma scrollView_keeps_focus_inside_limit_witness :
  Qt.isValid (m_limited_viewport_rect_coord limited_inside) = true
  /\ focus_inside_limit limited_inside
  /\ focus_inside_limit
       (exec (scrollView LP.toPixelPoint LP.toCoordinatePoint outside) limited_inside).
Proof.
  split; [exact limited_inside_valid|]. split; [exact limited_inside_focus|].
  exact (proj1 (scrollView_keeps_focus_inside_limit
                  LP.toPixelPoint LP.toCoordinatePoint outside limited_inside
                  limited_inside_valid limited_inside_focus)).
Defined.

Lemma animation_keeps_focus_inside_limit_witness :
  Qt.isValid (m_limited_viewport_rect_coord limited_inside) = true
  /\ focus_inside_limit limited_inside
  /\ focus_inside_limit
       (fst (deliver_ticks LP.toPixelPoint LP.toCoordinatePoint 6 1
               (exec (setMapFocusPointAnimated outside 3 100) limited_inside))).
Proof.
  assert (H1 : Qt.isValid
                 (m_limited_viewport_rect_coord
                    (exec (setMapFocusPointAnimated outside 3 100) limited_inside)) = true)
    by (vm_compute; reflexivity).
  assert (H2 : focus_inside_limit
                 (exec (setMapFocusPointAnimated outside 3 100) limited_inside))
    by (vm_compute; reflexivity).
  split; [exact limited_inside_valid|]. split; [exact limited_inside_focus|].
  exact (proj1 (animation_keeps_focus_inside_limit
                  LP.toPixelPoint LP.toCoordinatePoint 6 1
                  (exec (setMapFocusPointAnimated outside 3 100) limited_inside) H1 H2)).
Defined.

Lemma misordered_limit_blocks_every_scroll_witness :
  (0 <= 10 \/ 0 <= 10)
  /\ ~ (0 == 10 /\ 0 == 10)
  /\ let s' := exec (setLimitedViewportRect (mkPoint (Fin 10) (Fin 10))
                       (mkPoint (Fin 0) (Fin 0))) fresh in
     scrollView LP.toPixelPoint LP.toCoordinatePoint (mkPoint (Fin 1) (Fin 1)) s'
     = (tt, s', []).
Proof.
  assert (H1 : 0 <= 10 \/ 0 <= 10) by (left; discriminate).
  assert (H2 : ~ (0 == 10 /\ 0 == 10)) by (intros [H _]; discriminate H).
  split; [exact H1|]. split; [exact H2|].
  exact (misordered_limit_blocks_every_scroll LP.toPixelPoint LP.toCoordinatePoint
           10 10 0 0 (mkPoint (Fin 1) (Fin 1)) fresh H1 H2).
Defined.

Lemma null_limit_lets_every_scroll_through_witness :
  3 == 3 /\ 4 == 4
  /\ m_map_focus_coord
       (exec (setLimitedViewportRect (mkPoint (Fin 3) (Fin 4)) (mkPoint (Fin 3) (Fin 4)) ;;
              scrollView LP.toPixelPoint LP.toCoordinatePoint outside) fresh)
     = scroll_target LP.toPixelPoint LP.toCoordinatePoint fresh outside.
Proof.
  assert (H1 : 3 == 3) by reflexivity.
  assert (H2 : 4 == 4) by reflexivity.
  split; [exact H1|]. split; [exact H2|].
  exact (proj2 (null_limit_lets_every_scroll_through
                  LP.toPixelPoint LP.toCoordinatePoint 3 4 3 4 outside fresh H1 H2)).
Defined.

Lemma autozoom_stops_at_deepest_fit_witness :
  let s' := exec (setMapFocusPoints LP.toPixelPoint LP.toCoordinatePoint two_points true)
              fresh in
  viewportContainsAll LP.toPixelPoint LP.toCoordinatePoint s' two_points = true
  /\ (m_current_zoom s' < m_zoom_maximum s')%Z
  /\ viewportContainsAll LP.toPixelPoint LP.toCoordinatePoint
       (set_current_zoom (m_current_zoom s' + 1) s') two_points = false.
Proof.
  cbv zeta.
  assert (H1 : viewportContainsAll LP.toPixelPoint LP.toCoordinatePoint
                 (exec (setMapFocusPoints LP.toPixelPoint LP.toCoordinatePoint
                          two_points true) fresh) two_points = true)
    by (vm_compute; reflexivity).
  assert (H2 : (m_current_zoom
                  (exec (setMapFocusPoints LP.toPixelPoint LP.toCoordinatePoint
                           two_points true) fresh)
                < m_zoom_maximum
                    (exec (setMapFocusPoints LP.toPixelPoint LP.toCoordinatePoint
                             two_points true) fresh))%Z)
    by (vm_compute; reflexivity).
  split; [exact H1|]. split; [exact H2|].
  exact (autozoom_stops_at_deepest_fit LP.toPixelPoint LP.toCoordinatePoint
           two_points fresh H1 H2).
Defined.

Lemma one_point_always_fits (z : Z) :
  (m_current_zoom at_15 <= z <= m_zoom_maximum at_15)%Z ->
  viewportContainsAll LP.toPixelPoint LP.toCoordinatePoint
    (set_current_zoom z (set_map_focus_coord (calculateMapFocusPoint one_point) at_15))
    one_point = true.
Proof.
  intro Hz.
  assert (Hc : (m_current_zoom at_15 = 15)%Z) by (vm_compute; reflexivity).
  assert (Hm : (m_zoom_maximum at_15 = 17)%Z) by (vm_compute; reflexivity).
  rewrite Hc, Hm in Hz.
  assert (E : z = 15%Z \/ z = 16%Z \/ z = 17%Z) by lia.
  destruct E as [->|[->| ->]]; vm_compute; reflexivity.
Qed.

Lemma autozoom_reaches_maximum_when_always_fitting_witness :
  (m_current_zoom at_15 <= m_zoom_maximum at_15)%Z
  /\ m_current_zoom
       (exec (setMapFocusPoints LP.toPixelPoint LP.toCoordinatePoint one_point true) at_15)
     = m_zoom_maximum at_15.
Proof.
  assert (H : (m_current_zoom at_15 <= m_zoom_maximum at_15)%Z)
    by (vm_compute; discriminate).
  split; [exact H|].
  exact (proj1 (autozoom_reaches_maximum_when_always_fitting
                  LP.toPixelPoint LP.toCoordinatePoint one_point at_15 H
                  one_point_always_fits)).
Defined.

Lemma animation_without_steps_moves_nothing_witness :
  m_animated_mutex fresh = false
  /\ (0 <= 0)%Z
  /\ deliver_ticks LP.toPixelPoint LP.toCoordinatePoint 1 1
       (exec (setMapFocusPointAnimated outside 0 100) fresh)
     = (set_animation outside 0 100 false fresh, O).
Proof.
  assert (H1 : m_animated_mutex fresh = false) by reflexivity.
  assert (H2 : (0 <= 0)%Z) by discriminate.
  split; [exact H1|]. split; [exact H2|].
  exact (animation_without_steps_moves_nothing LP.toPixelPoint LP.toCoordinatePoint
           fresh outside 0 100 H1 H2).
Defined.

Lemma animation_can_restart_after_completion_witness :
  m_animated_mutex fresh = false
  /\ exists s_end,
       deliver_ticks LP.toPixelPoint LP.toCoordinatePoint (S (Z.to_nat 3)) 1
         (exec (setMapFocusPointAnimated outside 3 100) fresh) = (s_end, O)
       /\ animation_of (exec (setMapFocusPointAnimated (mkPoint (Fin 1) (Fin 2)) 2 50) s_end)
          = (mkPoint (Fin 1) (Fin 2), 2%Z, 50%Z, true)
       /\ effects (setMapFocusPointAnimated (mkPoint (Fin 1) (Fin 2)) 2 50) s_end
          = [SingleShotAnimatedTick 50].
Proof.
  assert (H : m_animated_mutex fresh = false) by reflexivity.
  split; [exact H|].
  exact (animation_can_restart_after_completion LP.toPixelPoint LP.toCoordinatePoint
           fresh outside (mkPoint (Fin 1) (Fin 2)) 3 100 2 50 H).
Defined.


Lemma totally_visible_is_partially_visible_witness :
  finite_rect (getViewportRect LP.toPixelPoint LP.toCoordinatePoint fresh)
  /\ finite_rect (box_boundingBox box_geometry (m_current_zoom fresh))
  /\ isGeometryVisible LP.toPixelPoint LP.toCoordinatePoint QRectF box_boundingBox
       fresh (Some box_geometry) false = true
  /\ isGeometryVisible LP.toPixelPoint LP.toCoordinatePoint QRectF box_boundingBox
       fresh (Some box_geometry) true = true.
Proof.
  assert (H1 : finite_rect (getViewportRect LP.toPixelPoint LP.toCoordinatePoint fresh))
    by (vm_compute; repeat split; reflexivity).
  assert (H2 : finite_rect (box_boundingBox box_geometry (m_current_zoom fresh)))
    by (vm_compute; repeat split; reflexivity).
  assert (H3 : isGeometryVisible LP.toPixelPoint LP.toCoordinatePoint QRectF
                 box_boundingBox fresh (Some box_geometry) false = true)
    by (vm_compute; reflexivity).
  split; [exact H1|]. split; [exact H2|]. split; [exact H3|].
  exact (proj1 (totally_visible_is_partially_visible
                  LP.toPixelPoint LP.toCoordinatePoint QRectF box_boundingBox
                  fresh box_geometry H1 H2 H3)).
Defined.

Lemma vertical_line_is_flat :
  Forall (fun p => is_number 3 (pt_x (point_coordinate p))) (m_points vertical_line).
Proof. repeat constructor. Qed.

Lemma flat_line_string_is_never_visible_witness :
  Forall (fun p => is_number 3 (pt_x (point_coordinate p))) (m_points vertical_line)
  /\ isGeometryVisible LP.toPixelPoint LP.toCoordinatePoint
       (GeometryLineString QPointF unit)
       (lineString_boundingBox QPointF unit point_coordinate)
       fresh (Some vertical_line) true = false.
Proof.
  split; [exact vertical_line_is_flat|].
  exact (flat_line_string_is_never_visible LP.toPixelPoint LP.toCoordinatePoint
           QPointF unit point_coordinate fresh vertical_line true 3
           (or_introl vertical_line_is_flat)).
Defined.



Lemma sample_names_unique :
  NoDup (layer_names SampleLayer sample_name (m_layers SampleLayer sample_widget)).
Proof.
  constructor; [|constructor; [intros [] | constructor]].
  intros [H|[]]. discriminate H.
Qed.

Lemma relabel_run_result : relabel_run = Some (tt, relabelled, relabel_effects).
Proof. vm_compute. reflexivity. Qed.

Lemma addLayer_keeps_layer_names_unique_witness :
  NoDup (layer_names SampleLayer sample_name (m_layers SampleLayer sample_widget))
  /\ (-1 <= 0)%Z
  /\ exists w' e,
       addLayer LP.toPixelPoint SampleLayer sample_layer_eq_dec sample_name nat
         (Some new_labels) 0 sample_widget = Some (tt, w', e)
       /\ NoDup (layer_names SampleLayer sample_name (m_layers SampleLayer w')).
Proof.
  assert (H : (-1 <= 0)%Z) by discriminate.
  split; [exact sample_names_unique|]. split; [exact H|].
  exact (addLayer_keeps_layer_names_unique LP.toPixelPoint SampleLayer
           sample_layer_eq_dec sample_name nat new_labels 0 sample_widget
           sample_names_unique H).
Defined.

Lemma added_layer_is_found_by_its_name_witness :
  NoDup (layer_names SampleLayer sample_name (m_layers SampleLayer sample_widget))
  /\ addLayer LP.toPixelPoint SampleLayer sample_layer_eq_dec sample_name nat
       (Some new_labels) 0 sample_widget = Some (tt, relabelled, relabel_effects)
  /\ getLayer SampleLayer sample_name (sample_name new_labels) relabelled = Some new_labels.
Proof.
  split; [exact sample_names_unique|]. split; [exact relabel_run_result|].
  exact (proj1 (added_layer_is_found_by_its_name LP.toPixelPoint SampleLayer
                  sample_layer_eq_dec sample_name nat new_labels 0 sample_widget
                  relabelled relabel_effects sample_names_unique relabel_run_result)).
Defined.

Lemma removed_layer_is_not_found_witness :
  NoDup (layer_names SampleLayer sample_name (m_layers SampleLayer sample_widget))
  /\ getLayer SampleLayer sample_name (sample_name labels)
       (wexec SampleLayer nat
          (removeLayer LP.toPixelPoint SampleLayer sample_layer_eq_dec sample_name nat
             (sample_name labels)) sample_widget)
     = None.
Proof.
  split; [exact sample_names_unique|].
  exact (proj1 (removed_layer_is_not_found LP.toPixelPoint SampleLayer
                  sample_layer_eq_dec sample_name nat (sample_name labels) sample_widget
                  sample_names_unique)).
Defined.

Lemma added_layer_position_witness :
  NoDup (layer_names SampleLayer sample_name (m_layers SampleLayer sample_widget))
  /\ addLayer LP.toPixelPoint SampleLayer sample_layer_eq_dec sample_name nat
       (Some new_labels) 0 sample_widget = Some (tt, relabelled, relabel_effects)
  /\ without SampleLayer sample_name (sample_name new_labels)
       (m_layers SampleLayer relabelled)
     = without SampleLayer sample_name (sample_name new_labels)
         (m_layers SampleLayer sample_widget).
Proof.
  split; [exact sample_names_unique|]. split; [exact relabel_run_result|].
  exact (proj1 (added_layer_position LP.toPixelPoint SampleLayer
                  sample_layer_eq_dec sample_name nat new_labels 0 sample_widget
                  relabelled relabel_effects sample_names_unique relabel_run_result)).
Defined.

Lemma disabled_mouse_events_reach_only_the_layers_witness :
  m_mouse_events_enabled SampleLayer disabled_widget = false
  /\ wheelEvent LP.toPixelPoint LP.toCoordinatePoint SampleLayer nat 120 outside
       disabled_widget
     = (tt, disabled_widget, [WheelIgnore SampleLayer nat]).
Proof.
  assert (H : m_mouse_events_enabled SampleLayer disabled_widget = false) by reflexivity.
  split; [exact H|].
  exact (proj2 (proj2 (proj2
           (disabled_mouse_events_reach_only_the_layers
              LP.toPixelPoint LP.toCoordinatePoint SampleLayer sample_name
              (fun _ _ => true) nat (fun _ _ => []) (fun _ _ _ => true)
              LeftButton true false 120 outside disabled_widget H)))).
Defined.



Lemma drag_and_key_scroll_only :
  Forall (fun event => scrolls_only event = true) drag_and_key.
Proof. repeat constructor. Qed.

Lemma drags_and_keys_keep_focus_inside_limit_witness :
  Forall (fun event => scrolls_only event = true) drag_and_key
  /\ Qt.isValid (m_limited_viewport_rect_coord (control SampleLayer limited_widget)) = true
  /\ focus_inside_limit (control SampleLayer limited_widget)
  /\ focus_inside_limit
       (control SampleLayer
          (wexec SampleLayer nat
             (handle_all LP.toPixelPoint LP.toCoordinatePoint SampleLayer sample_name
                (fun _ _ => true) nat (fun _ _ => []) (fun _ _ _ => true) (Fin 10)
                drag_and_key)
             limited_widget)).
Proof.
  split; [exact drag_and_key_scroll_only|].
  split; [exact limited_inside_valid|]. split; [exact limited_inside_focus|].
  exact (proj1 (drags_and_keys_keep_focus_inside_limit
                  LP.toPixelPoint LP.toCoordinatePoint SampleLayer sample_name
                  (fun _ _ => true) nat (fun _ _ => []) (fun _ _ _ => true) (Fin 10)
                  drag_and_key limited_widget drag_and_key_scroll_only
                  limited_inside_valid limited_inside_focus)).
Defined.

End MoreRuns.
